(** * youtube-auto-dub: the browser client [static/app.js]

    A shallow embedding of the job monitor of [static/app.js]: the resume
    store (one [localStorage] key), the push channel ([startSSE], an
    [EventSource] with bounded reconnection), the poll channel
    ([startPolling], a [setInterval] loop), the snapshot renderer
    ([updateProgress]) and the two terminal handlers ([finishSuccess],
    [finishError]).

    JavaScript runs one callback at a time, so a callback is a transition of
    a state that holds the module-level variables, the objects they refer
    to, the pending timers and the page elements the code writes.  A
    callback can throw; what it wrote before throwing stays written. *)

From Stdlib Require Import ZArith Ascii String List Lia DecimalString DecimalPos.
From stdpp Require Import base option list strings.
Import ListNotations.

Local Open Scope string_scope.
Local Open Scope Z_scope.

(** ** JavaScript values *)

(** The values the client reads out of a decoded JSON object.  Of the
    numbers, those with an integer value are modelled (the service sends an
    integer percentage): [JNum n] is the number [n].  Every integer below
    2^53 in absolute value is a number; of the larger ones only those that
    binary64 represents are, and [to_string] reads any other as the
    nearest number. *)
Inductive JsVal : Type :=
| JUndefined
| JNull
| JBool (b : bool)
| JNum (n : Z)
| JStr (s : string).

#[global] Instance JsVal_eq_dec : EqDecision JsVal.
Proof. solve_decision. Defined.

(** ToBoolean. *)
Definition truthy (v : JsVal) : bool :=
  match v with
  | JUndefined | JNull => false
  | JBool b => b
  | JNum n => negb (Z.eqb n 0)
  | JStr s => negb (String.eqb s "")
  end.

(** [a || b]. *)
Definition js_or (a b : JsVal) : JsVal := if truthy a then a else b.

(** [a === b] on these values. *)
Definition strict_eq (a b : JsVal) : bool := bool_decide (a = b).

Definition string_of_Z (n : Z) : string := NilZero.string_of_int (Z.to_int n).

(** *** Numbers as text *)

(** The binary64 number nearest to an integer, a tie going to the even
    significand; an integer below 2^53 in absolute value is its own. *)
Definition round_to_double (n : Z) : Z :=
  let a := Z.abs n in
  if a <? 2 ^ 53 then n
  else
    let sh := Z.log2 a + 1 - 53 in
    let q := Z.shiftr a sh in
    let r := a - Z.shiftl q sh in
    let half := Z.shiftl 1 (sh - 1) in
    let q := if (half <? r) || ((r =? half) && Z.odd q) then q + 1 else q in
    Z.sgn n * Z.shiftl q sh.

(** [c] reads back as the number [v]: it lies between the midpoints to the
    neighbours of [v], the midpoints included when the significand of [v]
    is even.  For [v] of at least 2^53; all quantities are taken four-fold
    to stay with integers. *)
Definition reads_back_as (v c : Z) : bool :=
  let e := Z.log2 v + 1 - 53 in
  let m := Z.shiftr v e in
  let hi := 4 * v + 2 * 2 ^ e in
  let lo := 4 * v - (if m =? 2 ^ 52 then 2 ^ e else 2 * 2 ^ e) in
  if Z.even m then (lo <=? 4 * c) && (4 * c <=? hi)
  else (lo <? 4 * c) && (4 * c <? hi).

(** The decimal with the fewest significant digits that reads back as
    [v], the nearest one when there are two: [u] is the weight of the last
    digit tried, from the leading digit down. *)
Fixpoint shortest_from (fuel : nat) (v u : Z) : Z :=
  match fuel with
  | O => v
  | S fuel' =>
      let c1 := v / u * u in
      let c2 := c1 + u in
      let ok1 := reads_back_as v c1 in
      let ok2 := reads_back_as v c2 in
      if ok1 && ok2 then
        if v - c1 <? c2 - v then c1
        else if c2 - v <? v - c1 then c2
        else if Z.even (v / u) then c1 else c2
      else if ok1 then c1
      else if ok2 then c2
      else shortest_from fuel' v (u / 10)
  end.

Definition shortest_decimal (v : Z) : Z :=
  if v <? 2 ^ 53 then v
  else
    let n := String.length (string_of_Z v) in
    shortest_from n v (10 ^ (Z.of_nat n - 1)).

Fixpoint strip_trailing_zeros (s : string) : string :=
  match s with
  | EmptyString => EmptyString
  | String c s' =>
      let t := strip_trailing_zeros s' in
      if String.eqb t "" && Ascii.eqb c "0"%char then "" else String c t
  end.

(** Number::toString on a positive number with an integer value: plain
    digits below 10^21, exponent notation from there on, [Infinity] past
    the largest number. *)
Definition positive_to_string (v : Z) : string :=
  if 2 ^ 1024 <=? v then "Infinity"
  else
    let c := shortest_decimal v in
    if c <? 10 ^ 21 then string_of_Z c
    else
      let s := string_of_Z c in
      let ex := string_of_Z (Z.of_nat (String.length s) - 1) in
      match strip_trailing_zeros s with
      | EmptyString => s
      | String d EmptyString => String d ("e+" +:+ ex)
      | String d ds => String d ("." +:+ ds +:+ "e+" +:+ ex)
      end.

Definition number_to_string (n : Z) : string :=
  let v := round_to_double n in
  if v =? 0 then "0"
  else if v <? 0 then "-" +:+ positive_to_string (- v)
  else positive_to_string v.

(** ToString, as a template literal or a [textContent] assignment applies it. *)
Definition to_string (v : JsVal) : string :=
  match v with
  | JUndefined => "undefined"
  | JNull => "null"
  | JBool true => "true"
  | JBool false => "false"
  | JNum n => number_to_string n
  | JStr s => s
  end.

(** [Array.prototype.indexOf]: the first position that is [===] to the
    value, [-1] when there is none. *)
Fixpoint indexOf_from (l : list string) (v : JsVal) (i : Z) : Z :=
  match l with
  | [] => -1
  | x :: l' => if strict_eq (JStr x) v then i else indexOf_from l' v (i + 1)
  end.

Definition indexOf (l : list string) (v : JsVal) : Z := indexOf_from l v 0.

(** ** The stage order *)

Definition STAGE_ORDER : list string :=
  ["download"; "transcribe"; "chunk"; "translate"; "tts"; "render"; "done"].

(** ** Job snapshots *)

(** The fields of a decoded job object that the client reads; a field the
    object lacks reads as [JUndefined]. *)
Record Snapshot : Type := mkSnapshot {
  job_id : JsVal;
  progress : JsVal;
  message : JsVal;
  stage : JsVal;
  status : JsVal;
  error : JsVal
}.

(** A decoded JSON document: [null], or something with properties. *)
Inductive Json : Type :=
| JsonNull
| JsonObj (d : Snapshot).

(** ** The page *)

(** [DOMTokenList.remove] and [DOMTokenList.add] on an element's class list. *)
Definition classList_remove (tok : string) (cl : list string) : list string :=
  filter (fun c => c <> tok) cl.

Definition classList_add (tok : string) (cl : list string) : list string :=
  if bool_decide (tok ∈ cl) then cl else cl ++ [tok].

(** An element matched by [.stage]: its [data-stage] attribute, its class
    list, and the text of its [.stage-status] child. *)
Record StageEl : Type := mkStageEl {
  dataset_stage : JsVal;
  classList : list string;
  stage_status : string
}.

(** The elements the monitor writes.  The markup is not part of the
    script, so the list of stage elements is whatever the page holds. *)
Record Dom : Type := mkDom {
  progressSection_display : string;
  jobIdLabel : string;
  progressFill_width : string;
  progressText : string;
  statusMessage : string;
  stages : list StageEl;
  resultSection_display : string;
  resultSuccess_display : string;
  resultError_display : string;
  resultMessage : string;
  errorMessage : string;
  downloadBtn_href : string;
  submitBtn_disabled : bool;
  btnText_display : string;
  btnLoading_display : string
}.

(** ** Browser objects *)

(** [localStorage]: the value under ['yt_dub_job_id'], and whether the
    storage layer faults (every access throws). *)
Record Storage : Type := mkStorage {
  ls_faulty : bool;
  ls_item : option string
}.

(** An [EventSource] constructed by [connect]: its URL, the [startSSE]
    activation whose handlers it carries, and whether it is still open. *)
Record EventSourceObj : Type := mkEventSource {
  es_url : string;
  es_closure : nat;
  es_open : bool
}.

(** One activation of [startSSE]: its parameter and its local counter. *)
Record SseClosure : Type := mkClosure {
  c_jobId : JsVal;
  retryCount : Z
}.

(** A pending [setTimeout(connect, delay)]. *)
Record Timeout : Type := mkTimeout {
  to_closure : nat;
  to_delay : Z
}.

(** A [setInterval] registration of the poll callback. *)
Record Interval : Type := mkInterval {
  iv_jobId : JsVal;
  iv_period : Z;
  iv_active : bool
}.

(** ** The state *)

Record State : Type := mkState {
  localStorage : Storage;
  currentJobId : JsVal;
  eventSource : option nat;      (* null, or a reference into [sources] *)
  pollTimer : option nat;        (* null, or a reference into [intervals] *)
  closures : list SseClosure;
  sources : list EventSourceObj;
  timeouts : list Timeout;
  intervals : list Interval;
  inflight : nat;                (* poll requests awaiting their response *)
  page : Dom
}.

Definition set_localStorage (x : Storage) (s : State) : State :=
  mkState x (currentJobId s) (eventSource s) (pollTimer s) (closures s)
          (sources s) (timeouts s) (intervals s) (inflight s) (page s).
Definition set_currentJobId (x : JsVal) (s : State) : State :=
  mkState (localStorage s) x (eventSource s) (pollTimer s) (closures s)
          (sources s) (timeouts s) (intervals s) (inflight s) (page s).
Definition set_eventSource (x : option nat) (s : State) : State :=
  mkState (localStorage s) (currentJobId s) x (pollTimer s) (closures s)
          (sources s) (timeouts s) (intervals s) (inflight s) (page s).
Definition set_pollTimer (x : option nat) (s : State) : State :=
  mkState (localStorage s) (currentJobId s) (eventSource s) x (closures s)
          (sources s) (timeouts s) (intervals s) (inflight s) (page s).
Definition set_closures (x : list SseClosure) (s : State) : State :=
  mkState (localStorage s) (currentJobId s) (eventSource s) (pollTimer s) x
          (sources s) (timeouts s) (intervals s) (inflight s) (page s).
Definition set_sources (x : list EventSourceObj) (s : State) : State :=
  mkState (localStorage s) (currentJobId s) (eventSource s) (pollTimer s)
          (closures s) x (timeouts s) (intervals s) (inflight s) (page s).
Definition set_timeouts (x : list Timeout) (s : State) : State :=
  mkState (localStorage s) (currentJobId s) (eventSource s) (pollTimer s)
          (closures s) (sources s) x (intervals s) (inflight s) (page s).
Definition set_intervals (x : list Interval) (s : State) : State :=
  mkState (localStorage s) (currentJobId s) (eventSource s) (pollTimer s)
          (closures s) (sources s) (timeouts s) x (inflight s) (page s).
Definition set_inflight (x : nat) (s : State) : State :=
  mkState (localStorage s) (currentJobId s) (eventSource s) (pollTimer s)
          (closures s) (sources s) (timeouts s) (intervals s) x (page s).
Definition set_page (x : Dom) (s : State) : State :=
  mkState (localStorage s) (currentJobId s) (eventSource s) (pollTimer s)
          (closures s) (sources s) (timeouts s) (intervals s) (inflight s) x.

(** ** Callbacks: state and exceptions *)

Inductive Exn : Type := TypeError | SyntaxError | StorageError | NetworkError.

Inductive Res (A : Type) : Type :=
| Val (a : A)
| Throw (e : Exn).
Arguments Val {A} a.
Arguments Throw {A} e.

(** A piece of JavaScript: it leaves a state behind and either completes
    with a value or throws. *)
Definition M (A : Type) : Type := State -> State * Res A.

Definition ret {A} (a : A) : M A := fun s => (s, Val a).

Definition throw {A} (e : Exn) : M A := fun s => (s, Throw e).

Definition bind {A B} (m : M A) (k : A -> M B) : M B :=
  fun s => match m s with
           | (s', Val a) => k a s'
           | (s', Throw e) => (s', Throw e)
           end.

(** [try { m } catch { h }]. *)
Definition try_catch {A} (m : M A) (h : Exn -> M A) : M A :=
  fun s => match m s with
           | (s', Val a) => (s', Val a)
           | (s', Throw e) => h e s'
           end.

Definition get : M State := fun s => (s, Val s).
Definition modify (f : State -> State) : M unit := fun s => (f s, Val tt).
Definition modify_page (f : Dom -> Dom) : M unit :=
  modify (fun s => set_page (f (page s)) s).

Declare Scope js_scope.
Delimit Scope js_scope with js.
Notation "'do' x <- m ; k" := (bind m (fun x => k))
  (at level 10, x name, m at level 100, k at level 200) : js_scope.
Notation "'run' m ; k" := (bind m (fun _ => k))
  (at level 10, m at level 100, k at level 200) : js_scope.
Notation "'when' c 'then' m" := (if c then m else ret tt)
  (at level 10, c at level 9, m at level 100) : js_scope.

Definition exec {A} (m : M A) (s : State) : State := fst (m s).
Definition result {A} (m : M A) (s : State) : Res A := snd (m s).

Local Open Scope js_scope.

(** Reading a property of a decoded document; [null.x] is a TypeError. *)
Definition prop (f : Snapshot -> JsVal) (data : Json) : M JsVal :=
  match data with
  | JsonNull => throw TypeError
  | JsonObj d => ret (f d)
  end.

(** ** The resume store: [localStorage] under ['yt_dub_job_id'] *)

Definition localStorage_getItem : M JsVal :=
  do s <- get;
  if ls_faulty (localStorage s) then throw StorageError
  else ret (match ls_item (localStorage s) with
            | Some v => JStr v
            | None => JNull
            end).

Definition localStorage_setItem (v : JsVal) : M unit :=
  do s <- get;
  if ls_faulty (localStorage s) then throw StorageError
  else modify (set_localStorage (mkStorage false (Some (to_string v)))).

Definition localStorage_removeItem : M unit :=
  do s <- get;
  if ls_faulty (localStorage s) then throw StorageError
  else modify (set_localStorage (mkStorage false None)).

(** ** Page writes *)

(** *** What [style.width] accepts *)

(** An assignment to [style.width] takes effect only when the text is a
    value of the property; any other text is dropped and the width stays
    as it was.  Every text the script assigns ends in [%], and of these
    the property accepts a percentage that is not negative: a CSS number
    (sign, digits, fraction, exponent), white space allowed in front,
    directly followed by [%].  Function notation and comments are not
    modelled: a text that uses them counts as not accepted.  The page
    keeps the text of the last assignment that took effect, as it was
    assigned. *)
Definition is_digit (c : ascii) : bool :=
  match c with
  | "0" | "1" | "2" | "3" | "4" | "5" | "6" | "7" | "8" | "9" => true
  | _ => false
  end%char.

Definition is_css_space (c : ascii) : bool :=
  match c with
  | " " | "009" | "010" | "012" | "013" => true
  | _ => false
  end%char.

Fixpoint skip_css_space (s : string) : string :=
  match s with
  | String c s' => if is_css_space c then skip_css_space s' else s
  | EmptyString => EmptyString
  end.

(** The digits at the front of [s], and what follows them. *)
Fixpoint take_digits (s : string) : string * string :=
  match s with
  | String c s' =>
      if is_digit c then
        let (ds, rest) := take_digits s' in (String c ds, rest)
      else (EmptyString, s)
  | EmptyString => (EmptyString, EmptyString)
  end.

Fixpoint all_zero (ds : string) : bool :=
  match ds with
  | EmptyString => true
  | String c ds' => Ascii.eqb c "0"%char && all_zero ds'
  end.

(** An optional sign. *)
Definition css_sign (s : string) : bool * string :=
  match s with
  | String "-" s' => (true, s')
  | String "+" s' => (false, s')
  | _ => (false, s)
  end.

(** An optional fraction: a point followed by at least one digit. *)
Definition css_fraction (s : string) : string * string :=
  match s with
  | String "." s' =>
      let (f, s'') := take_digits s' in
      if String.eqb f "" then (EmptyString, s) else (f, s'')
  | _ => (EmptyString, s)
  end.

(** An optional exponent: [e] or [E], an optional sign, at least one
    digit. *)
Definition css_exponent (s : string) : string :=
  match s with
  | String c s' =>
      if Ascii.eqb c "e"%char || Ascii.eqb c "E"%char then
        let (ex, t) := take_digits (snd (css_sign s')) in
        if String.eqb ex "" then s else t
      else s
  | EmptyString => s
  end.

Definition style_width_accepts (x : string) : bool :=
  let '(negative, s) := css_sign (skip_css_space x) in
  let '(int, s) := take_digits s in
  let '(frac, s) := css_fraction s in
  let s := css_exponent s in
  negb (String.eqb int "" && String.eqb frac "")
  && String.eqb s "%"
  && (negb negative || (all_zero int && all_zero frac)).

Definition set_progressSection_display (x : string) (d : Dom) : Dom :=
  mkDom x (jobIdLabel d) (progressFill_width d) (progressText d)
        (statusMessage d) (stages d) (resultSection_display d)
        (resultSuccess_display d) (resultError_display d) (resultMessage d)
        (errorMessage d) (downloadBtn_href d) (submitBtn_disabled d)
        (btnText_display d) (btnLoading_display d).
Definition set_jobIdLabel (x : string) (d : Dom) : Dom :=
  mkDom (progressSection_display d) x (progressFill_width d) (progressText d)
        (statusMessage d) (stages d) (resultSection_display d)
        (resultSuccess_display d) (resultError_display d) (resultMessage d)
        (errorMessage d) (downloadBtn_href d) (submitBtn_disabled d)
        (btnText_display d) (btnLoading_display d).
Definition set_progressFill_width (x : string) (d : Dom) : Dom :=
  mkDom (progressSection_display d) (jobIdLabel d)
        (if style_width_accepts x then x else progressFill_width d)
        (progressText d)
        (statusMessage d) (stages d) (resultSection_display d)
        (resultSuccess_display d) (resultError_display d) (resultMessage d)
        (errorMessage d) (downloadBtn_href d) (submitBtn_disabled d)
        (btnText_display d) (btnLoading_display d).
Definition set_progressText (x : string) (d : Dom) : Dom :=
  mkDom (progressSection_display d) (jobIdLabel d) (progressFill_width d) x
        (statusMessage d) (stages d) (resultSection_display d)
        (resultSuccess_display d) (resultError_display d) (resultMessage d)
        (errorMessage d) (downloadBtn_href d) (submitBtn_disabled d)
        (btnText_display d) (btnLoading_display d).
Definition set_statusMessage (x : string) (d : Dom) : Dom :=
  mkDom (progressSection_display d) (jobIdLabel d) (progressFill_width d)
        (progressText d) x (stages d) (resultSection_display d)
        (resultSuccess_display d) (resultError_display d) (resultMessage d)
        (errorMessage d) (downloadBtn_href d) (submitBtn_disabled d)
        (btnText_display d) (btnLoading_display d).
Definition set_stages (x : list StageEl) (d : Dom) : Dom :=
  mkDom (progressSection_display d) (jobIdLabel d) (progressFill_width d)
        (progressText d) (statusMessage d) x (resultSection_display d)
        (resultSuccess_display d) (resultError_display d) (resultMessage d)
        (errorMessage d) (downloadBtn_href d) (submitBtn_disabled d)
        (btnText_display d) (btnLoading_display d).
Definition set_resultSection_display (x : string) (d : Dom) : Dom :=
  mkDom (progressSection_display d) (jobIdLabel d) (progressFill_width d)
        (progressText d) (statusMessage d) (stages d) x
        (resultSuccess_display d) (resultError_display d) (resultMessage d)
        (errorMessage d) (downloadBtn_href d) (submitBtn_disabled d)
        (btnText_display d) (btnLoading_display d).
Definition set_resultSuccess_display (x : string) (d : Dom) : Dom :=
  mkDom (progressSection_display d) (jobIdLabel d) (progressFill_width d)
        (progressText d) (statusMessage d) (stages d)
        (resultSection_display d) x (resultError_display d) (resultMessage d)
        (errorMessage d) (downloadBtn_href d) (submitBtn_disabled d)
        (btnText_display d) (btnLoading_display d).
Definition set_resultError_display (x : string) (d : Dom) : Dom :=
  mkDom (progressSection_display d) (jobIdLabel d) (progressFill_width d)
        (progressText d) (statusMessage d) (stages d)
        (resultSection_display d) (resultSuccess_display d) x
        (resultMessage d) (errorMessage d) (downloadBtn_href d)
        (submitBtn_disabled d) (btnText_display d) (btnLoading_display d).
Definition set_resultMessage (x : string) (d : Dom) : Dom :=
  mkDom (progressSection_display d) (jobIdLabel d) (progressFill_width d)
        (progressText d) (statusMessage d) (stages d)
        (resultSection_display d) (resultSuccess_display d)
        (resultError_display d) x (errorMessage d) (downloadBtn_href d)
        (submitBtn_disabled d) (btnText_display d) (btnLoading_display d).
Definition set_errorMessage (x : string) (d : Dom) : Dom :=
  mkDom (progressSection_display d) (jobIdLabel d) (progressFill_width d)
        (progressText d) (statusMessage d) (stages d)
        (resultSection_display d) (resultSuccess_display d)
        (resultError_display d) (resultMessage d) x (downloadBtn_href d)
        (submitBtn_disabled d) (btnText_display d) (btnLoading_display d).
Definition set_downloadBtn_href (x : string) (d : Dom) : Dom :=
  mkDom (progressSection_display d) (jobIdLabel d) (progressFill_width d)
        (progressText d) (statusMessage d) (stages d)
        (resultSection_display d) (resultSuccess_display d)
        (resultError_display d) (resultMessage d) (errorMessage d) x
        (submitBtn_disabled d) (btnText_display d) (btnLoading_display d).
Definition set_submitBtn (dis : bool) (txt loading : string) (d : Dom) : Dom :=
  mkDom (progressSection_display d) (jobIdLabel d) (progressFill_width d)
        (progressText d) (statusMessage d) (stages d)
        (resultSection_display d) (resultSuccess_display d)
        (resultError_display d) (resultMessage d) (errorMessage d)
        (downloadBtn_href d) dis txt loading.

Definition set_classList (cl : list string) (el : StageEl) : StageEl :=
  mkStageEl (dataset_stage el) cl (stage_status el).
Definition set_stage_status (x : string) (el : StageEl) : StageEl :=
  mkStageEl (dataset_stage el) (classList el) x.

(** ** Channel primitives *)

(** [x.close()] on the EventSource object [i]. *)
Definition close_source (i : nat) (l : list EventSourceObj)
  : list EventSourceObj :=
  alter (fun e => mkEventSource (es_url e) (es_closure e) false) i l.

(** [eventSource.close()]: a TypeError when the variable holds [null]. *)
Definition eventSource_close : M unit :=
  do s <- get;
  match eventSource s with
  | None => throw TypeError
  | Some i => modify (set_sources (close_source i (sources s)))
  end.

(** [if (eventSource) { eventSource.close(); eventSource = null; }] *)
Definition close_eventSource_if_open : M unit :=
  do s <- get;
  when (bool_decide (is_Some (eventSource s))) then
    (run eventSource_close;
     modify (set_eventSource None)).

Definition clearInterval (i : nat) : M unit :=
  modify (fun s =>
    set_intervals
      (alter (fun v => mkInterval (iv_jobId v) (iv_period v) false) i
             (intervals s)) s).

Definition stopPolling : M unit :=
  do s <- get;
  match pollTimer s with
  | Some i =>
      run clearInterval i;
      modify (set_pollTimer None)
  | None => ret tt
  end.

(** [pollTimer = setInterval(async () => ..., 1500)] after [stopPolling()]. *)
Definition startPolling (jobId : JsVal) : M unit :=
  run stopPolling;
  do s <- get;
  run modify (set_intervals (intervals s ++ [mkInterval jobId 1500 true]));
  modify (set_pollTimer (Some (length (intervals s)))).

Definition resetSubmitBtn : M unit :=
  modify_page (set_submitBtn false "inline" "none").

(** ** Rendering *)

(** The body of the [forEach] of [showProgress]. *)
Definition reset_stage (s : StageEl) : StageEl :=
  set_stage_status "Waiting"
    (set_classList
       (classList_remove "done" (classList_remove "active" (classList s))) s).

Definition showProgress (jobId : JsVal) : M unit :=
  run modify_page (set_progressSection_display "block");
  run modify_page (set_jobIdLabel ("Job: " +:+ to_string jobId));
  run modify_page (set_resultSection_display "none");
  run modify_page (fun d => set_stages (reset_stage <$> stages d) d);
  run modify_page (set_progressFill_width "0%");
  modify_page (set_progressText "0%").

(** The body of the [forEach] of [updateProgress]. *)
Definition update_stage (currentIdx : Z) (st : JsVal) (stageEl : StageEl)
  : StageEl :=
  let stageId := dataset_stage stageEl in
  let stageIdx := indexOf STAGE_ORDER stageId in
  let stageEl :=
    set_classList
      (classList_remove "done" (classList_remove "active" (classList stageEl)))
      stageEl in
  if stageIdx <? currentIdx then
    set_stage_status "Complete ✓"
      (set_classList (classList_add "done" (classList stageEl)) stageEl)
  else if (stageIdx =? currentIdx) && strict_eq st (JStr "running") then
    set_stage_status "Processing..."
      (set_classList (classList_add "active" (classList stageEl)) stageEl)
  else stageEl.

(** The body of the [forEach] of [finishSuccess]. *)
Definition finish_stage (s : StageEl) : StageEl :=
  set_stage_status "Complete ✓"
    (set_classList
       (classList_add "done" (classList_remove "active" (classList s))) s).

Definition finishSuccess (data : Json) : M unit :=
  run close_eventSource_if_open;
  run stopPolling;
  run localStorage_removeItem;
  run modify_page (fun d => set_stages (finish_stage <$> stages d) d);
  run modify_page (set_progressFill_width "100%");
  run modify_page (set_progressText "100%");
  run modify_page (set_resultSection_display "block");
  run modify_page (set_resultSuccess_display "block");
  run modify_page (set_resultError_display "none");
  do msg <- prop message data;
  run modify_page
    (set_resultMessage
       (to_string
          (js_or msg (JStr "Your video has been dubbed successfully!"))));
  do s <- get;
  run modify_page
    (set_downloadBtn_href ("/api/download/" +:+ to_string (currentJobId s)));
  resetSubmitBtn.

Definition finishError (data : Json) : M unit :=
  run localStorage_removeItem;
  run close_eventSource_if_open;
  run modify_page (set_resultSection_display "block");
  run modify_page (set_resultSuccess_display "none");
  run modify_page (set_resultError_display "block");
  do err <- prop error data;
  run modify_page
    (set_errorMessage
       (to_string (js_or err (JStr "An unknown error occurred."))));
  resetSubmitBtn.

Definition updateProgress (data : Json) : M unit :=
  do p <- prop progress data;
  let pct := js_or p (JNum 0) in
  run modify_page (set_progressFill_width (to_string pct +:+ "%"));
  run modify_page (set_progressText (to_string pct +:+ "%"));
  do msg <- prop message data;
  run when (truthy msg) then modify_page (set_statusMessage (to_string msg));
  do currentStage <- prop stage data;
  let currentIdx := indexOf STAGE_ORDER currentStage in
  do st <- prop status data;
  run modify_page (fun d =>
    set_stages (update_stage currentIdx st <$> stages d) d);
  if strict_eq st (JStr "complete") then finishSuccess data
  else if strict_eq st (JStr "error") then finishError data
  else ret tt.

Definition showError (msg : JsVal) : M unit :=
  run modify_page (set_resultSection_display "block");
  run modify_page (set_resultSuccess_display "none");
  run modify_page (set_resultError_display "block");
  modify_page (set_errorMessage (to_string msg)).

Definition resetForm : M unit :=
  run localStorage_removeItem;
  run modify (set_currentJobId JNull);
  run modify_page (set_resultSection_display "none");
  run modify_page (set_resultSuccess_display "none");
  run modify_page (set_resultError_display "none");
  run modify_page (set_progressSection_display "none");
  resetSubmitBtn.

(** ** The push channel *)

Definition maxRetries : Z := 5.

(** What [JSON.parse] or [res.json()] makes of a text. *)
Inductive Parsed : Type :=
| Malformed
| Decoded (j : Json).

Definition JSON_parse (raw : Parsed) : M Json :=
  match raw with
  | Malformed => throw SyntaxError
  | Decoded j => ret j
  end.

Definition set_retryCount (c : nat) (n : Z) : M unit :=
  modify (fun s =>
    set_closures
      (alter (fun cl => mkClosure (c_jobId cl) n) c (closures s)) s).

Definition get_retryCount (c : nat) : M Z :=
  do s <- get;
  ret (from_option retryCount 0 (closures s !! c)).

Definition get_jobId (c : nat) : M JsVal :=
  do s <- get;
  ret (from_option c_jobId JUndefined (closures s !! c)).

(** [connect] of the activation [c]: [eventSource = new EventSource(...)]. *)
Definition connect (c : nat) : M unit :=
  do jobId <- get_jobId c;
  do s <- get;
  run modify
    (set_sources
       (sources s ++ [mkEventSource ("/api/status/" +:+ to_string jobId) c true]));
  modify (set_eventSource (Some (length (sources s)))).

Definition setTimeout_connect (c : nat) (delay : Z) : M unit :=
  modify (fun s => set_timeouts (timeouts s ++ [mkTimeout c delay]) s).

Definition is_terminal (st : JsVal) : bool :=
  strict_eq st (JStr "complete") || strict_eq st (JStr "error").

(** [eventSource.onmessage] of a source created by the activation [c]. *)
Definition onmessage (c : nat) (event_data : Parsed) : M unit :=
  try_catch
    (run set_retryCount c 0;
     do data <- JSON_parse event_data;
     run updateProgress data;
     do st <- prop status data;
     when (is_terminal st) then
       (run eventSource_close;
        run modify (set_eventSource None);
        stopPolling))
    (fun _ => ret tt).

(** [eventSource.onerror] of a source created by the activation [c]. *)
Definition onerror (c : nat) : M unit :=
  run eventSource_close;
  run modify (set_eventSource None);
  do n <- get_retryCount c;
  run set_retryCount c (n + 1);
  do n <- get_retryCount c;
  when (n <=? maxRetries) then setTimeout_connect c 2000.

Definition startSSE (jobId : JsVal) : M unit :=
  do s <- get;
  run when (bool_decide (is_Some (eventSource s))) then eventSource_close;
  do s <- get;
  let c := length (closures s) in
  run modify (set_closures (closures s ++ [mkClosure jobId 0]));
  run connect c;
  startPolling jobId.

(** ** The poll channel *)

(** How a [fetch] of the job state settles: it rejects, or it resolves
    with a response whose [ok] flag and body are given. *)
Inductive FetchResult : Type :=
| FetchRejects
| Response (ok : bool) (body : Parsed).

Definition await_fetch (r : FetchResult) : M (bool * Parsed) :=
  match r with
  | FetchRejects => throw NetworkError
  | Response ok body => ret (ok, body)
  end.

(** The [setInterval] callback, from the point where its [fetch] settles. *)
Definition poll_callback (r : FetchResult) : M unit :=
  try_catch
    (do res <- await_fetch r;
     when (fst res) then
       (do data <- JSON_parse (snd res);
        run updateProgress data;
        do st <- prop status data;
        when (is_terminal st) then
          (run stopPolling;
           close_eventSource_if_open)))
    (fun _ => ret tt).

(** ** Starting and resuming a session *)

(** Both handlers of this section are [async]: each runs up to its
    [await fetch(...)], and runs on when the request has settled, in the
    state the page is in by then.  The part that runs on is a definition
    of its own. *)

(** [resumeActiveJob] from the point where its [fetch] has settled: the
    rest of the [try] block and the [catch], with the id that was read
    from the store before the request. *)
Definition resumeActiveJob_reply (savedJobId : JsVal) (r : FetchResult)
  : M unit :=
    try_catch
      (do res <- await_fetch r;
       if negb (fst res) then localStorage_removeItem
       else
         do data <- JSON_parse (snd res);
         do st <- prop status data;
         if strict_eq st (JStr "running") || strict_eq st (JStr "queued") then
           run modify (set_currentJobId savedJobId);
           run showProgress savedJobId;
           run updateProgress data;
           run startSSE savedJobId;
           modify_page (set_submitBtn true "none" "inline-flex")
         else if strict_eq st (JStr "complete") then
           run modify (set_currentJobId savedJobId);
           run showProgress savedJobId;
           run updateProgress data;
           finishSuccess data
         else if strict_eq st (JStr "error") then
           run modify (set_currentJobId savedJobId);
           run showProgress savedJobId;
           run updateProgress data;
           finishError data
         else localStorage_removeItem)
      (fun _ => localStorage_removeItem).

(** [resumeActiveJob], given how its one [fetch] settles, when no other
    callback runs while the request is under way. *)
Definition resumeActiveJob (r : FetchResult) : M unit :=
  do savedJobId <- localStorage_getItem;
  if negb (truthy savedJobId) then ret tt
  else resumeActiveJob_reply savedJobId r.

(** [handleSubmit] from the point where its [fetch] has settled: the rest
    of the [try] block and the [catch]. *)
Definition handleSubmit_reply (r : FetchResult) : M unit :=
    try_catch
      (do res <- await_fetch r;
       do data <- JSON_parse (snd res);
       if negb (fst res) then
         do e <- prop error data;
         run showError (js_or e (JStr "Failed to start dubbing"));
         resetSubmitBtn
       else
         do id <- prop job_id data;
         run modify (set_currentJobId id);
         run localStorage_setItem id;
         run showProgress id;
         startSSE id)
      (fun _ =>
         run showError (JStr "Network error. Is the server running?");
         resetSubmitBtn).

(** [handleSubmit], given what [validateUrl()] answers and how the
    submission [fetch] settles, when no other callback runs while the
    request is under way: the part before the [await] puts the button in
    its loading state. *)
Definition handleSubmit (valid : bool) (r : FetchResult) : M unit :=
  if negb valid then ret tt
  else
    run modify_page (set_submitBtn true "none" "inline-flex");
    handleSubmit_reply r.

(** ** The event loop *)

Inductive Event : Type :=
| EsMessage (src : nat) (event_data : Parsed)  (* a message on a source *)
| EsError (src : nat)                          (* a transport error on it *)
| TimerFires (k : nat)                         (* the k-th pending timeout *)
| IntervalTick (i : nat)                       (* the poll callback starts *)
| PollSettles (r : FetchResult)                (* one poll request settles *)
| Submit (valid : bool) (r : FetchResult)
| Resume (r : FetchResult)
| RetryClick.

(** One turn of the event loop.  [None]: the browser cannot deliver this
    event in this state (a closed source is silent, a cleared interval does
    not tick).  An exception that leaves a callback is dropped by the loop;
    the writes made before it stay.  [Submit] and [Resume] run a handler
    through the reply to its request, as it goes when no other callback
    comes in between; what the reply does in a later state is
    [handleSubmit_reply] and [resumeActiveJob_reply] on that state. *)
Definition step (ev : Event) (s : State) : option State :=
  match ev with
  | EsMessage src event_data =>
      match sources s !! src with
      | Some e =>
          if es_open e then Some (exec (onmessage (es_closure e) event_data) s)
          else None
      | None => None
      end
  | EsError src =>
      match sources s !! src with
      | Some e =>
          if es_open e then Some (exec (onerror (es_closure e)) s) else None
      | None => None
      end
  | TimerFires k =>
      match timeouts s !! k with
      | Some t =>
          Some (exec (connect (to_closure t))
                     (set_timeouts (delete k (timeouts s)) s))
      | None => None
      end
  | IntervalTick i =>
      match intervals s !! i with
      | Some v =>
          if iv_active v then Some (set_inflight (S (inflight s)) s) else None
      | None => None
      end
  | PollSettles r =>
      match inflight s with
      | S n => Some (exec (poll_callback r) (set_inflight n s))
      | O => None
      end
  | Submit valid r => Some (exec (handleSubmit valid r) s)
  | Resume r => Some (exec (resumeActiveJob r) s)
  | RetryClick => Some (exec resetForm s)
  end.

Fixpoint run_events (evs : list Event) (s : State) : option State :=
  match evs with
  | [] => Some s
  | ev :: evs' =>
      match step ev s with
      | Some s' => run_events evs' s'
      | None => None
      end
  end.

(** A page to run scenarios on: one stage element per name of
    [STAGE_ORDER], nothing shown yet. *)
Definition fresh_stage (name : string) : StageEl :=
  mkStageEl (JStr name) ["stage"] "Waiting".

Definition page_dom : Dom :=
  mkDom "none" "" "0%" "0%" "" (fresh_stage <$> STAGE_ORDER)
        "none" "none" "none" "" "" "" false "inline" "none".

Definition page_load (store : Storage) : State :=
  mkState store JNull None None [] [] [] [] 0%nat page_dom.

(** ** Vocabulary of the statements *)

(** How a stage element is marked: the style sheet keys on the classes
    [done] and [active]. *)
Definition marked_complete (el : StageEl) : Prop :=
  ("done" ∈ classList el) /\ ("active" ∉ classList el).
Definition marked_in_progress (el : StageEl) : Prop :=
  ("active" ∈ classList el) /\ ("done" ∉ classList el).
Definition marked_pending (el : StageEl) : Prop :=
  ("active" ∉ classList el) /\ ("done" ∉ classList el).

#[global] Instance marked_complete_dec el : Decision (marked_complete el).
Proof. unfold marked_complete. apply _. Defined.
#[global] Instance marked_in_progress_dec el : Decision (marked_in_progress el).
Proof. unfold marked_in_progress. apply _. Defined.
#[global] Instance marked_pending_dec el : Decision (marked_pending el).
Proof. unfold marked_pending. apply _. Defined.

(** The page writes of [updateProgress] that precede its completion test. *)
Definition render (d : Snapshot) (pg : Dom) : Dom :=
  let pct := js_or (progress d) (JNum 0) in
  let pg := set_progressFill_width (to_string pct +:+ "%") pg in
  let pg := set_progressText (to_string pct +:+ "%") pg in
  let pg :=
    if truthy (message d) then set_statusMessage (to_string (message d)) pg
    else pg in
  set_stages
    (update_stage (indexOf STAGE_ORDER (stage d)) (status d) <$> stages pg) pg.

(** The page writes of [finishSuccess]. *)
Definition success_page (d : Snapshot) (jobId : JsVal) (pg : Dom) : Dom :=
  let pg := set_stages (finish_stage <$> stages pg) pg in
  let pg := set_progressFill_width "100%" pg in
  let pg := set_progressText "100%" pg in
  let pg := set_resultSection_display "block" pg in
  let pg := set_resultSuccess_display "block" pg in
  let pg := set_resultError_display "none" pg in
  let pg :=
    set_resultMessage
      (to_string
         (js_or (message d) (JStr "Your video has been dubbed successfully!")))
      pg in
  let pg := set_downloadBtn_href ("/api/download/" +:+ to_string jobId) pg in
  set_submitBtn false "inline" "none" pg.

(** The page writes of [finishError]. *)
Definition error_page (d : Snapshot) (pg : Dom) : Dom :=
  let pg := set_resultSection_display "block" pg in
  let pg := set_resultSuccess_display "none" pg in
  let pg := set_resultError_display "block" pg in
  let pg :=
    set_errorMessage
      (to_string (js_or (error d) (JStr "An unknown error occurred."))) pg in
  set_submitBtn false "inline" "none" pg.

(** The objects after [if (eventSource) { eventSource.close(); ... }]. *)
Definition sources_after_close (s : State) : list EventSourceObj :=
  match eventSource s with
  | Some i => close_source i (sources s)
  | None => sources s
  end.

(** The registrations after [stopPolling()]. *)
Definition intervals_after_stop (s : State) : list Interval :=
  match pollTimer s with
  | Some i =>
      alter (fun v => mkInterval (iv_jobId v) (iv_period v) false) i
            (intervals s)
  | None => intervals s
  end.

(** ** Channels and outcomes *)

(** The push channel is stopped: the variable holds no source, no source
    is open, and no reconnection is pending. *)
Definition push_stopped (s : State) : Prop :=
  eventSource s = None /\
  (forall e, e ∈ sources s -> es_open e = false) /\
  timeouts s = [].

(** The poll channel is stopped: no timer is held and no registration is
    active. *)
Definition poll_stopped (s : State) : Prop :=
  pollTimer s = None /\ (forall v, v ∈ intervals s -> iv_active v = false).

(** The terminal outcome a page shows. *)
Inductive Outcome : Type :=
| Succeeded (text href : string)
| Failed (text : string).

Definition shown_outcome (pg : Dom) : option Outcome :=
  if bool_decide (resultSection_display pg = "block") then
    if bool_decide (resultSuccess_display pg = "block")
       && bool_decide (resultError_display pg = "none")
    then Some (Succeeded (resultMessage pg) (downloadBtn_href pg))
    else if bool_decide (resultSuccess_display pg = "none")
            && bool_decide (resultError_display pg = "block")
    then Some (Failed (errorMessage pg))
    else None
  else None.

(** The outcome a snapshot stands for, in a session watching [jobId];
    [None] for a snapshot that is not terminal. *)
Definition outcome_of (jobId : JsVal) (d : Snapshot) : option Outcome :=
  if strict_eq (status d) (JStr "complete") then
    Some (Succeeded
            (to_string
               (js_or (message d)
                      (JStr "Your video has been dubbed successfully!")))
            ("/api/download/" +:+ to_string jobId))
  else if strict_eq (status d) (JStr "error") then
    Some (Failed (to_string (js_or (error d) (JStr "An unknown error occurred."))))
  else None.

(** A channel hands a snapshot to [updateProgress]. *)
Definition deliver (s : State) (d : Snapshot) : State :=
  exec (updateProgress (JsonObj d)) s.

(** What a sequence of delivered snapshots leaves on show if every
    terminal one is applied: the outcome of the last terminal snapshot. *)
Definition latest_outcome (jobId : JsVal) (shown : option Outcome)
    (ds : list Snapshot) : option Outcome :=
  foldl (fun acc d =>
           match outcome_of jobId d with
           | Some o => Some o
           | None => acc
           end) shown ds.

(** The push channel of the [startSSE] activation [c] is stopped: none of
    its sources is open and none of its reconnections is pending. *)
Definition closure_stopped (c : nat) (s : State) : Prop :=
  Forall (fun e => es_closure e = c -> es_open e = false) (sources s) /\
  Forall (fun t => to_closure t <> c) (timeouts s).

(** The activation [c] exists and its push channel is stopped. *)
Definition retired (c : nat) (s : State) : Prop :=
  (c < length (closures s))%nat /\ closure_stopped c s.

(** The counter of the activation [c]. *)
Definition retryCount_of (c : nat) (s : State) : Z :=
  from_option retryCount 0 (closures s !! c).

(** A piece of code keeps a property of the state, whether it completes
    or throws. *)
Definition keeps (P : State -> Prop) {A} (m : M A) : Prop :=
  forall s, P s -> P (fst (m s)).

(** The activation [c], watching [jobId], has counted [n] failures and is
    connected through the source [L], the last one constructed and the
    only open one that belongs to it; [tos] are the pending timeouts. *)
Definition connected (c : nat) (jobId : JsVal) (n : Z) (L : nat)
    (tos : list Timeout) (s : State) : Prop :=
  closures s !! c = Some (mkClosure jobId n) /\
  length (sources s) = S L /\
  eventSource s = Some L /\
  sources s !! L =
    Some (mkEventSource ("/api/status/" +:+ to_string jobId) c true) /\
  (forall j e, sources s !! j = Some e -> es_closure e = c ->
               es_open e = true -> j = L) /\
  timeouts s = tos.

(** [k] rounds of: the source fails, the reconnection timer (pending at
    position [m]) fires.  The first round fails the source [src]. *)
Fixpoint reconnect_rounds (k : nat) (src m : nat) : list Event :=
  match k with
  | O => []
  | S k' => EsError src :: TimerFires m :: reconnect_rounds k' (S src) m
  end.

(** ** Scenarios *)

(** The service accepts a submission and names the job [abc123]. *)
Definition abc123_created : FetchResult :=
  Response true
    (Decoded
       (JsonObj
          (mkSnapshot (JStr "abc123") JUndefined JUndefined JUndefined
                      JUndefined JUndefined))).

(** The state after a successful submission on a working store: both
    channels are live. *)
Definition watching_abc123 : State :=
  exec (handleSubmit true abc123_created) (page_load (mkStorage false None)).

Definition queued_snapshot : Snapshot :=
  mkSnapshot (JStr "abc123") (JNum 0) JUndefined (JStr "transcribe")
             (JStr "queued") JUndefined.

Definition running_transcribe : Snapshot :=
  mkSnapshot (JStr "abc123") (JNum 25) (JStr "Transcribing")
             (JStr "transcribe") (JStr "running") JUndefined.

Definition running_render : Snapshot :=
  mkSnapshot (JStr "abc123") (JNum 80) (JStr "Rendering")
             (JStr "render") (JStr "running") JUndefined.

Definition running_no_stage : Snapshot :=
  mkSnapshot (JStr "abc123") (JNum 10) JUndefined JNull (JStr "running")
             JUndefined.

Definition complete_snapshot : Snapshot :=
  mkSnapshot (JStr "abc123") (JNum 100) (JStr "done") JUndefined
             (JStr "complete") JUndefined.

Definition error_snapshot (text : string) : Snapshot :=
  mkSnapshot (JStr "abc123") JUndefined JUndefined JUndefined (JStr "error")
             (JStr text).

(** The clamp the specification describes for the progress bar: a value
    below 0 shows as 0, a value above 100 shows as 100. *)
Definition clamp_0_100 (n : Z) : Z := Z.max 0 (Z.min 100 n).

Definition overshoot_snapshot : Snapshot :=
  mkSnapshot (JStr "abc123") (JNum 150) JUndefined (JStr "render")
             (JStr "running") JUndefined.

Definition undershoot_snapshot : Snapshot :=
  mkSnapshot (JStr "abc123") (JNum (-5)) JUndefined (JStr "download")
             (JStr "running") JUndefined.

(** A page load that finds [abc123] in the resume store. *)
Definition reload_with_abc123 : State :=
  page_load (mkStorage false (Some "abc123")).

(** A page load on a storage layer that faults. *)
Definition reload_on_faulty_store : State :=
  page_load (mkStorage true (Some "abc123")).

(** Five consecutive transport failures on the session of
    [watching_abc123], each but the last followed by the reconnection it
    scheduled. *)
Definition five_failures : list Event :=
  [EsError 0; TimerFires 0; EsError 1; TimerFires 0; EsError 2; TimerFires 0;
   EsError 3; TimerFires 0; EsError 4].

(** ** Vocabulary of the further properties *)

(** The page writes of [showProgress]. *)
Definition progress_page (jobId : JsVal) (pg : Dom) : Dom :=
  let pg := set_progressSection_display "block" pg in
  let pg := set_jobIdLabel ("Job: " +:+ to_string jobId) pg in
  let pg := set_resultSection_display "none" pg in
  let pg := set_stages (reset_stage <$> stages pg) pg in
  let pg := set_progressFill_width "0%" pg in
  set_progressText "0%" pg.

(** The body of the reply that names the job [abc123]. *)
Definition created_abc123 : Snapshot :=
  mkSnapshot (JStr "abc123") JUndefined JUndefined JUndefined JUndefined
             JUndefined.

(** The failure view with the submit button released: what [showError]
    followed by [resetSubmitBtn] leaves on the page. *)
Definition error_view (text : string) (pg : Dom) : Dom :=
  let pg := set_resultSection_display "block" pg in
  let pg := set_resultSuccess_display "none" pg in
  let pg := set_resultError_display "block" pg in
  let pg := set_errorMessage text pg in
  set_submitBtn false "inline" "none" pg.

(** No reference dangles: every source and every pending reconnection
    belongs to an existing activation, and the two variables, when set,
    refer to an existing source and an existing interval. *)
Definition well_formed (s : State) : Prop :=
  Forall (fun e => (es_closure e < length (closures s))%nat) (sources s) /\
  Forall (fun t => (to_closure t < length (closures s))%nat) (timeouts s) /\
  (forall i, eventSource s = Some i -> (i < length (sources s))%nat) /\
  (forall i, pollTimer s = Some i -> (i < length (intervals s))%nat).

(** At most one poll loop runs, and it is the one [pollTimer] holds. *)
Definition single_poll (s : State) : Prop :=
  forall i v, intervals s !! i = Some v -> iv_active v = true ->
              pollTimer s = Some i.

(** [s'] has every source and every interval of [s], at the same place and
    with the same URL, owner, job and period; what is closed or cleared in
    [s] is closed or cleared in [s']. *)
Definition grown_from (s s' : State) : Prop :=
  (forall i e, sources s !! i = Some e ->
     exists e', sources s' !! i = Some e' /\
                es_url e' = es_url e /\ es_closure e' = es_closure e /\
                (es_open e' = true -> es_open e = true)) /\
  (forall i v, intervals s !! i = Some v ->
     exists v', intervals s' !! i = Some v' /\
                iv_jobId v' = iv_jobId v /\ iv_period v' = iv_period v /\
                (iv_active v' = true -> iv_active v = true)).

(** The states the page can be in: those the event loop reaches from a
    page load. *)
Definition reachable (s : State) : Prop :=
  exists store evs, run_events evs (page_load store) = Some s.

(** ** URL validation *)

(** The regular expressions [validateUrl] needs: literal text, sequence,
    alternative and the optional group [( ... )?]. *)
Inductive Regex : Type :=
| Lit (text : string)
| Cat (r1 r2 : Regex)
| Alt (r1 r2 : Regex)
| Opt (r : Regex).

(** What is left of [s] once the literal [p] has been read off its front. *)
Fixpoint strip_prefix (p s : string) : option string :=
  match p, s with
  | EmptyString, _ => Some s
  | String a p', String b s' =>
      if Ascii.eqb a b then strip_prefix p' s' else None
  | String _ _, EmptyString => None
  end.

(** Every way [r] can match at the front of [s], as what it leaves. *)
Fixpoint rest_after (r : Regex) (s : string) : list string :=
  match r with
  | Lit p => match strip_prefix p s with Some s' => [s'] | None => [] end
  | Cat r1 r2 => s' ← rest_after r1 s; rest_after r2 s'
  | Alt r1 r2 => rest_after r1 s ++ rest_after r2 s
  | Opt r1 => rest_after r1 s ++ [s]
  end.

(** [/^r/.test(s)]: anchored at the start, free at the end. *)
Definition regex_test (r : Regex) (s : string) : bool :=
  match rest_after r s with
  | [] => false
  | _ :: _ => true
  end.

(** [/^(https?:\/\/)?(www\.)?(youtube\.com\/(watch\?v=|shorts\/)|youtu\.be\/)/] *)
Definition ytRegex : Regex :=
  Cat (Opt (Cat (Lit "http") (Cat (Opt (Lit "s")) (Lit "://"))))
      (Cat (Opt (Lit "www."))
           (Alt (Cat (Lit "youtube.com/")
                     (Alt (Lit "watch?v=") (Lit "shorts/")))
                (Lit "youtu.be/"))).

(** [validateUrl], on the trimmed content [url] of the URL field and the
    text [urlHint] of the hint under it: the new hint and the answer. *)
Definition validateUrl (url : string) (urlHint : string) : string * bool :=
  if String.eqb url "" then (urlHint, true)
  else if negb (regex_test ytRegex url) then
    ("⚠️ Please enter a valid YouTube URL", false)
  else ("", true).

(** The finitely many texts a regular expression without repetition
    matches. *)
Fixpoint words (r : Regex) : list string :=
  match r with
  | Lit p => [p]
  | Cat r1 r2 => a ← words r1; (fun b => a +:+ b) <$> words r2
  | Alt r1 r2 => words r1 ++ words r2
  | Opt r1 => words r1 ++ [""]
  end.

(** ** The language list *)

(** An entry of the list the service sends: [code] and [name] are
    strings, [native_name] may be anything, also missing. *)
Record Lang : Type := mkLang {
  lang_code : string;
  lang_name : string;
  lang_native_name : JsVal
}.

(** An [<option>] of the language select. *)
Record OptionEl : Type := mkOption {
  opt_value : string;
  opt_text : string
}.

(** What the language code keeps and writes: the variable [allLanguages]
    ([None] when it holds something that is no array), the options and the
    value of [langSelect], and the placeholder of [langSearch]. *)
Record LangUi : Type := mkLangUi {
  allLanguages : option (list Lang);
  langSelect_options : list OptionEl;
  langSelect_value : string;
  langSearch_placeholder : string
}.

(** The option [populateLanguageSelect] builds for one entry. *)
Definition option_of (lang : Lang) : OptionEl :=
  mkOption (lang_code lang)
           (if truthy (lang_native_name lang)
            then lang_name lang +:+ " — " +:+ to_string (lang_native_name lang)
            else lang_name lang).

(** [select.value = v]: the first option with that value becomes the
    selected one; with no such option nothing is selected and the value
    reads as the empty string. *)
Definition select_value (v : string) (options : list OptionEl) : string :=
  if bool_decide (v ∈ opt_value <$> options) then v else "".

Definition populateLanguageSelect (langs : option (list Lang)) (ui : LangUi)
  : LangUi * Res unit :=
  match langs with
  | None =>
      (* [innerHTML = ''] is done, then [langs.forEach] is no function *)
      (mkLangUi (allLanguages ui) [] "" (langSearch_placeholder ui),
       Throw TypeError)
  | Some l =>
      let options := option_of <$> l in
      (mkLangUi (allLanguages ui) options (select_value "es" options)
                ("Search " +:+ string_of_Z (Z.of_nat (length l))
                 +:+ " languages..."),
       Val tt)
  end.

(** [String.prototype.includes]. *)
Fixpoint includes (s sub : string) : bool :=
  match strip_prefix sub s with
  | Some _ => true
  | None =>
      match s with
      | EmptyString => false
      | String _ s' => includes s' sub
      end
  end.

Section Language_search.
(** [String.prototype.toLowerCase] and [String.prototype.trim]. *)
Variable toLowerCase : string -> string.
Variable trim : string -> string.

(** The callback of the [filter]: [||] stops at the first operand that
    holds; [x.toLowerCase()] is a TypeError unless [x] is a string. *)
Definition language_matches (query : string) (l : Lang) : Res bool :=
  if includes (toLowerCase (lang_name l)) query then Val true
  else
    match lang_native_name l with
    | JStr native =>
        if includes (toLowerCase native) query then Val true
        else Val (includes (toLowerCase (lang_code l)) query)
    | _ => Throw TypeError
    end.

(** [langs.filter(callback)], entry by entry; the first exception ends it. *)
Fixpoint filter_languages (query : string) (langs : list Lang)
  : Res (list Lang) :=
  match langs with
  | [] => Val []
  | l :: langs' =>
      match language_matches query l with
      | Throw e => Throw e
      | Val keep =>
          match filter_languages query langs' with
          | Throw e => Throw e
          | Val kept => Val (if keep then l :: kept else kept)
          end
      end
  end.

(** The [input] listener of [langSearch], on the content of the field. *)
Definition search_input (value : string) (ui : LangUi) : LangUi * Res unit :=
  let query := trim (toLowerCase value) in
  if String.eqb query "" then populateLanguageSelect (allLanguages ui) ui
  else
    match allLanguages ui with
    | None => (ui, Throw TypeError)
    | Some all =>
        match filter_languages query all with
        | Throw e => (ui, Throw e)
        | Val filtered => populateLanguageSelect (Some filtered) ui
        end
    end.
End Language_search.

(** A decoded reply of [/api/languages]: [null], or something whose
    [languages] property is an array of entries or is no array. *)
Inductive LangJson : Type :=
| LangNull
| LangObj (languages : option (list Lang)).

(** How the [fetch] of [loadLanguages] and its [res.json()] settle. *)
Inductive LangFetch : Type :=
| LangFetchRejects
| LangMalformed
| LangDecoded (data : LangJson).

Definition loadLanguages (r : LangFetch) (ui : LangUi) : LangUi * Res unit :=
  let fallback (ui : LangUi) :=
    (mkLangUi (allLanguages ui) [mkOption "es" "Spanish (Fallback)"] "es"
              (langSearch_placeholder ui), Val tt) in
  match r with
  | LangFetchRejects | LangMalformed | LangDecoded LangNull => fallback ui
  | LangDecoded (LangObj languages) =>
      let ui :=
        mkLangUi languages (langSelect_options ui) (langSelect_value ui)
                 (langSearch_placeholder ui) in
      match populateLanguageSelect languages ui with
      | (ui', Val _) => (ui', Val tt)
      | (ui', Throw _) => fallback ui'
      end
  end.

(** The script starts with [allLanguages = []]; the page is served with
    some options, value and placeholder. *)
Definition lang_ui_at_load (options : list OptionEl) (value placeholder : string)
  : LangUi :=
  mkLangUi (Some []) options value placeholder.

(** Three entries to run the language code on; the third has no native
    name. *)
Definition three_languages : list Lang :=
  [mkLang "es" "Spanish" (JStr "Español");
   mkLang "fr" "French" (JStr "Français");
   mkLang "tlh" "Klingon" JNull].

(** An entry mentions the query: in its name, or its native name, or its
    code, each lowered. *)
Definition lang_mentions (toLowerCase : string -> string) (query : string)
    (l : Lang) : bool :=
  includes (toLowerCase (lang_name l)) query
  || match lang_native_name l with
     | JStr native => includes (toLowerCase native) query
     | _ => false
     end
  || includes (toLowerCase (lang_code l)) query.

(** The state [populateLanguageSelect] leaves when it is given [shown]. *)
Definition showing (all : option (list Lang)) (shown : list Lang) : LangUi :=
  mkLangUi all (option_of <$> shown)
           (if bool_decide ("es" ∈ lang_code <$> shown) then "es" else "")
           ("Search " +:+ string_of_Z (Z.of_nat (length shown))
            +:+ " languages...").

(** The two entries of [three_languages] that have a native name. *)
Definition named_languages : list Lang :=
  [mkLang "es" "Spanish" (JStr "Español");
   mkLang "fr" "French" (JStr "Français")].

(** ** The voice toggle *)

(** A button matched by [.toggle-btn[data-gender]]. *)
Record GenderBtn : Type := mkGenderBtn {
  dataset_gender : string;
  btn_classList : list string
}.

Record GenderUi : Type := mkGenderUi {
  selectedGender : string;
  genderBtns : list GenderBtn
}.

(** The [click] listener of the button [i]; [None] when there is no such
    button. *)
Definition gender_click (i : nat) (ui : GenderUi) : option GenderUi :=
  match genderBtns ui !! i with
  | None => None
  | Some btn =>
      let off b :=
        mkGenderBtn (dataset_gender b)
                    (classList_remove "active" (btn_classList b)) in
      let on b :=
        mkGenderBtn (dataset_gender b)
                    (classList_add "active" (btn_classList b)) in
      Some (mkGenderUi (dataset_gender btn)
                       (alter on i (off <$> genderBtns ui)))
  end.

(** Every source points at the status URL of the job its activation was
    started for. *)
Definition sources_follow_job (s : State) : Prop :=
  forall i e,
    sources s !! i = Some e ->
    es_url e
    = "/api/status/" +:+
      to_string (from_option c_jobId JUndefined (closures s !! es_closure e)).

(** ** The push handle *)

(** [eventSource], when it holds a source, holds one that is open. *)
Definition handle_open (s : State) : Prop :=
  forall i, eventSource s = Some i ->
            exists e, sources s !! i = Some e /\ es_open e = true.

(** The source [i] is open and [eventSource] does not hold it: no code can
    name it any more. *)
Definition unreferenced_open (i : nat) (s : State) : Prop :=
  (exists e, sources s !! i = Some e /\ es_open e = true) /\
  eventSource s <> Some i.

(** The service accepts a second submission and names the job [xyz789]. *)
Definition xyz789_created : FetchResult :=
  Response true
    (Decoded
       (JsonObj
          (mkSnapshot (JStr "xyz789") JUndefined JUndefined JUndefined
                      JUndefined JUndefined))).

(** On the session of [watching_abc123]: the push source fails, the poll
    reports that the job failed, the user tries again at once and a new
    job is accepted; then the reconnection that the failure scheduled
    comes due. *)
Definition stale_reconnection : list Event :=
  [EsError 0;
   IntervalTick 0;
   PollSettles (Response true (Decoded (JsonObj (error_snapshot "disk full"))));
   RetryClick;
   Submit true xyz789_created;
   TimerFires 0].

(** The state these events lead to. *)
Definition after_stale_reconnection : State :=
  default watching_abc123 (run_events stale_reconnection watching_abc123).

(** ** A storage layer that faults *)

(** Nothing watches: no activation, source, timer, registration or request
    exists. *)
Definition never_watched (s : State) : Prop :=
  closures s = [] /\ sources s = [] /\ timeouts s = [] /\ intervals s = [] /\
  eventSource s = None /\ pollTimer s = None /\ inflight s = 0%nat.

(** * Properties *)

(** ** Class lists *)

Lemma elem_of_classList_remove (tok c : string) (cl : list string) :
  c ∈ classList_remove tok cl <-> c <> tok /\ c ∈ cl.
Proof. unfold classList_remove. rewrite list_elem_of_filter. reflexivity. Qed.

Lemma elem_of_classList_add (tok c : string) (cl : list string) :
  c ∈ classList_add tok cl <-> c = tok \/ c ∈ cl.
Proof.
  unfold classList_add. case_bool_decide as Hin.
  - split; [auto | intros [-> | ?]; auto].
  - rewrite elem_of_app, list_elem_of_singleton. tauto.
Qed.

(** ** What [update_stage] does to one element *)

Lemma update_stage_dataset idx st el :
  dataset_stage (update_stage idx st el) = dataset_stage el.
Proof.
  unfold update_stage.
  destruct (_ <? _); [reflexivity|]. destruct (_ && _); reflexivity.
Qed.

Lemma update_stage_before idx st el :
  indexOf STAGE_ORDER (dataset_stage el) < idx ->
  marked_complete (update_stage idx st el) /\
  stage_status (update_stage idx st el) = "Complete ✓".
Proof.
  intros Hlt. unfold update_stage, marked_complete.
  apply Z.ltb_lt in Hlt. rewrite Hlt. cbn.
  split; [|reflexivity]. split.
  - apply elem_of_classList_add. auto.
  - intros H. apply elem_of_classList_add in H as [H | H]; [discriminate|].
    apply elem_of_classList_remove in H as [_ H].
    apply elem_of_classList_remove in H as [H _]. congruence.
Qed.

Lemma update_stage_current idx el :
  indexOf STAGE_ORDER (dataset_stage el) = idx ->
  marked_in_progress (update_stage idx (JStr "running") el) /\
  stage_status (update_stage idx (JStr "running") el) = "Processing...".
Proof.
  intros Heq. unfold update_stage, marked_in_progress.
  rewrite Heq, Z.ltb_irrefl, Z.eqb_refl. cbn.
  split; [|reflexivity]. split.
  - apply elem_of_classList_add. auto.
  - intros H. apply elem_of_classList_add in H as [H | H]; [discriminate|].
    apply elem_of_classList_remove in H as [H _]. congruence.
Qed.

Lemma update_stage_pending idx st el :
  (idx < indexOf STAGE_ORDER (dataset_stage el) \/
   (idx = indexOf STAGE_ORDER (dataset_stage el) /\ st <> JStr "running")) ->
  marked_pending (update_stage idx st el) /\
  stage_status (update_stage idx st el) = stage_status el.
Proof.
  intros Hcase. unfold update_stage, marked_pending.
  assert (Hlt : (indexOf STAGE_ORDER (dataset_stage el) <? idx) = false)
    by (apply Z.ltb_ge; lia).
  rewrite Hlt.
  assert (Hnot : (indexOf STAGE_ORDER (dataset_stage el) =? idx)
                 && strict_eq st (JStr "running") = false).
  { destruct Hcase as [H | [H Hst]].
    - replace (_ =? _) with false; [reflexivity|]. symmetry. apply Z.eqb_neq. lia.
    - unfold strict_eq. rewrite bool_decide_eq_false_2 by exact Hst.
      apply andb_false_r. }
  rewrite Hnot. cbn. split; [|reflexivity].
  split; intros H.
  - apply elem_of_classList_remove in H as [_ H].
    apply elem_of_classList_remove in H as [H _]. congruence.
  - apply elem_of_classList_remove in H as [H _]. congruence.
Qed.

(** No element is ever marked in progress unless the status is [running]. *)
Lemma update_stage_not_active idx st el :
  st <> JStr "running" -> "active" ∉ classList (update_stage idx st el).
Proof.
  intros Hst. unfold update_stage.
  unfold strict_eq. rewrite (bool_decide_eq_false_2 _ Hst), andb_false_r.
  destruct (_ <? _); cbn; intros H.
  - apply elem_of_classList_add in H as [H | H]; [discriminate|].
    apply elem_of_classList_remove in H as [_ H].
    apply elem_of_classList_remove in H as [H _]. congruence.
  - apply elem_of_classList_remove in H as [_ H].
    apply elem_of_classList_remove in H as [H _]. congruence.
Qed.

(** ** Positions in [STAGE_ORDER] *)

Lemma indexOf_from_range l v i :
  indexOf_from l v i = -1 \/
  (i <= indexOf_from l v i < i + Z.of_nat (length l)).
Proof.
  revert i. induction l as [|x l IH]; intros i; cbn [indexOf_from length].
  - auto.
  - destruct (strict_eq (JStr x) v).
    + right. lia.
    + destruct (IH (i + 1)) as [H | H]; [auto | right; lia].
Qed.

Lemma indexOf_from_member l (name : string) i :
  0 <= i -> name ∈ l -> 0 <= indexOf_from l (JStr name) i.
Proof.
  revert i. induction l as [|x l IH]; intros i Hi Hin.
  - apply elem_of_nil in Hin as [].
  - cbn [indexOf_from]. unfold strict_eq. case_bool_decide as Hx; [lia|].
    apply elem_of_cons in Hin as [-> | Hin]; [congruence|].
    apply IH; [lia | exact Hin].
Qed.

Lemma indexOf_member (name : string) :
  name ∈ STAGE_ORDER -> 0 <= indexOf STAGE_ORDER (JStr name).
Proof. apply indexOf_from_member. lia. Qed.

Lemma indexOf_from_absent l v i :
  (forall name, v = JStr name -> name ∉ l) -> indexOf_from l v i = -1.
Proof.
  revert i. induction l as [|x l IH]; intros i Hv; cbn [indexOf_from].
  - reflexivity.
  - unfold strict_eq. case_bool_decide as Hx.
    + exfalso. apply (Hv x); [congruence | left].
    + apply IH. intros name Hn Hin. apply (Hv name Hn). right. exact Hin.
Qed.

Lemma indexOf_absent v :
  (forall name, v = JStr name -> name ∉ STAGE_ORDER) ->
  indexOf STAGE_ORDER v = -1.
Proof. apply indexOf_from_absent. Qed.

(** ** [updateProgress], taken apart *)

Lemma updateProgress_unfold d s :
  updateProgress (JsonObj d) s =
  (if strict_eq (status d) (JStr "complete") then finishSuccess (JsonObj d)
   else if strict_eq (status d) (JStr "error") then finishError (JsonObj d)
   else ret tt) (set_page (render d (page s)) s).
Proof.
  unfold updateProgress, render, bind, prop, ret, modify_page, modify.
  destruct (truthy (message d)); reflexivity.
Qed.

Lemma updateProgress_null s : updateProgress JsonNull s = (s, Throw TypeError).
Proof. reflexivity. Qed.

Lemma render_stages d pg :
  stages (render d pg) =
  update_stage (indexOf STAGE_ORDER (stage d)) (status d) <$> stages pg.
Proof. unfold render. destruct (truthy (message d)); reflexivity. Qed.

Lemma render_progressText d pg :
  progressText (render d pg) = to_string (js_or (progress d) (JNum 0)) +:+ "%".
Proof. unfold render. destruct (truthy (message d)); reflexivity. Qed.

Lemma render_progressFill d pg :
  progressFill_width (render d pg) =
  if style_width_accepts (to_string (js_or (progress d) (JNum 0)) +:+ "%")
  then to_string (js_or (progress d) (JNum 0)) +:+ "%"
  else progressFill_width pg.
Proof. unfold render. destruct (truthy (message d)); reflexivity. Qed.

Lemma render_result_fields d pg :
  resultSection_display (render d pg) = resultSection_display pg /\
  resultSuccess_display (render d pg) = resultSuccess_display pg /\
  resultError_display (render d pg) = resultError_display pg /\
  resultMessage (render d pg) = resultMessage pg /\
  errorMessage (render d pg) = errorMessage pg /\
  downloadBtn_href (render d pg) = downloadBtn_href pg.
Proof. unfold render. destruct (truthy (message d)); repeat split. Qed.

Lemma is_terminal_false st :
  is_terminal st = false ->
  strict_eq st (JStr "complete") = false /\ strict_eq st (JStr "error") = false.
Proof. unfold is_terminal. apply orb_false_elim. Qed.

Lemma updateProgress_nonterminal d s :
  is_terminal (status d) = false ->
  updateProgress (JsonObj d) s = (set_page (render d (page s)) s, Val tt).
Proof.
  intros [H1 H2]%is_terminal_false.
  rewrite updateProgress_unfold, H1, H2. reflexivity.
Qed.

Lemma finishSuccess_ok d s :
  ls_faulty (localStorage s) = false ->
  finishSuccess (JsonObj d) s =
  (mkState (mkStorage false None) (currentJobId s) None None (closures s)
           (sources_after_close s) (timeouts s) (intervals_after_stop s)
           (inflight s) (success_page d (currentJobId s) (page s)),
   Val tt).
Proof.
  intros Hok.
  unfold finishSuccess, close_eventSource_if_open, stopPolling,
    localStorage_removeItem, eventSource_close, clearInterval, resetSubmitBtn,
    sources_after_close, intervals_after_stop, success_page,
    bind, prop, ret, get, modify_page, modify.
  destruct s as [ls cj es pt cls srcs tos ivs inf pg]; cbn in *.
  destruct es, pt; cbn; rewrite Hok; reflexivity.
Qed.

Lemma finishError_ok d s :
  ls_faulty (localStorage s) = false ->
  finishError (JsonObj d) s =
  (mkState (mkStorage false None) (currentJobId s) None (pollTimer s)
           (closures s) (sources_after_close s) (timeouts s) (intervals s)
           (inflight s) (error_page d (page s)),
   Val tt).
Proof.
  intros Hok.
  unfold finishError, close_eventSource_if_open,
    localStorage_removeItem, eventSource_close, resetSubmitBtn,
    sources_after_close, error_page,
    bind, prop, ret, get, modify_page, modify.
  destruct s as [ls cj es pt cls srcs tos ivs inf pg]; cbn in *.
  rewrite Hok. destruct es; reflexivity.
Qed.

Lemma finishSuccess_faulty d s :
  ls_faulty (localStorage s) = true ->
  finishSuccess (JsonObj d) s =
  (set_intervals (intervals_after_stop s)
     (set_sources (sources_after_close s)
        (set_pollTimer None (set_eventSource None s))),
   Throw StorageError).
Proof.
  intros Hbad.
  unfold finishSuccess, close_eventSource_if_open, stopPolling,
    localStorage_removeItem, eventSource_close, clearInterval,
    sources_after_close, intervals_after_stop,
    bind, prop, ret, get, throw, modify_page, modify.
  destruct s as [ls cj es pt cls srcs tos ivs inf pg]; cbn in *.
  destruct es, pt; cbn; rewrite Hbad; reflexivity.
Qed.

Lemma finishError_faulty d s :
  ls_faulty (localStorage s) = true ->
  finishError d s = (s, Throw StorageError).
Proof.
  intros Hbad.
  unfold finishError, localStorage_removeItem, bind, get, throw.
  rewrite Hbad. reflexivity.
Qed.

(** ** Stage display *)

Lemma page_set_page x s : page (set_page x s) = x.
Proof. reflexivity. Qed.

Lemma updateProgress_stage_lookup d s i el :
  is_terminal (status d) = false ->
  stages (page s) !! i = Some el ->
  stages (page (exec (updateProgress (JsonObj d)) s)) !! i =
  Some (update_stage (indexOf STAGE_ORDER (stage d)) (status d) el).
Proof.
  intros Hnt Hel. unfold exec.
  rewrite (updateProgress_nonterminal _ _ Hnt). cbn [fst].
  rewrite page_set_page, render_stages, list_lookup_fmap, Hel. reflexivity.
Qed.

Lemma indexOf_STAGE_ORDER (k : nat) (name : string) :
  STAGE_ORDER !! k = Some name ->
  indexOf STAGE_ORDER (JStr name) = Z.of_nat k.
Proof.
  intros Hk.
  do 7 (destruct k as [|k]; [injection Hk as <-; reflexivity|]).
  discriminate Hk.
Qed.

(** The marks [updateProgress] puts on the stage elements follow the place
    of the stage names in the fixed sequence.  Under a [running] snapshot
    whose stage is the [j]-th name, the element of the [k]-th name is
    marked complete and labelled so when [k] is before [j], marked in
    progress and labelled so when [k] is [j], and carries neither class
    when [k] is after [j]; in this last case its label is not written and
    reads what it read before. *)
Theorem stage_marks_by_position
    (s : State) (d : Snapshot) (S name : string) (j k i : nat) (el : StageEl) :
  status d = JStr "running" ->
  stage d = JStr S ->
  STAGE_ORDER !! j = Some S ->
  stages (page s) !! i = Some el ->
  dataset_stage el = JStr name ->
  STAGE_ORDER !! k = Some name ->
  exists el',
    stages (page (deliver s d)) !! i = Some el' /\
    dataset_stage el' = JStr name /\
    ((k < j)%nat -> marked_complete el' /\ stage_status el' = "Complete ✓") /\
    (k = j -> marked_in_progress el' /\ stage_status el' = "Processing...") /\
    ((j < k)%nat -> marked_pending el' /\ stage_status el' = stage_status el).
Proof.
  intros Hst Hstage HS Hel Hname Hk.
  assert (Hnt : is_terminal (status d) = false) by (rewrite Hst; reflexivity).
  pose proof (indexOf_STAGE_ORDER _ _ HS) as Hj.
  pose proof (indexOf_STAGE_ORDER _ _ Hk) as Hkk.
  eexists. split; [apply (updateProgress_stage_lookup _ _ _ _ Hnt Hel)|].
  rewrite Hst, Hstage, Hj.
  split; [rewrite update_stage_dataset; exact Hname|].
  split; [|split].
  - intros Hlt. apply update_stage_before. rewrite Hname, Hkk. lia.
  - intros ->. apply update_stage_current. rewrite Hname, Hkk. reflexivity.
  - intros Hlt. apply update_stage_pending. left. rewrite Hname, Hkk. lia.
Qed.

Lemma stage_marks_by_position_witness :
  exists e0 e1 e5,
    stages (page (foldl deliver watching_abc123
                        [running_render; running_transcribe])) !! 0%nat
    = Some e0 /\
    stages (page (foldl deliver watching_abc123
                        [running_render; running_transcribe])) !! 1%nat
    = Some e1 /\
    stages (page (foldl deliver watching_abc123
                        [running_render; running_transcribe])) !! 5%nat
    = Some e5 /\
    marked_complete e0 /\ marked_in_progress e1 /\ marked_pending e5 /\
    stage_status e5 = "Processing...".
Proof.
  destruct (stage_marks_by_position
              (deliver watching_abc123 running_render) running_transcribe
              "transcribe" "download" 1 0 0
              (mkStageEl (JStr "download") ["stage"; "done"] "Complete ✓")
              eq_refl eq_refl eq_refl eq_refl eq_refl eq_refl)
    as (e0 & H0 & _ & Hbefore & _).
  destruct (stage_marks_by_position
              (deliver watching_abc123 running_render) running_transcribe
              "transcribe" "transcribe" 1 1 1
              (mkStageEl (JStr "transcribe") ["stage"; "done"] "Complete ✓")
              eq_refl eq_refl eq_refl eq_refl eq_refl eq_refl)
    as (e1 & H1 & _ & _ & Hat & _).
  destruct (stage_marks_by_position
              (deliver watching_abc123 running_render) running_transcribe
              "transcribe" "render" 1 5 5
              (mkStageEl (JStr "render") ["stage"; "active"] "Processing...")
              eq_refl eq_refl eq_refl eq_refl eq_refl eq_refl)
    as (e5 & H5 & _ & _ & _ & Hafter).
  exists e0, e1, e5.
  split; [exact H0|]. split; [exact H1|]. split; [exact H5|].
  split; [apply Hbefore; lia|]. split; [apply Hat; reflexivity|].
  destruct Hafter as [Hp Hlabel]; [lia|].
  split; [exact Hp | exact Hlabel].
Defined.

(** Only a [running] snapshot marks a stage in progress: after a snapshot
    with any other status, [queued] for one, whatever its stage and
    whatever the page showed, no stage element carries the class
    [active].  This says nothing of the labels. *)
Theorem no_stage_active_unless_running
    (s : State) (d : Snapshot) (el' : StageEl) :
  status d <> JStr "running" ->
  el' ∈ stages (page (deliver s d)) ->
  "active" ∉ classList el'.
Proof.
  intros Hst Hin. unfold deliver, exec in Hin.
  rewrite updateProgress_unfold in Hin.
  assert (Hrender : forall el0,
             el0 ∈ stages (render d (page s)) -> "active" ∉ classList el0).
  { intros el0 H0. rewrite render_stages in H0.
    apply list_elem_of_fmap in H0 as (el & -> & _).
    apply update_stage_not_active, Hst. }
  destruct (strict_eq (status d) (JStr "complete")).
  - destruct (ls_faulty (localStorage s)) eqn:Hf.
    + rewrite finishSuccess_faulty in Hin by exact Hf. exact (Hrender _ Hin).
    + rewrite finishSuccess_ok in Hin by exact Hf.
      change (el' ∈ finish_stage <$> stages (render d (page s))) in Hin.
      apply list_elem_of_fmap in Hin as (el & -> & _).
      unfold finish_stage. cbn. intros H.
      apply elem_of_classList_add in H as [H | H]; [discriminate|].
      apply elem_of_classList_remove in H as [H _]. congruence.
  - destruct (strict_eq (status d) (JStr "error")).
    + destruct (ls_faulty (localStorage s)) eqn:Hf.
      * rewrite finishError_faulty in Hin by exact Hf. exact (Hrender _ Hin).
      * rewrite finishError_ok in Hin by exact Hf. exact (Hrender _ Hin).
    + exact (Hrender _ Hin).
Qed.

Lemma no_stage_active_unless_running_witness :
  "active" ∉ classList
     (update_stage 1 (JStr "queued")
        (update_stage 1 (JStr "running") (fresh_stage "transcribe"))).
Proof.
  apply (no_stage_active_unless_running
           (deliver watching_abc123 running_transcribe) queued_snapshot).
  - discriminate.
  - apply (list_elem_of_lookup_2 _ 1%nat). reflexivity.
Defined.

(** A snapshot that is not terminal and whose stage is absent, null or
    none of the seven names has no place in the sequence: [indexOf] gives
    -1.  A stage element that bears one of the seven names then carries
    neither class, whatever the status, and its label is not written.  A
    stage element whose own [data-stage] is none of the seven names has
    the place -1 as well, so a [running] snapshot marks it in progress. *)
Theorem unknown_stage_marks
    (s : State) (d : Snapshot) (i : nat) (el : StageEl) :
  is_terminal (status d) = false ->
  (forall S, stage d = JStr S -> S ∉ STAGE_ORDER) ->
  stages (page s) !! i = Some el ->
  exists el',
    stages (page (deliver s d)) !! i = Some el' /\
    dataset_stage el' = dataset_stage el /\
    (forall name,
        dataset_stage el = JStr name -> name ∈ STAGE_ORDER ->
        marked_pending el' /\ stage_status el' = stage_status el) /\
    ((forall name, dataset_stage el = JStr name -> name ∉ STAGE_ORDER) ->
     status d = JStr "running" ->
     marked_in_progress el' /\ stage_status el' = "Processing...").
Proof.
  intros Hnt Hstage Hel.
  eexists. split; [apply (updateProgress_stage_lookup _ _ _ _ Hnt Hel)|].
  rewrite (indexOf_absent _ Hstage).
  split; [apply update_stage_dataset|]. split.
  - intros name Hname Hmem. apply update_stage_pending. left.
    rewrite Hname. pose proof (indexOf_member _ Hmem). lia.
  - intros Hother Hrun. rewrite Hrun. apply update_stage_current.
    apply indexOf_absent, Hother.
Qed.

Lemma unknown_stage_marks_witness :
  (exists el',
      stages (page (foldl deliver watching_abc123
                          [running_render; running_no_stage])) !! 5%nat
      = Some el' /\
      marked_pending el' /\ stage_status el' = "Processing...") /\
  (exists el',
      stages (page (deliver
                      (set_page
                         (set_stages [mkStageEl (JStr "upload") ["stage"]
                                                "Waiting"] page_dom)
                         watching_abc123)
                      running_no_stage)) !! 0%nat
      = Some el' /\
      marked_in_progress el').
Proof.
  split.
  - destruct (unknown_stage_marks
                (deliver watching_abc123 running_render) running_no_stage 5
                (mkStageEl (JStr "render") ["stage"; "active"] "Processing..."))
      as (el' & Hel & _ & Hnamed & _).
    + reflexivity.
    + intros S HS. discriminate HS.
    + reflexivity.
    + exists el'. split; [exact Hel|].
      apply (Hnamed "render"); [reflexivity | compute_done].
  - destruct (unknown_stage_marks
                (set_page
                   (set_stages [mkStageEl (JStr "upload") ["stage"] "Waiting"]
                               page_dom)
                   watching_abc123)
                running_no_stage 0
                (mkStageEl (JStr "upload") ["stage"] "Waiting"))
      as (el' & Hel & _ & _ & Hother).
    + reflexivity.
    + intros S HS. discriminate HS.
    + reflexivity.
    + exists el'. split; [exact Hel|].
      apply Hother; [|reflexivity].
      intros name [= <-]. compute_done.
Defined.

(** *** Labels that are left behind *)

(** [updateProgress] takes both classes off every stage element but writes
    a label only where it sets a class again; [showProgress] is the one
    place that puts the label back to "Waiting".  The three statements
    that follow run [updateProgress] on a page that an earlier snapshot of
    the same session has written. *)

(** C4.  After a [running] snapshot at [render], a [running] snapshot at
    [transcribe] (a late poll reply after a fresher push message): the
    stages after [transcribe] carry neither class, yet [chunk],
    [translate] and [tts] still read "Complete" and [render] still reads
    "Processing...". *)
Theorem C4_labels_left_after_stage :
  stages (page (foldl deliver watching_abc123
                      [running_render; running_transcribe]))
  = [mkStageEl (JStr "download") ["stage"; "done"] "Complete ✓";
     mkStageEl (JStr "transcribe") ["stage"; "active"] "Processing...";
     mkStageEl (JStr "chunk") ["stage"] "Complete ✓";
     mkStageEl (JStr "translate") ["stage"] "Complete ✓";
     mkStageEl (JStr "tts") ["stage"] "Complete ✓";
     mkStageEl (JStr "render") ["stage"] "Processing...";
     mkStageEl (JStr "done") ["stage"] "Waiting"].
Proof. vm_compute. reflexivity. Qed.

(** C5.  After a [running] snapshot at [transcribe], a [queued] snapshot:
    no element carries the class [active], yet [transcribe] still reads
    "Processing...". *)
Theorem C5_label_left_in_progress :
  stages (page (foldl deliver watching_abc123
                      [running_transcribe; queued_snapshot]))
  = [mkStageEl (JStr "download") ["stage"; "done"] "Complete ✓";
     mkStageEl (JStr "transcribe") ["stage"] "Processing...";
     mkStageEl (JStr "chunk") ["stage"] "Waiting";
     mkStageEl (JStr "translate") ["stage"] "Waiting";
     mkStageEl (JStr "tts") ["stage"] "Waiting";
     mkStageEl (JStr "render") ["stage"] "Waiting";
     mkStageEl (JStr "done") ["stage"] "Waiting"].
Proof. vm_compute. reflexivity. Qed.

(** C10.  After a [running] snapshot at [render], a [running] snapshot
    with no stage: no element carries a class, yet the first five stages
    still read "Complete" and [render] still reads "Processing...". *)
Theorem C10_labels_left_on_unknown_stage :
  stages (page (foldl deliver watching_abc123
                      [running_render; running_no_stage]))
  = [mkStageEl (JStr "download") ["stage"] "Complete ✓";
     mkStageEl (JStr "transcribe") ["stage"] "Complete ✓";
     mkStageEl (JStr "chunk") ["stage"] "Complete ✓";
     mkStageEl (JStr "translate") ["stage"] "Complete ✓";
     mkStageEl (JStr "tts") ["stage"] "Complete ✓";
     mkStageEl (JStr "render") ["stage"] "Processing...";
     mkStageEl (JStr "done") ["stage"] "Waiting"].
Proof. vm_compute. reflexivity. Qed.

(** ** Progress bar *)

(** *** Integers as text *)

(** The integers JavaScript calls safe: those below 2^53 in absolute
    value.  They are numbers as they stand and print in plain decimal. *)
Lemma number_to_string_safe (p : Z) :
  Z.abs p < 2 ^ 53 -> number_to_string p = string_of_Z p.
Proof.
  intros Hp.
  assert (Hbig : 2 ^ 53 < 2 ^ 1024) by (apply Z.pow_lt_mono_r; lia).
  assert (Hten : 2 ^ 53 < 10 ^ 21) by reflexivity.
  unfold number_to_string, round_to_double.
  rewrite (proj2 (Z.ltb_lt _ _) Hp).
  destruct p as [|q|q]; [reflexivity | |].
  - change (Z.pos q =? 0) with false. change (Z.pos q <? 0) with false.
    cbv iota. unfold positive_to_string, shortest_decimal.
    rewrite (proj2 (Z.leb_gt _ _)) by lia.
    rewrite (proj2 (Z.ltb_lt (Z.pos q) (2 ^ 53))) by lia.
    rewrite (proj2 (Z.ltb_lt (Z.pos q) (10 ^ 21))) by lia.
    reflexivity.
  - change (Z.neg q =? 0) with false. change (Z.neg q <? 0) with true.
    cbv iota. change (- Z.neg q) with (Z.pos q).
    unfold positive_to_string, shortest_decimal.
    rewrite (proj2 (Z.leb_gt _ _)) by lia.
    rewrite (proj2 (Z.ltb_lt (Z.pos q) (2 ^ 53))) by lia.
    rewrite (proj2 (Z.ltb_lt (Z.pos q) (10 ^ 21))) by lia.
    reflexivity.
Qed.

Lemma append_cons c (a b : string) : String c a +:+ b = String c (a +:+ b).
Proof. reflexivity. Qed.

Lemma take_digits_uint d :
  take_digits (NilEmpty.string_of_uint d +:+ "%")
  = (NilEmpty.string_of_uint d, "%").
Proof.
  induction d; cbn [NilEmpty.string_of_uint];
    rewrite ?append_cons; cbn [take_digits is_digit];
    rewrite ?IHd; reflexivity.
Qed.

Lemma all_zero_uint d :
  all_zero (NilEmpty.string_of_uint d) = true -> Pos.of_uint d = 0%N.
Proof.
  induction d; cbn [NilEmpty.string_of_uint all_zero Pos.of_uint];
    first [reflexivity | exact IHd | discriminate].
Qed.

Lemma is_digit_plain c :
  is_digit c = true ->
  is_css_space c = false /\
  (forall s, css_sign (String c s) = (false, String c s)).
Proof.
  destruct c as [[|] [|] [|] [|] [|] [|] [|] [|]];
    intros H; first [discriminate H | split; [reflexivity | intros s; reflexivity]].
Qed.

Lemma string_of_uint_head d :
  d <> Decimal.Nil ->
  exists c s, NilEmpty.string_of_uint d = String c s /\ is_digit c = true.
Proof.
  destruct d; intros Hd; [congruence | ..];
    cbn [NilEmpty.string_of_uint]; eexists _, _; split; reflexivity.
Qed.

(** The digits of a positive integer, followed by [%], are a width; with
    a minus sign in front they are not. *)
Lemma style_width_accepts_digits q :
  style_width_accepts (NilEmpty.string_of_uint (Pos.to_uint q) +:+ "%") = true /\
  style_width_accepts
    (String "-" (NilEmpty.string_of_uint (Pos.to_uint q)) +:+ "%") = false.
Proof.
  pose proof (DecimalPos.Unsigned.to_uint_nonnil q) as Hnil.
  pose proof (take_digits_uint (Pos.to_uint q)) as Htake.
  assert (Hnz : all_zero (NilEmpty.string_of_uint (Pos.to_uint q)) = false).
  { destruct (all_zero _) eqn:Hz; [|reflexivity].
    apply all_zero_uint in Hz. rewrite DecimalPos.Unsigned.of_to in Hz. discriminate. }
  destruct (string_of_uint_head _ Hnil) as (c & s & Hs & Hc).
  destruct (is_digit_plain c Hc) as [Hsp Hsign].
  rewrite Hs in *. split.
  - unfold style_width_accepts. rewrite append_cons.
    cbn [skip_css_space]. rewrite Hsp, Hsign, <- append_cons, Htake.
    reflexivity.
  - unfold style_width_accepts. rewrite !append_cons.
    cbn [skip_css_space is_css_space css_sign].
    rewrite <- append_cons, Htake. cbn [css_fraction css_exponent].
    rewrite Hnz. reflexivity.
Qed.

Lemma nilzero_of_pos q :
  NilZero.string_of_uint (Pos.to_uint q)
  = NilEmpty.string_of_uint (Pos.to_uint q).
Proof.
  pose proof (DecimalPos.Unsigned.to_uint_nonnil q) as Hnil.
  unfold NilZero.string_of_uint. destruct (Pos.to_uint q); congruence.
Qed.

Lemma style_width_accepts_integer (p : Z) :
  style_width_accepts (string_of_Z p +:+ "%") = (0 <=? p).
Proof.
  destruct p as [|q|q].
  - reflexivity.
  - unfold string_of_Z. cbn [Z.to_int NilZero.string_of_int].
    rewrite nilzero_of_pos. apply style_width_accepts_digits.
  - unfold string_of_Z. cbn [Z.to_int NilZero.string_of_int].
    rewrite nilzero_of_pos. apply style_width_accepts_digits.
Qed.

(** *** What a snapshot writes to the bar *)

Lemma updateProgress_error_page d s :
  status d = JStr "error" ->
  page (exec (updateProgress (JsonObj d)) s) =
  if ls_faulty (localStorage s) then render d (page s)
  else error_page d (render d (page s)).
Proof.
  intros Hst. unfold exec. rewrite updateProgress_unfold, Hst.
  change (strict_eq (JStr "error") (JStr "complete")) with false.
  change (strict_eq (JStr "error") (JStr "error")) with true. cbv iota.
  destruct (ls_faulty (localStorage s)) eqn:Hf.
  - rewrite finishError_faulty by exact Hf. reflexivity.
  - rewrite finishError_ok by exact Hf. reflexivity.
Qed.

Lemma updateProgress_progress d s :
  status d <> JStr "complete" ->
  progressText (page (exec (updateProgress (JsonObj d)) s)) =
    to_string (js_or (progress d) (JNum 0)) +:+ "%" /\
  progressFill_width (page (exec (updateProgress (JsonObj d)) s)) =
    if style_width_accepts (to_string (js_or (progress d) (JNum 0)) +:+ "%")
    then to_string (js_or (progress d) (JNum 0)) +:+ "%"
    else progressFill_width (page s).
Proof.
  intros Hnc.
  destruct (decide (status d = JStr "error")) as [He | He].
  - rewrite (updateProgress_error_page _ _ He).
    destruct (ls_faulty (localStorage s)).
    + split; [apply render_progressText | apply render_progressFill].
    + change (progressText (error_page d (render d (page s))))
        with (progressText (render d (page s))).
      change (progressFill_width (error_page d (render d (page s))))
        with (progressFill_width (render d (page s))).
      split; [apply render_progressText | apply render_progressFill].
  - unfold exec. rewrite updateProgress_nonterminal.
    + cbn [fst]. rewrite page_set_page.
      split; [apply render_progressText | apply render_progressFill].
    + unfold is_terminal, strict_eq.
      rewrite !bool_decide_eq_false_2 by assumption. reflexivity.
Qed.

(** C6, as the specification words it, fails: a progress of 150 is shown
    as "150%", which is not the clamped "100%"; a progress of -5 is shown
    as "-5%", which is not the clamped "0%". *)
Lemma C6_counterexample :
  progressText (page (exec (updateProgress (JsonObj overshoot_snapshot))
                           watching_abc123)) = "150%" /\
  progressText (page (exec (updateProgress (JsonObj overshoot_snapshot))
                           watching_abc123))
    <> string_of_Z (clamp_0_100 150) +:+ "%" /\
  progressText (page (exec (updateProgress (JsonObj undershoot_snapshot))
                           watching_abc123))
    <> string_of_Z (clamp_0_100 (-5)) +:+ "%".
Proof. vm_compute. repeat split; discriminate. Qed.

(** C6, amended.  For a snapshot whose status is not [complete], the
    percentage text is the snapshot's progress as it came, followed by "%"
    (0 when the progress is absent or falsy): nothing is clamped, smoothed
    or interpolated.  For a progress that is a safe integer [p] the text is
    the decimal of [p]; the width of the bar becomes that same text when
    [p] is not negative, above 100 too, and stays what it was when [p] is
    negative, a negative percentage being no width.  Within 0..100 text
    and width are also the clamped value. *)
Theorem C6_progress_bar_as_received (s : State) (d : Snapshot) :
  status d <> JStr "complete" ->
  progressText (page (exec (updateProgress (JsonObj d)) s)) =
    to_string (js_or (progress d) (JNum 0)) +:+ "%" /\
  (forall p : Z,
      progress d = JNum p -> Z.abs p < 2 ^ 53 ->
      progressText (page (exec (updateProgress (JsonObj d)) s)) =
        string_of_Z p +:+ "%" /\
      (0 <= p ->
       progressFill_width (page (exec (updateProgress (JsonObj d)) s)) =
         string_of_Z p +:+ "%") /\
      (p < 0 ->
       progressFill_width (page (exec (updateProgress (JsonObj d)) s)) =
         progressFill_width (page s)) /\
      (0 <= p <= 100 ->
       progressText (page (exec (updateProgress (JsonObj d)) s)) =
         string_of_Z (clamp_0_100 p) +:+ "%" /\
       progressFill_width (page (exec (updateProgress (JsonObj d)) s)) =
         string_of_Z (clamp_0_100 p) +:+ "%")).
Proof.
  intros Hnc. destruct (updateProgress_progress d s Hnc) as [Ht Hw].
  split; [exact Ht|]. intros p Hp Hsafe.
  assert (Hnum : to_string (js_or (progress d) (JNum 0)) = string_of_Z p).
  { rewrite Hp. unfold js_or, truthy.
    destruct (Z.eqb_spec p 0) as [-> | _]; [reflexivity|].
    apply number_to_string_safe, Hsafe. }
  rewrite Hnum in Ht, Hw. rewrite style_width_accepts_integer in Hw.
  split; [exact Ht|]. split; [|split].
  - intros Hpos. rewrite Hw, (proj2 (Z.leb_le 0 p) Hpos). reflexivity.
  - intros Hneg. rewrite Hw, (proj2 (Z.leb_gt 0 p) Hneg). reflexivity.
  - intros Hrange.
    assert (Hclamp : clamp_0_100 p = p)
      by (unfold clamp_0_100; rewrite Z.min_r, Z.max_r by lia; reflexivity).
    rewrite Hclamp, Ht, Hw, (proj2 (Z.leb_le 0 p) (proj1 Hrange)).
    split; reflexivity.
Qed.

Lemma C6_progress_bar_as_received_witness :
  progressText (page (exec (updateProgress (JsonObj undershoot_snapshot))
                           watching_abc123)) = "-5%" /\
  progressFill_width
    (page (exec (updateProgress (JsonObj undershoot_snapshot))
                watching_abc123)) = "0%".
Proof.
  destruct (C6_progress_bar_as_received watching_abc123 undershoot_snapshot)
    as [_ Hnum].
  - discriminate.
  - destruct (Hnum (-5)) as (Htext & _ & Hwidth & _).
    + reflexivity.
    + reflexivity.
    + split; [exact Htext|]. rewrite Hwidth by lia. reflexivity.
Defined.

(** ** Terminal outcomes *)

Lemma finish_stage_complete el :
  dataset_stage (finish_stage el) = dataset_stage el /\
  marked_complete (finish_stage el) /\
  stage_status (finish_stage el) = "Complete ✓".
Proof.
  unfold finish_stage, marked_complete. cbn.
  split; [reflexivity|]. split; [|reflexivity]. split.
  - apply elem_of_classList_add. auto.
  - intros H. apply elem_of_classList_add in H as [H | H]; [discriminate|].
    apply elem_of_classList_remove in H as [H _]. congruence.
Qed.

Lemma updateProgress_complete d s :
  status d = JStr "complete" ->
  ls_faulty (localStorage s) = false ->
  updateProgress (JsonObj d) s =
  (mkState (mkStorage false None) (currentJobId s) None None (closures s)
           (sources_after_close s) (timeouts s) (intervals_after_stop s)
           (inflight s)
           (success_page d (currentJobId s) (render d (page s))),
   Val tt).
Proof.
  intros Hst Hok. rewrite updateProgress_unfold, Hst.
  change (strict_eq (JStr "complete") (JStr "complete")) with true. cbv iota.
  rewrite finishSuccess_ok by exact Hok. reflexivity.
Qed.

Lemma updateProgress_error d s :
  status d = JStr "error" ->
  ls_faulty (localStorage s) = false ->
  updateProgress (JsonObj d) s =
  (mkState (mkStorage false None) (currentJobId s) None (pollTimer s)
           (closures s) (sources_after_close s) (timeouts s) (intervals s)
           (inflight s) (error_page d (render d (page s))),
   Val tt).
Proof.
  intros Hst Hok. rewrite updateProgress_unfold, Hst.
  change (strict_eq (JStr "error") (JStr "complete")) with false.
  change (strict_eq (JStr "error") (JStr "error")) with true. cbv iota.
  rewrite finishError_ok by exact Hok. reflexivity.
Qed.

(** C7.  On a working store, a snapshot with status [complete] yields the
    success outcome: [updateProgress] completes, every stage element is
    marked complete, the bar reads 100%, the success panel is shown and the
    download link is [/api/download/] followed by the session's job id.  A
    snapshot with status [error] yields the failure outcome: the error
    panel is shown with the snapshot's error text (a fixed text when the
    snapshot carries none). *)
Theorem C7_terminal_outcomes (s : State) (d : Snapshot) :
  ls_faulty (localStorage s) = false ->
  (status d = JStr "complete" ->
   result (updateProgress (JsonObj d)) s = Val tt /\
   (forall i el,
       stages (page s) !! i = Some el ->
       exists el',
         stages (page (exec (updateProgress (JsonObj d)) s)) !! i = Some el' /\
         dataset_stage el' = dataset_stage el /\
         marked_complete el' /\ stage_status el' = "Complete ✓") /\
   progressFill_width (page (exec (updateProgress (JsonObj d)) s)) = "100%" /\
   progressText (page (exec (updateProgress (JsonObj d)) s)) = "100%" /\
   downloadBtn_href (page (exec (updateProgress (JsonObj d)) s)) =
     "/api/download/" +:+ to_string (currentJobId s) /\
   resultSection_display (page (exec (updateProgress (JsonObj d)) s)) = "block" /\
   resultSuccess_display (page (exec (updateProgress (JsonObj d)) s)) = "block" /\
   resultError_display (page (exec (updateProgress (JsonObj d)) s)) = "none") /\
  (status d = JStr "error" ->
   result (updateProgress (JsonObj d)) s = Val tt /\
   resultSection_display (page (exec (updateProgress (JsonObj d)) s)) = "block" /\
   resultSuccess_display (page (exec (updateProgress (JsonObj d)) s)) = "none" /\
   resultError_display (page (exec (updateProgress (JsonObj d)) s)) = "block" /\
   errorMessage (page (exec (updateProgress (JsonObj d)) s)) =
     to_string (js_or (error d) (JStr "An unknown error occurred.")) /\
   (forall text : string,
       error d = JStr text -> text <> "" ->
       errorMessage (page (exec (updateProgress (JsonObj d)) s)) = text)).
Proof.
  intros Hok. split; intros Hst; unfold result, exec.
  - rewrite (updateProgress_complete _ _ Hst Hok). cbn [fst snd page].
    split; [reflexivity|]. split; [|repeat split].
    intros i el Hel.
    exists (finish_stage
              (update_stage (indexOf STAGE_ORDER (stage d)) (status d) el)).
    split.
    + change (stages (success_page d (currentJobId s) (render d (page s))))
        with (finish_stage <$> stages (render d (page s))).
      rewrite render_stages, !list_lookup_fmap, Hel. reflexivity.
    + destruct (finish_stage_complete
                  (update_stage (indexOf STAGE_ORDER (stage d)) (status d) el))
        as (Hds & Hmark & Hlabel).
      rewrite Hds, update_stage_dataset. auto.
  - rewrite (updateProgress_error _ _ Hst Hok). cbn [fst snd page].
    repeat split.
    intros text Htext Hne.
    change (errorMessage (error_page d (render d (page s))))
      with (to_string (js_or (error d) (JStr "An unknown error occurred."))).
    rewrite Htext. unfold js_or, truthy.
    destruct (String.eqb_spec text "") as [-> | _]; [congruence | reflexivity].
Qed.

Lemma C7_terminal_outcomes_witness :
  downloadBtn_href
    (page (exec (updateProgress (JsonObj complete_snapshot)) watching_abc123))
    = "/api/download/abc123" /\
  errorMessage
    (page (exec (updateProgress (JsonObj (error_snapshot "disk full")))
                watching_abc123))
    = "disk full".
Proof.
  split.
  - destruct (C7_terminal_outcomes watching_abc123 complete_snapshot)
      as [Hdone _]; [reflexivity|].
    destruct Hdone as (_ & _ & _ & _ & Href & _); [reflexivity|].
    exact Href.
  - destruct (C7_terminal_outcomes watching_abc123 (error_snapshot "disk full"))
      as [_ Herr]; [reflexivity|].
    destruct Herr as (_ & _ & _ & _ & _ & Htext); [reflexivity|].
    apply Htext; [reflexivity | discriminate].
Defined.

(** ** Resume *)

(** C8, as the specification words it, fails: with [abc123] persisted, a
    rejected [fetch] and a non-success response both leave the resume
    store empty. *)
Lemma C8_counterexample :
  ls_item (localStorage reload_with_abc123) = Some "abc123" /\
  ls_item (localStorage (exec (resumeActiveJob FetchRejects)
                              reload_with_abc123)) = None /\
  ls_item (localStorage
             (exec (resumeActiveJob
                      (Response false (Decoded (JsonObj complete_snapshot))))
                   reload_with_abc123)) = None.
Proof. vm_compute. repeat split. Qed.

(** C8, amended.  A resume attempt with a persisted job id whose state
    query fails with a transport error (the [fetch] rejects, or the
    response is not a success) clears the persisted id; it changes nothing
    else (no channel is started, the page is untouched) and raises no
    exception. *)
Theorem C8_resume_transport_error_clears_store
    (s : State) (id : string) (r : FetchResult) :
  ls_faulty (localStorage s) = false ->
  ls_item (localStorage s) = Some id ->
  id <> "" ->
  (r = FetchRejects \/ exists body, r = Response false body) ->
  resumeActiveJob r s = (set_localStorage (mkStorage false None) s, Val tt) /\
  ls_item (localStorage (exec (resumeActiveJob r) s)) = None.
Proof.
  intros Hok Hid Hne Hr.
  assert (Htruthy : truthy (JStr id) = true).
  { cbn. destruct (String.eqb_spec id "") as [-> | _]; [congruence | reflexivity]. }
  assert (Hrun : resumeActiveJob r s =
                 (set_localStorage (mkStorage false None) s, Val tt)).
  { unfold resumeActiveJob, resumeActiveJob_reply, localStorage_getItem, localStorage_removeItem,
      try_catch, await_fetch, bind, get, ret, throw, modify.
    rewrite Hok, Hid, Htruthy. cbn [negb].
    destruct Hr as [-> | [body ->]]; cbn; rewrite Hok; reflexivity. }
  split; [exact Hrun|]. unfold exec. rewrite Hrun. reflexivity.
Qed.

Lemma C8_resume_transport_error_clears_store_witness :
  ls_item (localStorage (exec (resumeActiveJob FetchRejects)
                              reload_with_abc123)) = None.
Proof.
  apply (C8_resume_transport_error_clears_store reload_with_abc123 "abc123"
           FetchRejects).
  - reflexivity.
  - reflexivity.
  - discriminate.
  - left. reflexivity.
Defined.

(** ** The resume store under a faulting storage layer *)

Lemma resumeActiveJob_faulty r s :
  ls_faulty (localStorage s) = true ->
  resumeActiveJob r s = (s, Throw StorageError).
Proof.
  intros Hbad. unfold resumeActiveJob, resumeActiveJob_reply, localStorage_getItem, bind, get, throw.
  rewrite Hbad. reflexivity.
Qed.

Lemma handleSubmit_faulty d s :
  ls_faulty (localStorage s) = true ->
  handleSubmit true (Response true (Decoded (JsonObj d))) s =
  (set_page
     (set_submitBtn false "inline" "none"
        (set_errorMessage "Network error. Is the server running?"
           (set_resultError_display "block"
              (set_resultSuccess_display "none"
                 (set_resultSection_display "block"
                    (set_submitBtn true "none" "inline-flex" (page s)))))))
     (set_currentJobId (job_id d) s),
   Val tt).
Proof.
  intros Hbad.
  unfold handleSubmit, handleSubmit_reply, try_catch, await_fetch, JSON_parse, prop,
    localStorage_setItem, showError, resetSubmitBtn,
    bind, get, ret, throw, modify_page, modify.
  cbn. rewrite Hbad. reflexivity.
Qed.

(** C9, as the specification words it, fails: on a faulting storage layer
    the load of [resumeActiveJob] throws and the exception leaves
    [resumeActiveJob]; nothing turns the fault into "no job persisted",
    which would be a quiet return. *)
Lemma C9_counterexample :
  result localStorage_getItem reload_on_faulty_store = Throw StorageError /\
  result (resumeActiveJob FetchRejects) reload_on_faulty_store
    = Throw StorageError /\
  result (resumeActiveJob FetchRejects) reload_on_faulty_store <> Val tt.
Proof. vm_compute. repeat split. discriminate. Qed.

(** C9, amended.  The three store operations are plain synchronous calls
    into the storage layer with no handler of their own.  On a working
    layer none of them throws: a save makes the next load return the saved
    id, a clear makes it return [null].  On a faulting layer each of them
    throws, and the exception reaches the caller: the load makes
    [resumeActiveJob] throw, the save is caught by the [catch] of
    [handleSubmit], which reports a network error and starts no channel,
    and the clear makes [finishSuccess] throw before it writes the page. *)
Theorem C9_store_operations (s : State) :
  (ls_faulty (localStorage s) = false ->
   (exists v, localStorage_getItem s = (s, Val v)) /\
   (forall id : string,
       result (localStorage_setItem (JStr id)) s = Val tt /\
       result localStorage_getItem (exec (localStorage_setItem (JStr id)) s)
         = Val (JStr id)) /\
   result localStorage_removeItem s = Val tt /\
   result localStorage_getItem (exec localStorage_removeItem s) = Val JNull) /\
  (ls_faulty (localStorage s) = true ->
   localStorage_getItem s = (s, Throw StorageError) /\
   (forall v, localStorage_setItem v s = (s, Throw StorageError)) /\
   localStorage_removeItem s = (s, Throw StorageError) /\
   (forall r, resumeActiveJob r s = (s, Throw StorageError)) /\
   (forall d,
       let s' := exec (handleSubmit true (Response true (Decoded (JsonObj d)))) s in
       result (handleSubmit true (Response true (Decoded (JsonObj d)))) s
         = Val tt /\
       errorMessage (page s') = "Network error. Is the server running?" /\
       resultError_display (page s') = "block" /\
       sources s' = sources s /\ intervals s' = intervals s /\
       eventSource s' = eventSource s /\ pollTimer s' = pollTimer s) /\
   (forall d,
       result (finishSuccess (JsonObj d)) s = Throw StorageError /\
       page (exec (finishSuccess (JsonObj d)) s) = page s)).
Proof.
  split; intros Hf.
  - unfold localStorage_getItem, localStorage_setItem, localStorage_removeItem,
      result, exec, bind, get, ret, modify.
    rewrite Hf. cbn. repeat split. eexists. reflexivity.
  - split; [|split; [|split; [|split; [|split]]]].
    + unfold localStorage_getItem, bind, get, throw. rewrite Hf. reflexivity.
    + intros v. unfold localStorage_setItem, bind, get, throw.
      rewrite Hf. reflexivity.
    + unfold localStorage_removeItem, bind, get, throw. rewrite Hf. reflexivity.
    + intros r. apply resumeActiveJob_faulty, Hf.
    + intros d. cbv zeta. unfold result, exec.
      rewrite (handleSubmit_faulty _ _ Hf). repeat split.
    + intros d. unfold result, exec.
      rewrite (finishSuccess_faulty _ _ Hf). split; reflexivity.
Qed.

Lemma C9_store_operations_witness :
  resumeActiveJob FetchRejects reload_on_faulty_store
    = (reload_on_faulty_store, Throw StorageError) /\
  result localStorage_getItem
         (exec (localStorage_setItem (JStr "abc123")) reload_with_abc123)
    = Val (JStr "abc123").
Proof.
  split.
  - destruct (C9_store_operations reload_on_faulty_store) as [_ Hfaulty].
    destruct Hfaulty as (_ & _ & _ & Hresume & _); [reflexivity|].
    apply Hresume.
  - destruct (C9_store_operations reload_with_abc123) as [Hworking _].
    destruct Hworking as (_ & Hsave & _); [reflexivity|].
    apply Hsave.
Defined.

(** ** Teardown at a terminal outcome *)

Lemma close_source_lookup i l e :
  close_source i l !! i = Some e -> es_open e = false.
Proof.
  unfold close_source. rewrite list_lookup_alter_eq.
  destruct (l !! i); cbn; intros [= <-]; reflexivity.
Qed.

Lemma close_source_all_closed i l :
  (forall j e, l !! j = Some e -> es_open e = true -> j = i) ->
  forall e, e ∈ close_source i l -> es_open e = false.
Proof.
  intros Honly e [j Hj]%list_elem_of_lookup.
  destruct (decide (i = j)) as [<- | Hne].
  - exact (close_source_lookup _ _ _ Hj).
  - unfold close_source in Hj. rewrite list_lookup_alter_ne in Hj by exact Hne.
    destruct (es_open e) eqn:Hopen; [|reflexivity].
    exfalso. apply Hne. symmetry. exact (Honly _ _ Hj Hopen).
Qed.

(** C1, as the specification words it, fails.  The push source fails once
    (a reconnection is now pending), then the poll channel delivers a
    [complete] snapshot: the success outcome is applied, yet the
    reconnection stays pending, and when its timer fires it opens a new
    source for the finished job. *)
Lemma C1_counterexample :
  exists s' s'',
    run_events
      [EsError 0; IntervalTick 0;
       PollSettles (Response true (Decoded (JsonObj complete_snapshot)))]
      watching_abc123 = Some s' /\
    shown_outcome (page s') = Some (Succeeded "done" "/api/download/abc123") /\
    timeouts s' = [mkTimeout 0 2000] /\
    ~ push_stopped s' /\
    step (TimerFires 0) s' = Some s'' /\
    eventSource s'' = Some 1%nat /\
    sources s'' !! 1%nat = Some (mkEventSource "/api/status/abc123" 0 true).
Proof.
  eexists. eexists.
  split; [vm_compute; reflexivity|].
  split; [vm_compute; reflexivity|].
  split; [reflexivity|].
  split; [intros (_ & _ & Hnone); discriminate Hnone|].
  split; [vm_compute; reflexivity|].
  split; reflexivity.
Qed.

(** C1, amended.  On a working store, after [updateProgress] has applied a
    terminal snapshot ([complete] or [error]) the variable [eventSource] is
    null, the source it referred to is closed (and every source is closed
    when that one was the only open one), and the resume store holds no
    value; after a [complete] snapshot the poll timer is cancelled as well.
    A reconnection that was pending is left pending. *)
Theorem C1_after_terminal_outcome (s : State) (d : Snapshot) :
  ls_faulty (localStorage s) = false ->
  is_terminal (status d) = true ->
  let s' := exec (updateProgress (JsonObj d)) s in
  eventSource s' = None /\
  (forall i e, eventSource s = Some i -> sources s' !! i = Some e ->
               es_open e = false) /\
  ((forall j e, sources s !! j = Some e -> es_open e = true ->
                eventSource s = Some j) ->
   forall e, e ∈ sources s' -> es_open e = false) /\
  ls_item (localStorage s') = None /\
  timeouts s' = timeouts s /\
  (status d = JStr "complete" ->
   pollTimer s' = None /\
   (forall i v, pollTimer s = Some i -> intervals s' !! i = Some v ->
                iv_active v = false)).
Proof.
  intros Hok Hterm. cbv zeta.
  assert (Hsrc : sources (exec (updateProgress (JsonObj d)) s)
                 = sources_after_close s /\
                 eventSource (exec (updateProgress (JsonObj d)) s) = None /\
                 ls_item (localStorage (exec (updateProgress (JsonObj d)) s))
                 = None /\
                 timeouts (exec (updateProgress (JsonObj d)) s) = timeouts s).
  { unfold is_terminal, strict_eq in Hterm.
    apply orb_true_iff in Hterm as [H | H]; apply bool_decide_eq_true in H;
      unfold exec;
      [rewrite (updateProgress_complete _ _ H Hok)
      |rewrite (updateProgress_error _ _ H Hok)]; repeat split. }
  destruct Hsrc as (Hsources & Hes & Hitem & Htos).
  split; [exact Hes|]. split; [|split; [|split; [exact Hitem|split; [exact Htos|]]]].
  - intros i e Hi. rewrite Hsources. unfold sources_after_close. rewrite Hi.
    apply close_source_lookup.
  - intros Honly e. rewrite Hsources. unfold sources_after_close.
    destruct (eventSource s) as [i|] eqn:Hi.
    + apply close_source_all_closed. intros j e' Hj Hopen.
      specialize (Honly _ _ Hj Hopen). congruence.
    + intros [j Hj]%list_elem_of_lookup.
      destruct (es_open e) eqn:Hopen; [|reflexivity].
      specialize (Honly _ _ Hj Hopen). discriminate.
  - intros Hc. unfold exec. rewrite (updateProgress_complete _ _ Hc Hok).
    cbn [fst pollTimer intervals]. split; [reflexivity|].
    intros i v Hi. unfold intervals_after_stop. rewrite Hi.
    rewrite list_lookup_alter_eq.
    destruct (intervals s !! i); cbn; intros [= <-]; reflexivity.
Qed.

Lemma C1_after_terminal_outcome_witness :
  eventSource (exec (updateProgress (JsonObj (error_snapshot "disk full")))
                    watching_abc123) = None /\
  ls_item (localStorage
             (exec (updateProgress (JsonObj (error_snapshot "disk full")))
                   watching_abc123)) = None.
Proof.
  destruct (C1_after_terminal_outcome watching_abc123
              (error_snapshot "disk full"))
    as (Hes & _ & _ & Hitem & _).
  - reflexivity.
  - reflexivity.
  - split; [exact Hes | exact Hitem].
Defined.

(** ** Snapshots after a terminal one *)

(** An [error] snapshot that arrives on the push source: [finishError] has
    already set [eventSource] to null when [onmessage] reaches its own
    [eventSource.close()], so that call throws, the [catch] logs it, and
    the [stopPolling()] behind it never runs.  The poll timer keeps
    ticking. *)
Lemma push_error_keeps_poll_timer :
  exists s',
    step (EsMessage 0 (Decoded (JsonObj (error_snapshot "disk full"))))
         watching_abc123 = Some s' /\
    shown_outcome (page s') = Some (Failed "disk full") /\
    pollTimer s' = Some 0%nat /\
    intervals s' !! 0%nat = Some (mkInterval (JStr "abc123") 1500 true) /\
    ~ poll_stopped s'.
Proof.
  eexists. split; [vm_compute; reflexivity|].
  split; [reflexivity|]. split; [reflexivity|]. split; [reflexivity|].
  intros [Hnone _]. discriminate Hnone.
Qed.

(** C2, as the specification words it, fails.  The push source delivers an
    [error] snapshot and the failure outcome is applied; the poll channel
    then delivers a [complete] snapshot and the page turns to the success
    outcome: the first terminal snapshot did not win. *)
Lemma C2_counterexample :
  exists s1 s2,
    step (EsMessage 0 (Decoded (JsonObj (error_snapshot "disk full"))))
         watching_abc123 = Some s1 /\
    run_events
      [IntervalTick 0;
       PollSettles (Response true (Decoded (JsonObj complete_snapshot)))]
      s1 = Some s2 /\
    shown_outcome (page s1) = Some (Failed "disk full") /\
    shown_outcome (page s2) = Some (Succeeded "done" "/api/download/abc123") /\
    shown_outcome (page s2) <> shown_outcome (page s1).
Proof.
  eexists. eexists.
  split; [vm_compute; reflexivity|].
  split; [vm_compute; reflexivity|].
  split; [reflexivity|]. split; [reflexivity|]. discriminate.
Qed.

Lemma deliver_frame s d :
  ls_faulty (localStorage s) = false ->
  ls_faulty (localStorage (deliver s d)) = false /\
  currentJobId (deliver s d) = currentJobId s.
Proof.
  intros Hok. unfold deliver, exec. rewrite updateProgress_unfold.
  destruct (strict_eq (status d) (JStr "complete")).
  - rewrite finishSuccess_ok by exact Hok. split; reflexivity.
  - destruct (strict_eq (status d) (JStr "error")).
    + rewrite finishError_ok by exact Hok. split; reflexivity.
    + split; [exact Hok | reflexivity].
Qed.

Lemma shown_outcome_render d pg :
  shown_outcome (render d pg) = shown_outcome pg.
Proof.
  destruct (render_result_fields d pg) as (H1 & H2 & H3 & H4 & H5 & H6).
  unfold shown_outcome. rewrite H1, H2, H3, H4, H5, H6. reflexivity.
Qed.

Lemma deliver_outcome s d :
  ls_faulty (localStorage s) = false ->
  shown_outcome (page (deliver s d)) =
  match outcome_of (currentJobId s) d with
  | Some o => Some o
  | None => shown_outcome (page s)
  end.
Proof.
  intros Hok. unfold deliver, exec, outcome_of. rewrite updateProgress_unfold.
  destruct (strict_eq (status d) (JStr "complete")).
  - rewrite finishSuccess_ok by exact Hok. reflexivity.
  - destruct (strict_eq (status d) (JStr "error")).
    + rewrite finishError_ok by exact Hok. reflexivity.
    + cbn [fst ret]. rewrite page_set_page. apply shown_outcome_render.
Qed.

(** C2, amended.  [updateProgress] keeps no record of a terminal outcome
    already applied: on a working store, every terminal snapshot that is
    delivered is applied, so after any sequence of delivered snapshots the
    page shows the outcome of the last terminal snapshot of the sequence
    (and what it showed before when the sequence has none); snapshots that
    are not terminal leave the outcome panel as it is. *)
Theorem C2_last_terminal_snapshot_shown (s : State) (ds : list Snapshot) :
  ls_faulty (localStorage s) = false ->
  shown_outcome (page (foldl deliver s ds)) =
  latest_outcome (currentJobId s) (shown_outcome (page s)) ds.
Proof.
  revert s. induction ds as [|d ds IH]; intros s Hok.
  - reflexivity.
  - cbn [foldl]. unfold latest_outcome. cbn [foldl].
    destruct (deliver_frame s d Hok) as [Hok' Hjob].
    rewrite (IH (deliver s d) Hok'), Hjob, (deliver_outcome s d Hok).
    reflexivity.
Qed.

Lemma C2_last_terminal_snapshot_shown_witness :
  shown_outcome
    (page (foldl deliver watching_abc123
                 [running_transcribe; error_snapshot "disk full";
                  complete_snapshot; error_snapshot "late"]))
  = Some (Failed "late").
Proof.
  rewrite (C2_last_terminal_snapshot_shown watching_abc123).
  - reflexivity.
  - reflexivity.
Defined.

(** Both channels deliver through [updateProgress]: on a working store the
    page after a message on the push source, and the page after a settled
    poll request, is the page after delivering the decoded snapshot. *)
Lemma onmessage_delivers c d s :
  ls_faulty (localStorage s) = false ->
  page (exec (onmessage c (Decoded (JsonObj d))) s) = page (deliver s d).
Proof.
  intros Hok.
  unfold deliver, exec, onmessage, try_catch, bind, set_retryCount, modify,
    JSON_parse, prop.
  cbn -[updateProgress is_terminal].
  rewrite !updateProgress_unfold. unfold is_terminal.
  destruct (strict_eq (status d) (JStr "complete")).
  - rewrite !finishSuccess_ok by exact Hok. reflexivity.
  - destruct (strict_eq (status d) (JStr "error")).
    + rewrite !finishError_ok by exact Hok. reflexivity.
    + reflexivity.
Qed.

Lemma poll_callback_delivers d s :
  ls_faulty (localStorage s) = false ->
  page (exec (poll_callback (Response true (Decoded (JsonObj d)))) s)
  = page (deliver s d).
Proof.
  intros Hok.
  unfold deliver, exec, poll_callback, try_catch, await_fetch, bind,
    JSON_parse, prop.
  cbn -[updateProgress is_terminal].
  rewrite !updateProgress_unfold. unfold is_terminal.
  destruct (strict_eq (status d) (JStr "complete")).
  - rewrite !finishSuccess_ok by exact Hok. reflexivity.
  - destruct (strict_eq (status d) (JStr "error")).
    + rewrite !finishError_ok by exact Hok.
      cbn [orb]. unfold stopPolling, close_eventSource_if_open, bind, get.
      cbn. destruct (pollTimer s); reflexivity.
    + reflexivity.
Qed.

(** ** Properties kept by the callbacks *)

Section Keeps.
Context (P : State -> Prop).

Lemma keeps_ret {A} (a : A) : keeps P (ret a).
Proof. intros s Hs. exact Hs. Qed.

Lemma keeps_throw {A} (e : Exn) : keeps P (@throw A e).
Proof. intros s Hs. exact Hs. Qed.

Lemma keeps_get : keeps P get.
Proof. intros s Hs. exact Hs. Qed.

Lemma keeps_modify (f : State -> State) :
  (forall s, P s -> P (f s)) -> keeps P (modify f).
Proof. intros Hf s Hs. apply Hf, Hs. Qed.

Lemma keeps_bind {A B} (m : M A) (k : A -> M B) :
  keeps P m -> (forall a, keeps P (k a)) -> keeps P (bind m k).
Proof.
  intros Hm Hk s Hs. unfold bind. specialize (Hm s Hs).
  destruct (m s) as [s' [a | e]]; cbn in *; [apply Hk, Hm | exact Hm].
Qed.

Lemma keeps_try_catch {A} (m : M A) (h : Exn -> M A) :
  keeps P m -> (forall e, keeps P (h e)) -> keeps P (try_catch m h).
Proof.
  intros Hm Hh s Hs. unfold try_catch. specialize (Hm s Hs).
  destruct (m s) as [s' [a | e]]; cbn in *; [exact Hm | apply Hh, Hm].
Qed.

(** Code that reads the state and goes on from what it read. *)
Lemma keeps_get_bind {B} (k : State -> M B) :
  (forall s, P s -> P (fst (k s s))) -> keeps P (bind get k).
Proof. intros Hk s Hs. apply Hk, Hs. Qed.
End Keeps.

Create HintDb keeps.

Ltac keeps_step :=
  lazymatch goal with
  | |- keeps _ (bind _ _) => apply keeps_bind; [|intros ?]
  | |- keeps _ (try_catch _ _) => apply keeps_try_catch; [|intros ?]
  | |- keeps _ (ret _) => apply keeps_ret
  | |- keeps _ (throw _) => apply keeps_throw
  | |- keeps _ get => apply keeps_get
  | |- keeps _ (if ?b then _ else _) => destruct b
  | |- keeps _ (match ?x with _ => _ end) => destruct x
  | |- keeps _ _ => solve [eauto 8 with keeps]
  end.

Ltac keeps_auto := repeat keeps_step.

(** Properties that only see the push-channel objects ([closures],
  [sources], [timeouts]) and survive the closing of a source are kept by
  everything that renders, stores, polls or tears down. *)
Section Teardown_only.
Context (P : State -> Prop).
Hypothesis P_frame :
  forall s s',
    closures s' = closures s -> sources s' = sources s ->
    timeouts s' = timeouts s -> P s -> P s'.
Hypothesis P_close :
  forall s i, P s -> P (set_sources (close_source i (sources s)) s).

Lemma keeps_modify_frame (f : State -> State) :
  (forall s, closures (f s) = closures s /\ sources (f s) = sources s /\
             timeouts (f s) = timeouts s) ->
  keeps P (modify f).
Proof.
  intros Hf. apply keeps_modify. intros s Hs.
  destruct (Hf s) as (H1 & H2 & H3). exact (P_frame _ _ H1 H2 H3 Hs).
Qed.

Lemma keeps_modify_page f : keeps P (modify_page f).
Proof. apply keeps_modify_frame. intros s. repeat split. Qed.

Lemma keeps_getItem : keeps P localStorage_getItem.
Proof. unfold localStorage_getItem. keeps_auto. Qed.

Lemma keeps_setItem v : keeps P (localStorage_setItem v).
Proof.
  unfold localStorage_setItem. keeps_auto.
  apply keeps_modify_frame. intros s. repeat split.
Qed.

Lemma keeps_removeItem : keeps P localStorage_removeItem.
Proof.
  unfold localStorage_removeItem. keeps_auto.
  apply keeps_modify_frame. intros s. repeat split.
Qed.

Lemma keeps_eventSource_close : keeps P eventSource_close.
Proof.
  unfold eventSource_close. apply keeps_get_bind. intros s Hs.
  destruct (eventSource s); [apply P_close, Hs | exact Hs].
Qed.

Lemma keeps_set_eventSource x : keeps P (modify (set_eventSource x)).
Proof. apply keeps_modify_frame. intros s. repeat split. Qed.

Lemma keeps_close_eventSource_if_open : keeps P close_eventSource_if_open.
Proof.
  pose proof keeps_eventSource_close. pose proof keeps_set_eventSource.
  unfold close_eventSource_if_open. keeps_auto.
Qed.

Lemma keeps_stopPolling : keeps P stopPolling.
Proof.
  unfold stopPolling, clearInterval. keeps_auto;
    apply keeps_modify_frame; intros s; repeat split.
Qed.

Lemma keeps_startPolling jobId : keeps P (startPolling jobId).
Proof.
  pose proof keeps_stopPolling.
  unfold startPolling. keeps_auto;
    apply keeps_modify_frame; intros s; repeat split.
Qed.

Lemma keeps_resetSubmitBtn : keeps P resetSubmitBtn.
Proof. apply keeps_modify_page. Qed.

Lemma keeps_prop f data : keeps P (prop f data).
Proof. unfold prop. keeps_auto. Qed.

Lemma keeps_showProgress jobId : keeps P (showProgress jobId).
Proof.
  pose proof keeps_modify_page. unfold showProgress. keeps_auto.
Qed.

Lemma keeps_showError msg : keeps P (showError msg).
Proof. pose proof keeps_modify_page. unfold showError. keeps_auto. Qed.

Lemma keeps_finishSuccess data : keeps P (finishSuccess data).
Proof.
  pose proof keeps_modify_page. pose proof keeps_close_eventSource_if_open.
  pose proof keeps_stopPolling. pose proof keeps_removeItem.
  pose proof keeps_prop. pose proof keeps_resetSubmitBtn.
  unfold finishSuccess. keeps_auto.
Qed.

Lemma keeps_finishError data : keeps P (finishError data).
Proof.
  pose proof keeps_modify_page. pose proof keeps_close_eventSource_if_open.
  pose proof keeps_removeItem. pose proof keeps_prop.
  pose proof keeps_resetSubmitBtn.
  unfold finishError. keeps_auto.
Qed.

Lemma keeps_updateProgress data : keeps P (updateProgress data).
Proof.
  pose proof keeps_modify_page. pose proof keeps_finishSuccess.
  pose proof keeps_finishError. pose proof keeps_prop.
  unfold updateProgress. keeps_auto.
Qed.

Lemma keeps_resetForm : keeps P resetForm.
Proof.
  pose proof keeps_modify_page. pose proof keeps_removeItem.
  pose proof keeps_resetSubmitBtn.
  unfold resetForm. keeps_auto.
  apply keeps_modify_frame. intros s. repeat split.
Qed.

Lemma keeps_poll_callback r : keeps P (poll_callback r).
Proof.
  pose proof keeps_updateProgress. pose proof keeps_prop.
  pose proof keeps_stopPolling. pose proof keeps_close_eventSource_if_open.
  unfold poll_callback, await_fetch, JSON_parse. keeps_auto.
Qed.

(** What [onmessage] does once it has reset the counter. *)
Lemma keeps_onmessage_rest event_data :
  keeps P
    (try_catch
       (do data <- JSON_parse event_data;
        run updateProgress data;
        do st <- prop status data;
        when (is_terminal st) then
          (run eventSource_close;
           run modify (set_eventSource None);
           stopPolling))
       (fun _ => ret tt)).
Proof.
  pose proof keeps_updateProgress. pose proof keeps_prop.
  pose proof keeps_stopPolling. pose proof keeps_eventSource_close.
  pose proof keeps_set_eventSource.
  unfold JSON_parse. keeps_auto.
Qed.
End Teardown_only.

#[local] Hint Resolve keeps_modify_page keeps_getItem keeps_setItem
  keeps_removeItem keeps_eventSource_close keeps_set_eventSource
  keeps_close_eventSource_if_open keeps_stopPolling keeps_startPolling
  keeps_resetSubmitBtn keeps_prop keeps_showProgress keeps_showError
  keeps_finishSuccess keeps_finishError keeps_updateProgress : keeps.

(** ** A stopped push channel stays stopped *)

Lemma retired_frame c s s' :
  closures s' = closures s -> sources s' = sources s ->
  timeouts s' = timeouts s -> retired c s -> retired c s'.
Proof.
  unfold retired, closure_stopped. intros -> -> ->. exact id.
Qed.

Lemma retired_close c s i :
  retired c s -> retired c (set_sources (close_source i (sources s)) s).
Proof.
  unfold retired, closure_stopped. cbn. intros (Hc & Hsrc & Hto).
  split; [exact Hc|]. split; [|exact Hto].
  unfold close_source. apply Forall_alter; [exact Hsrc|].
  intros e _ _ _. reflexivity.
Qed.

Lemma closures_frame cls s s' :
  closures s' = closures s -> sources s' = sources s ->
  timeouts s' = timeouts s -> closures s = cls -> closures s' = cls.
Proof. congruence. Qed.

Lemma closures_close cls s i :
  closures s = cls -> closures (set_sources (close_source i (sources s)) s) = cls.
Proof. exact id. Qed.

#[local] Hint Resolve retired_frame retired_close : keeps.

Lemma keeps_retired_set_retryCount c c' n :
  keeps (retired c) (set_retryCount c' n).
Proof.
  apply keeps_modify. unfold retired, closure_stopped. cbn.
  intros s (Hc & Hrest). rewrite length_alter. auto.
Qed.

Lemma keeps_retired_setTimeout c c' delay :
  c' <> c -> keeps (retired c) (setTimeout_connect c' delay).
Proof.
  intros Hne. apply keeps_modify. unfold retired, closure_stopped. cbn.
  intros s (Hc & Hsrc & Hto). repeat split; [exact Hc | exact Hsrc |].
  apply Forall_app. split; [exact Hto|]. apply Forall_singleton. exact Hne.
Qed.

Lemma connect_eq c' s :
  connect c' s =
  (set_eventSource (Some (length (sources s)))
     (set_sources
        (sources s ++
         [mkEventSource
            ("/api/status/" +:+
             to_string (from_option c_jobId JUndefined (closures s !! c')))
            c' true]) s),
   Val tt).
Proof. reflexivity. Qed.

Lemma keeps_retired_connect c c' :
  c' <> c -> keeps (retired c) (connect c').
Proof.
  intros Hne s (Hc & Hsrc & Hto). rewrite connect_eq.
  unfold retired, closure_stopped. cbn.
  repeat split; [exact Hc | | exact Hto].
  apply Forall_app. split; [exact Hsrc|]. apply Forall_singleton.
  cbn. intros Heq. destruct (Hne Heq).
Qed.

Lemma keeps_retired_onmessage c c' event_data :
  keeps (retired c) (onmessage c' event_data).
Proof.
  intros s Hs.
  pose proof (keeps_retired_set_retryCount c c' 0 s Hs) as Hs1.
  revert Hs1. apply keeps_onmessage_rest;
    [apply retired_frame | apply retired_close].
Qed.

Lemma keeps_retired_onerror c c' :
  c' <> c -> keeps (retired c) (onerror c').
Proof.
  intros Hne.
  pose proof (keeps_retired_set_retryCount c c').
  pose proof (keeps_retired_setTimeout c c' 2000 Hne).
  unfold onerror, get_retryCount. keeps_auto.
Qed.

Lemma startSSE_eq jobId s :
  startSSE jobId s =
  (let c := length (closures s) in
   let srcs := sources_after_close s in
   let ivs := intervals_after_stop s in
   mkState (localStorage s) (currentJobId s) (Some (length srcs))
           (Some (length ivs))
           (closures s ++ [mkClosure jobId 0])
           (srcs ++ [mkEventSource ("/api/status/" +:+ to_string jobId) c true])
           (timeouts s)
           (ivs ++ [mkInterval jobId 1500 true])
           (inflight s) (page s),
   Val tt).
Proof.
  unfold startSSE, startPolling, stopPolling, clearInterval, eventSource_close,
    connect, get_jobId, sources_after_close, intervals_after_stop,
    bind, get, ret, modify.
  destruct s as [ls cj es pt cls srcs tos ivs inf pg]; cbn.
  destruct es as [i|], pt as [j|]; cbn;
    rewrite ?length_alter, lookup_app_r, Nat.sub_diag by lia; reflexivity.
Qed.

Lemma keeps_retired_startSSE c jobId : keeps (retired c) (startSSE jobId).
Proof.
  intros s (Hc & Hsrc & Hto). rewrite startSSE_eq.
  unfold retired, closure_stopped. cbn.
  rewrite length_app. repeat split; [lia | | exact Hto].
  apply Forall_app. split.
  - unfold sources_after_close. destruct (eventSource s); [|exact Hsrc].
    unfold close_source. apply Forall_alter; [exact Hsrc|]. reflexivity.
  - apply Forall_singleton. cbn. lia.
Qed.

Lemma keeps_retired_handleSubmit c valid r :
  keeps (retired c) (handleSubmit valid r).
Proof.
  pose proof (keeps_retired_startSSE c).
  unfold handleSubmit, handleSubmit_reply, await_fetch, JSON_parse. keeps_auto;
    apply keeps_modify_frame; try apply retired_frame; intros s; repeat split.
Qed.

Lemma keeps_retired_resumeActiveJob c r :
  keeps (retired c) (resumeActiveJob r).
Proof.
  pose proof (keeps_retired_startSSE c).
  unfold resumeActiveJob, resumeActiveJob_reply, await_fetch, JSON_parse. keeps_auto;
    apply keeps_modify_frame; try apply retired_frame; intros s; repeat split.
Qed.

(** No turn of the event loop restarts a stopped push channel. *)
Lemma retired_step c ev s s' :
  retired c s -> step ev s = Some s' -> retired c s'.
Proof.
  intros Hs Hstep. pose proof Hs as (Hc & Hsrc & Hto).
  destruct ev as [src event_data | src | k | i | r | valid r | r | ];
    cbn [step] in Hstep.
  - destruct (sources s !! src) as [e|]; [|discriminate].
    destruct (es_open e); [|discriminate].
    injection Hstep as <-. apply keeps_retired_onmessage, Hs.
  - destruct (sources s !! src) as [e|] eqn:He; [|discriminate].
    destruct (es_open e) eqn:Hopen; [|discriminate].
    injection Hstep as <-. apply keeps_retired_onerror; [|exact Hs].
    intros Heq. pose proof (Forall_lookup_1 _ _ _ _ Hsrc He Heq). congruence.
  - destruct (timeouts s !! k) as [t|] eqn:Ht; [|discriminate].
    injection Hstep as <-. apply keeps_retired_connect.
    + exact (Forall_lookup_1 _ _ _ _ Hto Ht).
    + unfold retired, closure_stopped. cbn.
      repeat split; [exact Hc | exact Hsrc | apply Forall_delete, Hto].
  - destruct (intervals s !! i) as [v|]; [|discriminate].
    destruct (iv_active v); [|discriminate].
    injection Hstep as <-. exact Hs.
  - destruct (inflight s) as [|n]; [discriminate|].
    injection Hstep as <-.
    apply (keeps_poll_callback (retired c) (retired_frame c) (retired_close c)
             r (set_inflight n s)).
    exact Hs.
  - injection Hstep as <-. apply keeps_retired_handleSubmit, Hs.
  - injection Hstep as <-. apply keeps_retired_resumeActiveJob, Hs.
  - injection Hstep as <-.
    exact (keeps_resetForm (retired c) (retired_frame c) s Hs).
Qed.

Lemma retired_run_events c evs s s' :
  retired c s -> run_events evs s = Some s' -> retired c s'.
Proof.
  revert s. induction evs as [|ev evs IH]; intros s Hs Hrun; cbn in Hrun.
  - injection Hrun as <-. exact Hs.
  - destruct (step ev s) as [s1|] eqn:Hstep; [|discriminate].
    exact (IH s1 (retired_step _ _ _ _ Hs Hstep) Hrun).
Qed.

(** ** The push channel: counting failures *)

Lemma onerror_eq c i cl s :
  eventSource s = Some i ->
  closures s !! c = Some cl ->
  onerror c s =
  (set_timeouts
     (if retryCount cl + 1 <=? maxRetries
      then timeouts s ++ [mkTimeout c 2000] else timeouts s)
     (set_closures
        (alter (fun cl0 => mkClosure (c_jobId cl0) (retryCount cl + 1)) c
               (closures s))
        (set_eventSource None (set_sources (close_source i (sources s)) s))),
   Val tt).
Proof.
  intros Hes Hcl.
  unfold onerror, eventSource_close, get_retryCount, set_retryCount,
    setTimeout_connect, bind, get, ret, modify.
  rewrite Hes. cbn. rewrite Hcl. cbn. rewrite list_lookup_alter_eq, Hcl. cbn.
  destruct (retryCount cl + 1 <=? maxRetries); reflexivity.
Qed.

(** A message resets the counter of its activation, whatever it carries
    and whatever happens while it is handled. *)
Lemma onmessage_closures c event_data s :
  closures (exec (onmessage c event_data) s) =
  alter (fun cl => mkClosure (c_jobId cl) 0) c (closures s).
Proof.
  set (cls := alter (fun cl => mkClosure (c_jobId cl) 0) c (closures s)).
  assert (Hstart : closures (exec (set_retryCount c 0) s) = cls) by reflexivity.
  revert Hstart.
  apply (keeps_onmessage_rest (fun s' => closures s' = cls)
           (closures_frame cls) (closures_close cls) event_data).
Qed.

Lemma onmessage_resets_retryCount c cl event_data s :
  closures s !! c = Some cl ->
  retryCount_of c (exec (onmessage c event_data) s) = 0.
Proof.
  intros Hcl. unfold retryCount_of.
  rewrite onmessage_closures, list_lookup_alter_eq, Hcl. reflexivity.
Qed.


(** ** The push channel: consecutive failures *)

Lemma length_sources_after_close s :
  length (sources_after_close s) = length (sources s).
Proof.
  unfold sources_after_close, close_source.
  destruct (eventSource s); [apply length_alter | reflexivity].
Qed.

Lemma sources_after_close_owner (Q : nat -> Prop) s :
  Forall (fun e => Q (es_closure e)) (sources s) ->
  Forall (fun e => Q (es_closure e)) (sources_after_close s).
Proof.
  intros H. unfold sources_after_close, close_source.
  destruct (eventSource s); [|exact H].
  apply Forall_alter; [exact H|]. intros e _ He. exact He.
Qed.

(** [startSSE] leaves its activation connected, with a counter of zero. *)
Lemma startSSE_connected s0 jobId :
  Forall (fun e => es_closure e <> length (closures s0)) (sources s0) ->
  connected (length (closures s0)) jobId 0 (length (sources s0))
            (timeouts s0) (exec (startSSE jobId) s0).
Proof.
  intros Hfresh. unfold exec. rewrite startSSE_eq. cbn [fst].
  pose proof (length_sources_after_close s0) as Hlen.
  unfold connected. cbn.
  split; [apply list_lookup_middle; reflexivity|].
  split; [rewrite length_app, Hlen; cbn; lia|].
  split; [rewrite Hlen; reflexivity|].
  split; [apply list_lookup_middle; symmetry; exact Hlen|].
  split; [|reflexivity].
  intros j e Hj Hown Hopen.
  apply lookup_app_Some in Hj as [Hj | [Hge Hj]].
  - exfalso.
    pose proof (sources_after_close_owner
                  (fun c => c <> length (closures s0)) s0 Hfresh) as Hall.
    exact (Forall_lookup_1 _ _ _ _ Hall Hj Hown).
  - apply lookup_lt_Some in Hj. cbn in Hj. lia.
Qed.

(** A transport error on the source of a connected activation. *)
Lemma connected_error c jobId n L tos s :
  connected c jobId n L tos s ->
  step (EsError L) s = Some (exec (onerror c) s) /\
  closures (exec (onerror c) s) !! c = Some (mkClosure jobId (n + 1)) /\
  sources (exec (onerror c) s) = close_source L (sources s) /\
  eventSource (exec (onerror c) s) = None /\
  timeouts (exec (onerror c) s) =
    (if n + 1 <=? maxRetries then (tos ++ [mkTimeout c 2000])%list else tos).
Proof.
  intros (Hcl & Hlen & Hes & HL & Honly & Hto).
  split; [cbn [step]; rewrite HL; reflexivity|].
  unfold exec. rewrite (onerror_eq _ _ _ _ Hes Hcl). cbn.
  rewrite list_lookup_alter_eq, Hcl, Hto. repeat split.
Qed.

(** While the counter stays within the bound, a failure is followed by a
    reconnection: the activation is connected again, through a new source,
    with one more failure counted. *)
Lemma connected_round c jobId n L tos s :
  connected c jobId n L tos s ->
  n + 1 <= maxRetries ->
  exists s2,
    run_events [EsError L; TimerFires (length tos)] s = Some s2 /\
    connected c jobId (n + 1) (S L) tos s2.
Proof.
  intros Hconn Hbound. pose proof Hconn as (Hcl & Hlen & Hes & HL & Honly & Hto).
  destruct (connected_error _ _ _ _ _ _ Hconn)
    as (Hstep & Hcl' & Hsrc' & Hes' & Hto').
  apply Z.leb_le in Hbound. rewrite Hbound in Hto'.
  eexists. split.
  { cbn [run_events]. rewrite Hstep. cbn [step]. rewrite Hto'.
    rewrite list_lookup_middle by reflexivity. reflexivity. }
  unfold exec at 1. rewrite connect_eq. cbn [fst].
  unfold connected.
  cbn [closures sources eventSource timeouts set_eventSource set_sources
       set_timeouts to_closure].
  rewrite Hcl', Hsrc'. cbn [from_option c_jobId].
  assert (Hlen' : length (close_source L (sources s)) = S L)
    by (unfold close_source; rewrite length_alter; exact Hlen).
  split; [reflexivity|]. split; [rewrite length_app, Hlen'; cbn; lia|].
  split; [rewrite Hlen'; reflexivity|].
  split; [apply list_lookup_middle; symmetry; exact Hlen'|].
  split; [|rewrite delete_middle; apply app_nil_r].
  intros j e Hj Hown Hopen.
  apply lookup_app_Some in Hj as [Hj | [Hge Hj]].
  - exfalso. destruct (decide (j = L)) as [-> | Hne].
    + apply close_source_lookup in Hj. congruence.
    + unfold close_source in Hj.
      rewrite list_lookup_alter_ne in Hj by congruence.
      apply Hne. exact (Honly _ _ Hj Hown Hopen).
  - rewrite Hlen' in Hge, Hj.
    apply lookup_lt_Some in Hj. cbn in Hj. lia.
Qed.

Lemma connected_rounds c jobId tos k :
  forall n L s,
    connected c jobId n L tos s ->
    n + Z.of_nat k <= maxRetries ->
    exists sk,
      run_events (reconnect_rounds k L (length tos)) s = Some sk /\
      connected c jobId (n + Z.of_nat k) (L + k) tos sk.
Proof.
  induction k as [|k IH]; intros n L s Hconn Hbound.
  - exists s. split; [reflexivity|].
    rewrite Z.add_0_r, Nat.add_0_r. exact Hconn.
  - destruct (connected_round _ _ _ _ _ _ Hconn) as (s2 & Hrun2 & Hconn2);
      [lia|].
    destruct (IH (n + 1) (S L) s2 Hconn2) as (sk & Hrunk & Hconnk); [lia|].
    exists sk. split.
    + cbn [reconnect_rounds run_events] in *.
      destruct (step (EsError L) s) as [s1|]; [|discriminate].
      destruct (step (TimerFires (length tos)) s1) as [s2'|]; [|discriminate].
      injection Hrun2 as ->. exact Hrunk.
    + replace (n + Z.of_nat (S k)) with (n + 1 + Z.of_nat k) by lia.
      replace (L + S k)%nat with (S L + k)%nat by lia. exact Hconnk.
Qed.

(** Past the bound, a failure schedules nothing and the push channel of
    the activation is stopped. *)
Lemma connected_last_error c jobId n L tos s :
  connected c jobId n L tos s ->
  Forall (fun t => to_closure t <> c) tos ->
  maxRetries < n + 1 ->
  timeouts (exec (onerror c) s) = tos /\ retired c (exec (onerror c) s).
Proof.
  intros Hconn Htos Hover. pose proof Hconn as (Hcl & Hlen & Hes & HL & Honly & Hto).
  destruct (connected_error _ _ _ _ _ _ Hconn)
    as (_ & Hcl' & Hsrc' & _ & Hto').
  replace (n + 1 <=? maxRetries) with false in Hto'
    by (symmetry; apply Z.leb_gt; exact Hover).
  split; [exact Hto'|]. unfold retired, closure_stopped.
  split; [apply lookup_lt_Some in Hcl'; exact Hcl'|].
  rewrite Hsrc', Hto'. split; [|exact Htos].
  apply Forall_lookup. intros j e Hj Hown.
  destruct (es_open e) eqn:Hopen; [|reflexivity].
  destruct (decide (j = L)) as [-> | Hne].
  - apply close_source_lookup in Hj. congruence.
  - unfold close_source in Hj. rewrite list_lookup_alter_ne in Hj by congruence.
    destruct (Hne (Honly _ _ Hj Hown Hopen)).
Qed.



(** ** Scenarios *)

(** A job watched from submission to completion: pending stages and an
    empty bar first, then [download] complete and [transcribe] in
    progress at 25%, then the success view, an empty resume store and both
    channels stopped. *)
Lemma scenario_submit_to_completion :
  exists s1 s2 s3,
    step (EsMessage 0
            (Decoded (JsonObj (mkSnapshot (JStr "abc123") (JNum 0) JUndefined
                                          JNull (JStr "queued") JUndefined))))
         watching_abc123 = Some s1 /\
    Forall marked_pending (stages (page s1)) /\
    progressText (page s1) = "0%" /\
    step (EsMessage 0 (Decoded (JsonObj running_transcribe))) s1 = Some s2 /\
    (exists e0 e1,
        stages (page s2) !! 0%nat = Some e0 /\ marked_complete e0 /\
        stages (page s2) !! 1%nat = Some e1 /\ marked_in_progress e1) /\
    progressText (page s2) = "25%" /\
    step (EsMessage 0 (Decoded (JsonObj complete_snapshot))) s2 = Some s3 /\
    Forall marked_complete (stages (page s3)) /\
    progressText (page s3) = "100%" /\
    shown_outcome (page s3) = Some (Succeeded "done" "/api/download/abc123") /\
    ls_item (localStorage s3) = None /\
    push_stopped s3 /\ poll_stopped s3.
Proof.
  eexists. eexists. eexists.
  split; [vm_compute; reflexivity|].
  split; [apply (bool_decide_unpack _); vm_compute; exact I|].
  split; [reflexivity|].
  split; [vm_compute; reflexivity|].
  split.
  { eexists. eexists. split; [reflexivity|].
    split; [apply (bool_decide_unpack _); vm_compute; exact I|].
    split; [reflexivity|]. apply (bool_decide_unpack _); vm_compute; exact I. }
  split; [reflexivity|].
  split; [vm_compute; reflexivity|].
  split; [apply (bool_decide_unpack _); vm_compute; exact I|].
  split; [reflexivity|]. split; [reflexivity|]. split; [reflexivity|].
  split.
  - split; [reflexivity|]. split; [|reflexivity].
    intros e He. repeat (apply elem_of_cons in He as [-> | He]; [reflexivity|]).
    apply elem_of_nil in He as [].
  - split; [reflexivity|].
    intros v Hv. repeat (apply elem_of_cons in Hv as [-> | Hv]; [reflexivity|]).
    apply elem_of_nil in Hv as [].
Qed.

(** * Further properties of the monitor *)

(** ** Resuming after a reload *)

(** With nothing under the key, or the empty string, [resumeActiveJob]
    returns at once: no request is evaluated and nothing is written. *)
Theorem resume_without_saved_job (s : State) (r : FetchResult) :
  ls_faulty (localStorage s) = false ->
  (ls_item (localStorage s) = None \/ ls_item (localStorage s) = Some "") ->
  resumeActiveJob r s = (s, Val tt).
Proof.
  intros Hok Hitem.
  unfold resumeActiveJob, resumeActiveJob_reply, localStorage_getItem, bind, get, ret.
  rewrite Hok. destruct Hitem as [-> | ->]; reflexivity.
Qed.

Lemma resume_without_saved_job_witness :
  resumeActiveJob FetchRejects (page_load (mkStorage false None))
  = (page_load (mkStorage false None), Val tt).
Proof.
  apply resume_without_saved_job; [reflexivity | left; reflexivity].
Defined.

Lemma truthy_nonempty (id : string) : id <> "" -> truthy (JStr id) = true.
Proof.
  intros Hne. cbn. destruct (String.eqb_spec id "") as [-> | _];
    [congruence | reflexivity].
Qed.

Lemma resumeActiveJob_decoded s id d :
  ls_faulty (localStorage s) = false ->
  ls_item (localStorage s) = Some id ->
  id <> "" ->
  resumeActiveJob (Response true (Decoded (JsonObj d))) s =
  try_catch
    (if strict_eq (status d) (JStr "running")
        || strict_eq (status d) (JStr "queued") then
       run modify (set_currentJobId (JStr id));
       run showProgress (JStr id);
       run updateProgress (JsonObj d);
       run startSSE (JStr id);
       modify_page (set_submitBtn true "none" "inline-flex")
     else if strict_eq (status d) (JStr "complete") then
       run modify (set_currentJobId (JStr id));
       run showProgress (JStr id);
       run updateProgress (JsonObj d);
       finishSuccess (JsonObj d)
     else if strict_eq (status d) (JStr "error") then
       run modify (set_currentJobId (JStr id));
       run showProgress (JStr id);
       run updateProgress (JsonObj d);
       finishError (JsonObj d)
     else localStorage_removeItem)
    (fun _ => localStorage_removeItem) s.
Proof.
  intros Hok Hitem Hne.
  unfold resumeActiveJob at 1, resumeActiveJob_reply at 1, localStorage_getItem, bind at 1 2, get, ret.
  rewrite Hok, Hitem, (truthy_nonempty _ Hne). reflexivity.
Qed.

Lemma showProgress_eq jobId s :
  showProgress jobId s = (set_page (progress_page jobId (page s)) s, Val tt).
Proof. reflexivity. Qed.

Lemma nonterminal_of_watchable st :
  strict_eq st (JStr "running") || strict_eq st (JStr "queued") = true ->
  is_terminal st = false.
Proof.
  unfold strict_eq. intros H. apply orb_true_iff in H as [H | H];
    apply bool_decide_eq_true in H; subst; reflexivity.
Qed.

(** A reload that finds the job still queued or running ends in the very
    state that a fresh submission of the same job followed by the same
    snapshot on the push source ends in: same page, same channels, same
    store. *)
Theorem resume_like_fresh_submission
    (s : State) (id : string) (d created : Snapshot) :
  ls_faulty (localStorage s) = false ->
  id <> "" ->
  job_id created = JStr id ->
  (status d = JStr "running" \/ status d = JStr "queued") ->
  exec (resumeActiveJob (Response true (Decoded (JsonObj d))))
       (set_localStorage (mkStorage false (Some id)) s)
  = exec (onmessage (length (closures s)) (Decoded (JsonObj d)))
         (exec (handleSubmit true (Response true (Decoded (JsonObj created))))
               s).
Proof.
  intros Hok Hne Hcreated Hst.
  assert (Hw : strict_eq (status d) (JStr "running")
               || strict_eq (status d) (JStr "queued") = true)
    by (destruct Hst as [-> | ->]; reflexivity).
  pose proof (nonterminal_of_watchable _ Hw) as Hnt.
  unfold exec.
  rewrite (resumeActiveJob_decoded _ id d) by (auto; reflexivity).
  rewrite Hw.
  unfold handleSubmit, handleSubmit_reply, onmessage, try_catch, await_fetch, JSON_parse, prop,
    localStorage_setItem, set_retryCount, bind, get, ret, modify_page, modify.
  cbn -[updateProgress startSSE showProgress is_terminal].
  rewrite Hok, Hcreated.
  cbn -[updateProgress startSSE showProgress is_terminal].
  rewrite !showProgress_eq.
  repeat (cbn -[updateProgress startSSE is_terminal];
          first [rewrite startSSE_eq
                |rewrite updateProgress_nonterminal by exact Hnt]).
  cbn -[is_terminal]. rewrite Hnt.
  unfold sources_after_close, intervals_after_stop, set_closures, set_page.
  cbn -[render progress_page].
  replace (alter (fun cl => mkClosure (c_jobId cl) 0) (length (closures s))
             (closures s ++ [mkClosure (JStr id) 0])%list)
    with (closures s ++ [mkClosure (JStr id) 0])%list.
  2:{ replace (length (closures s)) with (length (closures s) + 0)%nat at 1
        by lia.
      rewrite alter_app_r. reflexivity. }
  f_equal. unfold render, progress_page. cbn.
  destruct (truthy (message d)); reflexivity.
Qed.

Lemma resume_like_fresh_submission_witness :
  exec (resumeActiveJob (Response true (Decoded (JsonObj running_transcribe))))
       (set_localStorage (mkStorage false (Some "abc123"))
                         (page_load (mkStorage false None)))
  = exec (onmessage 0 (Decoded (JsonObj running_transcribe)))
         (exec (handleSubmit true
                  (Response true (Decoded (JsonObj created_abc123))))
               (page_load (mkStorage false None))).
Proof.
  apply (resume_like_fresh_submission (page_load (mkStorage false None))
           "abc123" running_transcribe created_abc123).
  - reflexivity.
  - discriminate.
  - reflexivity.
  - left. reflexivity.
Defined.

(** A reload that finds the job already finished applies the outcome at
    once: the success or failure view is shown for the saved id, the
    resume store is emptied, and no source, timer or activation is
    created. *)
Theorem resume_finished_job (s : State) (id : string) (d : Snapshot) :
  ls_faulty (localStorage s) = false ->
  ls_item (localStorage s) = Some id ->
  id <> "" ->
  is_terminal (status d) = true ->
  result (resumeActiveJob (Response true (Decoded (JsonObj d)))) s = Val tt /\
  shown_outcome
    (page (exec (resumeActiveJob (Response true (Decoded (JsonObj d)))) s))
    = outcome_of (JStr id) d /\
  ls_item (localStorage
             (exec (resumeActiveJob (Response true (Decoded (JsonObj d)))) s))
    = None /\
  eventSource (exec (resumeActiveJob (Response true (Decoded (JsonObj d)))) s)
    = None /\
  closures (exec (resumeActiveJob (Response true (Decoded (JsonObj d)))) s)
    = closures s /\
  timeouts (exec (resumeActiveJob (Response true (Decoded (JsonObj d)))) s)
    = timeouts s /\
  length (sources
            (exec (resumeActiveJob (Response true (Decoded (JsonObj d)))) s))
    = length (sources s) /\
  length (intervals
            (exec (resumeActiveJob (Response true (Decoded (JsonObj d)))) s))
    = length (intervals s).
Proof.
  intros Hok Hitem Hne Hterm.
  unfold result, exec. rewrite (resumeActiveJob_decoded _ id d) by assumption.
  unfold is_terminal, strict_eq in Hterm.
  apply orb_true_iff in Hterm as [Hst | Hst]; apply bool_decide_eq_true in Hst;
    rewrite Hst; unfold outcome_of; rewrite Hst.
  - change (strict_eq (JStr "complete") (JStr "running")
            || strict_eq (JStr "complete") (JStr "queued")) with false.
    change (strict_eq (JStr "complete") (JStr "complete")) with true.
    cbv iota. unfold try_catch, bind, modify.
    rewrite showProgress_eq.
    rewrite (updateProgress_complete _ _ Hst) by exact Hok.
    rewrite finishSuccess_ok by reflexivity.
    cbn -[sources_after_close intervals_after_stop].
    repeat split.
    + unfold sources_after_close, close_source. cbn.
      destruct (eventSource s); cbn; rewrite ?length_alter; reflexivity.
    + unfold intervals_after_stop. cbn.
      destruct (pollTimer s); cbn; rewrite ?length_alter; reflexivity.
  - change (strict_eq (JStr "error") (JStr "running")
            || strict_eq (JStr "error") (JStr "queued")) with false.
    change (strict_eq (JStr "error") (JStr "complete")) with false.
    change (strict_eq (JStr "error") (JStr "error")) with true.
    cbv iota. unfold try_catch, bind, modify.
    rewrite showProgress_eq.
    rewrite (updateProgress_error _ _ Hst) by exact Hok.
    rewrite finishError_ok by reflexivity.
    cbn -[sources_after_close].
    repeat split.
    unfold sources_after_close, close_source. cbn.
    destruct (eventSource s); cbn; rewrite ?length_alter; reflexivity.
Qed.

Lemma resume_finished_job_witness :
  shown_outcome
    (page (exec (resumeActiveJob
                   (Response true (Decoded (JsonObj complete_snapshot))))
                reload_with_abc123))
  = Some (Succeeded "done" "/api/download/abc123").
Proof.
  destruct (resume_finished_job reload_with_abc123 "abc123" complete_snapshot)
    as (_ & Hshown & _).
  - reflexivity.
  - reflexivity.
  - discriminate.
  - reflexivity.
  - exact Hshown.
Defined.

(** A reload whose state query is answered with something the monitor
    cannot use (a body that does not decode, [null], or a status that is
    none of queued, running, complete, error) empties the resume store
    and does nothing else. *)
Theorem resume_unusable_reply (s : State) (id : string) (body : Parsed) :
  ls_faulty (localStorage s) = false ->
  ls_item (localStorage s) = Some id ->
  id <> "" ->
  (body = Malformed \/ body = Decoded JsonNull \/
   exists d, body = Decoded (JsonObj d) /\
             status d <> JStr "running" /\ status d <> JStr "queued" /\
             status d <> JStr "complete" /\ status d <> JStr "error") ->
  resumeActiveJob (Response true body) s
  = (set_localStorage (mkStorage false None) s, Val tt).
Proof.
  intros Hok Hitem Hne Hbody.
  destruct Hbody as [-> | [-> | (d & -> & H1 & H2 & H3 & H4)]].
  - unfold resumeActiveJob, resumeActiveJob_reply, localStorage_getItem, localStorage_removeItem,
      try_catch, await_fetch, JSON_parse, bind, get, ret, throw, modify.
    rewrite Hok, Hitem, (truthy_nonempty _ Hne). cbn. rewrite Hok. reflexivity.
  - unfold resumeActiveJob, resumeActiveJob_reply, localStorage_getItem, localStorage_removeItem,
      try_catch, await_fetch, JSON_parse, prop, bind, get, ret, throw, modify.
    rewrite Hok, Hitem, (truthy_nonempty _ Hne). cbn. rewrite Hok. reflexivity.
  - rewrite (resumeActiveJob_decoded _ id d) by assumption.
    unfold strict_eq. rewrite !bool_decide_eq_false_2 by assumption.
    cbn [orb]. unfold try_catch, localStorage_removeItem, bind, get, modify.
    rewrite Hok. reflexivity.
Qed.

Lemma resume_unusable_reply_witness :
  resumeActiveJob (Response true (Decoded JsonNull)) reload_with_abc123
  = (set_localStorage (mkStorage false None) reload_with_abc123, Val tt).
Proof.
  apply (resume_unusable_reply reload_with_abc123 "abc123").
  - reflexivity.
  - reflexivity.
  - discriminate.
  - right. left. reflexivity.
Defined.

(** ** Submitting a job *)

(** When the reply to a submission arrives and says the job was accepted,
    on a working store, a session starts for the id the reply carries, in
    whatever state the page is in by then: the id is the current job and
    is persisted (as a string), the progress view is reset and labelled
    with it, a new activation with a zero counter holds the one new open
    source on [/api/status/<id>], and a new 1500 ms interval is the poll
    timer; the source and the interval that were held are closed and
    cleared.  The button is not written: it stays as it is at that time.
    The id is used as it comes: a reply without [job_id] starts a session
    on "undefined". *)
Theorem submit_starts_session (s : State) (created : Snapshot) :
  ls_faulty (localStorage s) = false ->
  let r := Response true (Decoded (JsonObj created)) in
  let id := job_id created in
  result (handleSubmit_reply r) s = Val tt /\
  currentJobId (exec (handleSubmit_reply r) s) = id /\
  ls_item (localStorage (exec (handleSubmit_reply r) s))
  = Some (to_string id) /\
  closures (exec (handleSubmit_reply r) s)
    = (closures s ++ [mkClosure id 0])%list /\
  eventSource (exec (handleSubmit_reply r) s) = Some (length (sources s)) /\
  sources (exec (handleSubmit_reply r) s)
    = (sources_after_close s
       ++ [mkEventSource ("/api/status/" +:+ to_string id)
                         (length (closures s)) true])%list /\
  pollTimer (exec (handleSubmit_reply r) s) = Some (length (intervals s)) /\
  intervals (exec (handleSubmit_reply r) s)
    = (intervals_after_stop s ++ [mkInterval id 1500 true])%list /\
  timeouts (exec (handleSubmit_reply r) s) = timeouts s /\
  inflight (exec (handleSubmit_reply r) s) = inflight s /\
  page (exec (handleSubmit_reply r) s) = progress_page id (page s).
Proof.
  intros Hok. cbv zeta. unfold result, exec.
  unfold handleSubmit_reply, try_catch, await_fetch, JSON_parse, prop,
    localStorage_setItem, bind, get, ret, modify_page, modify.
  cbn -[startSSE showProgress]. rewrite Hok.
  cbn -[startSSE showProgress]. rewrite showProgress_eq.
  cbn -[startSSE]. rewrite startSSE_eq.
  cbn -[sources_after_close intervals_after_stop progress_page].
  pose proof (length_sources_after_close s) as Hlen.
  assert (Hlen' : length (intervals_after_stop s) = length (intervals s)).
  { unfold intervals_after_stop. destruct (pollTimer s); [|reflexivity].
    apply length_alter. }
  unfold sources_after_close, intervals_after_stop in *. cbn in *.
  rewrite Hlen, Hlen'. repeat split.
Qed.

Lemma submit_starts_session_witness :
  ls_item (localStorage
             (exec (handleSubmit_reply
                      (Response true (Decoded (JsonObj created_abc123))))
                   (deliver watching_abc123 (error_snapshot "disk full"))))
  = Some "abc123" /\
  submitBtn_disabled
    (page (exec (handleSubmit_reply
                   (Response true (Decoded (JsonObj created_abc123))))
                (deliver watching_abc123 (error_snapshot "disk full"))))
  = false.
Proof.
  destruct (submit_starts_session
              (deliver watching_abc123 (error_snapshot "disk full"))
              created_abc123) as (_ & _ & Hitem & _ & _ & _ & _ & _ & _ & _ & Hpage).
  - reflexivity.
  - split; [exact Hitem|]. rewrite Hpage. reflexivity.
Defined.

(** A submission that does not go through changes nothing but the page.
    An invalid URL is dropped before anything is written.  A rejected
    [fetch], a reply whose body does not decode (whatever its status, for
    the body is decoded before the status is looked at) and a [null] body
    show the network-error text; a decoded non-success reply shows its
    [error] field, or a fixed text when it has none.  In every case the
    submit button is released and the store, the current job and both
    channels are as before. *)
Theorem submit_not_accepted (s : State) :
  (forall r, handleSubmit false r s = (s, Val tt)) /\
  (forall r,
      (r = FetchRejects \/
       exists ok, r = Response ok Malformed \/ r = Response ok (Decoded JsonNull)) ->
      handleSubmit true r s
      = (set_page (error_view "Network error. Is the server running?" (page s))
                  s, Val tt)) /\
  (forall d,
      handleSubmit true (Response false (Decoded (JsonObj d))) s
      = (set_page
           (error_view
              (to_string (js_or (error d) (JStr "Failed to start dubbing")))
              (page s)) s, Val tt)).
Proof.
  split; [reflexivity|]. split.
  - intros r [-> | [ok [-> | ->]]]; [reflexivity | reflexivity |].
    destruct ok; reflexivity.
  - intros d. reflexivity.
Qed.

Lemma submit_not_accepted_witness :
  handleSubmit true (Response false Malformed) watching_abc123
  = (set_page (error_view "Network error. Is the server running?"
                          (page watching_abc123)) watching_abc123, Val tt).
Proof.
  destruct (submit_not_accepted watching_abc123) as (_ & Hnet & _).
  apply Hnet. right. exists false. left. reflexivity.
Defined.

(** ** Delivering a snapshot twice *)

Lemma classList_remove_absent tok cl :
  tok ∉ cl -> classList_remove tok cl = cl.
Proof.
  unfold classList_remove. induction cl as [|c cl IH]; intros Hnot.
  - reflexivity.
  - apply not_elem_of_cons in Hnot as [Hne Hnot].
    rewrite filter_cons_True by congruence. rewrite IH by exact Hnot.
    reflexivity.
Qed.

Lemma classList_remove_add_same tok cl :
  classList_remove tok (classList_add tok cl) = classList_remove tok cl.
Proof.
  unfold classList_add. case_bool_decide; [reflexivity|].
  unfold classList_remove. rewrite filter_app.
  rewrite (filter_singleton_False _ _ []) by (intros H'; apply H'; reflexivity).
  apply app_nil_r.
Qed.

Lemma classList_remove_add_other tok tok' cl :
  tok <> tok' ->
  classList_remove tok (classList_add tok' cl)
  = classList_add tok' (classList_remove tok cl).
Proof.
  intros Hne. unfold classList_add.
  rewrite (bool_decide_ext (tok' ∈ classList_remove tok cl) (tok' ∈ cl)).
  2:{ rewrite elem_of_classList_remove. split; [tauto | split; [congruence | tauto]]. }
  case_bool_decide; [reflexivity|].
  unfold classList_remove. rewrite filter_app.
  rewrite (filter_singleton_True _ _ []) by congruence. reflexivity.
Qed.

Lemma classList_remove_remove tok tok' cl :
  tok ∉ classList_remove tok' (classList_remove tok cl).
Proof.
  intros H. apply elem_of_classList_remove in H as [_ H].
  apply elem_of_classList_remove in H as [H _]. congruence.
Qed.

(** The class list with [active] and [done] taken off. *)
Lemma cleaned_absent cl :
  ("active" ∉ classList_remove "done" (classList_remove "active" cl)) /\
  ("done" ∉ classList_remove "done" (classList_remove "active" cl)).
Proof.
  split.
  - apply classList_remove_remove.
  - intros H. apply elem_of_classList_remove in H as [H _]. congruence.
Qed.

Lemma cleaned_again cl tok :
  tok = "active" \/ tok = "done" ->
  classList_remove "done"
    (classList_remove "active"
       (classList_add tok
          (classList_remove "done" (classList_remove "active" cl))))
  = classList_remove "done" (classList_remove "active" cl).
Proof.
  destruct (cleaned_absent cl) as [Ha Hd].
  set (base := classList_remove "done" (classList_remove "active" cl)) in *.
  intros [-> | ->].
  - rewrite classList_remove_add_same, (classList_remove_absent "active") by exact Ha.
    apply classList_remove_absent, Hd.
  - rewrite classList_remove_add_other by discriminate.
    rewrite (classList_remove_absent "active") by exact Ha.
    rewrite classList_remove_add_same. apply classList_remove_absent, Hd.
Qed.

Lemma cleaned_idem cl :
  classList_remove "done"
    (classList_remove "active"
       (classList_remove "done" (classList_remove "active" cl)))
  = classList_remove "done" (classList_remove "active" cl).
Proof.
  destruct (cleaned_absent cl) as [Ha Hd].
  rewrite (classList_remove_absent "active") by exact Ha.
  apply classList_remove_absent, Hd.
Qed.

Ltac simpl_el :=
  cbv zeta;
  cbn [dataset_stage classList stage_status set_classList set_stage_status].

Lemma update_stage_idem idx st el :
  update_stage idx st (update_stage idx st el) = update_stage idx st el.
Proof.
  destruct el as [ds cl label]. unfold update_stage. simpl_el.
  set (p := indexOf STAGE_ORDER ds).
  destruct (p <? idx) eqn:Hlt; simpl_el; fold p; rewrite ?Hlt; simpl_el.
  - rewrite cleaned_again by auto. reflexivity.
  - destruct ((p =? idx) && strict_eq st (JStr "running")) eqn:Hcur;
      simpl_el; fold p; rewrite ?Hlt, ?Hcur; simpl_el.
    + rewrite cleaned_again by auto. reflexivity.
    + rewrite cleaned_idem. reflexivity.
Qed.

Lemma classList_add_add tok cl :
  classList_add tok (classList_add tok cl) = classList_add tok cl.
Proof.
  unfold classList_add at 1.
  rewrite bool_decide_eq_true_2; [reflexivity|].
  apply elem_of_classList_add. auto.
Qed.

Lemma finish_update_stage_idem idx st el :
  strict_eq st (JStr "running") = false ->
  finish_stage (update_stage idx st (finish_stage (update_stage idx st el)))
  = finish_stage (update_stage idx st el).
Proof.
  intros Hst. destruct el as [ds cl label].
  destruct (cleaned_absent cl) as [Ha Hd].
  unfold finish_stage, update_stage. simpl_el. rewrite Hst, andb_false_r.
  set (p := indexOf STAGE_ORDER ds).
  set (base := classList_remove "done" (classList_remove "active" cl)) in *.
  assert (Hstep : classList_remove "done"
                    (classList_remove "active"
                       (classList_add "done" base)) = base).
  { rewrite classList_remove_add_other by discriminate.
    rewrite (classList_remove_absent "active") by exact Ha.
    rewrite classList_remove_add_same. apply classList_remove_absent, Hd. }
  assert (Hact : classList_remove "active" (classList_add "done" base)
                 = classList_add "done" base).
  { rewrite classList_remove_add_other by discriminate.
    rewrite (classList_remove_absent "active") by exact Ha. reflexivity. }
  assert (Hbase : classList_remove "active" base = base)
    by (apply classList_remove_absent, Ha).
  destruct (p <? idx) eqn:Hlt;
    repeat (simpl_el; fold p; rewrite ?Hlt, ?andb_false_r).
  - unfold set_classList, set_stage_status.
    cbn [dataset_stage classList stage_status].
    repeat first [rewrite Hstep | rewrite Hact | rewrite classList_add_add].
    reflexivity.
  - unfold set_classList, set_stage_status.
    cbn [dataset_stage classList stage_status].
    repeat first [rewrite Hstep | rewrite Hbase]. reflexivity.
Qed.

Ltac simpl_page :=
  cbv beta iota zeta delta
    [set_progressSection_display set_jobIdLabel set_progressFill_width
     set_progressText set_statusMessage set_stages
     set_resultSection_display set_resultSuccess_display
     set_resultError_display set_resultMessage set_errorMessage
     set_downloadBtn_href set_submitBtn
     progressSection_display jobIdLabel progressFill_width progressText
     statusMessage stages resultSection_display resultSuccess_display
     resultError_display resultMessage errorMessage downloadBtn_href
     submitBtn_disabled btnText_display btnLoading_display].

Lemma fmap_update_stage_idem idx st (l : list StageEl) :
  update_stage idx st <$> (update_stage idx st <$> l) = update_stage idx st <$> l.
Proof.
  rewrite <- list_fmap_compose. apply list_fmap_ext.
  intros i el _. apply update_stage_idem.
Qed.

Lemma fmap_finish_update_stage_idem idx st (l : list StageEl) :
  strict_eq st (JStr "running") = false ->
  finish_stage <$> (update_stage idx st <$>
                      (finish_stage <$> (update_stage idx st <$> l)))
  = finish_stage <$> (update_stage idx st <$> l).
Proof.
  intros Hst. rewrite <- !list_fmap_compose. apply list_fmap_ext.
  intros i el _. apply (finish_update_stage_idem _ _ _ Hst).
Qed.

Ltac split_width :=
  repeat match goal with
         | |- context [style_width_accepts ?x] =>
             destruct (style_width_accepts x)
         end.

Lemma render_idem d pg : render d (render d pg) = render d pg.
Proof.
  destruct pg. unfold render.
  destruct (truthy (message d)); simpl_page;
    rewrite fmap_update_stage_idem; split_width; reflexivity.
Qed.

Lemma success_page_idem d jobId pg :
  strict_eq (status d) (JStr "running") = false ->
  success_page d jobId (render d (success_page d jobId (render d pg)))
  = success_page d jobId (render d pg).
Proof.
  intros Hst. destruct pg. unfold render, success_page.
  destruct (truthy (message d)); simpl_page;
    rewrite (fmap_finish_update_stage_idem _ _ _ Hst); split_width;
    reflexivity.
Qed.

Lemma error_page_idem d pg :
  error_page d (render d (error_page d (render d pg)))
  = error_page d (render d pg).
Proof.
  destruct pg. unfold render, error_page.
  destruct (truthy (message d)); simpl_page;
    rewrite fmap_update_stage_idem; split_width; reflexivity.
Qed.

(** Delivering the same snapshot a second time changes nothing: the state
    after two deliveries is the state after one.  This holds for every
    snapshot, terminal or not, and on a working or a faulting store; it is
    what makes it harmless that both channels report the same job state. *)
Theorem deliver_idempotent (s : State) (d : Snapshot) :
  deliver (deliver s d) d = deliver s d.
Proof.
  unfold deliver, exec. rewrite !updateProgress_unfold.
  destruct (strict_eq (status d) (JStr "complete")) eqn:Hc.
  - assert (Hrun : strict_eq (status d) (JStr "running") = false).
    { unfold strict_eq in *. apply bool_decide_eq_true in Hc. rewrite Hc.
      reflexivity. }
    destruct (ls_faulty (localStorage s)) eqn:Hf.
    + rewrite (finishSuccess_faulty d (set_page _ s)) by exact Hf.
      cbn [fst]. rewrite finishSuccess_faulty by exact Hf.
      cbn. rewrite render_idem. reflexivity.
    + rewrite (finishSuccess_ok d (set_page _ s)) by exact Hf.
      cbn [fst]. rewrite finishSuccess_ok by reflexivity.
      cbn. rewrite (success_page_idem _ _ _ Hrun). reflexivity.
  - destruct (strict_eq (status d) (JStr "error")) eqn:He.
    + destruct (ls_faulty (localStorage s)) eqn:Hf.
      * rewrite (finishError_faulty _ (set_page _ s)) by exact Hf.
        cbn [fst]. rewrite finishError_faulty by exact Hf.
        cbn. rewrite render_idem. reflexivity.
      * rewrite (finishError_ok d (set_page _ s)) by exact Hf.
        cbn [fst]. rewrite finishError_ok by reflexivity.
        cbn. rewrite error_page_idem. reflexivity.
    + cbn. rewrite render_idem. reflexivity.
Qed.

(** ** What the channel callbacks leave alone *)

(** A snapshot that is not terminal only repaints: delivered by the poll
    callback it changes nothing but the page; delivered on the push source
    it changes the page and resets the counter of the source's activation.
    The store, the current job, every source, every timer and every
    interval are as before, and neither callback throws. *)
Theorem nonterminal_snapshot_only_repaints
    (s : State) (c : nat) (d : Snapshot) :
  is_terminal (status d) = false ->
  poll_callback (Response true (Decoded (JsonObj d))) s
    = (set_page (render d (page s)) s, Val tt) /\
  onmessage c (Decoded (JsonObj d)) s
    = (set_page (render d (page s))
         (set_closures
            (alter (fun cl => mkClosure (c_jobId cl) 0) c (closures s)) s),
       Val tt).
Proof.
  intros Hnt. split.
  - unfold poll_callback, try_catch, await_fetch, JSON_parse, prop, bind.
    cbn -[updateProgress is_terminal].
    rewrite updateProgress_nonterminal by exact Hnt.
    cbn -[is_terminal]. rewrite Hnt. reflexivity.
  - unfold onmessage, try_catch, set_retryCount, JSON_parse, prop, bind, modify.
    cbn -[updateProgress is_terminal].
    rewrite updateProgress_nonterminal by exact Hnt.
    cbn -[is_terminal]. rewrite Hnt. reflexivity.
Qed.

Lemma nonterminal_snapshot_only_repaints_witness :
  poll_callback (Response true (Decoded (JsonObj running_transcribe)))
                watching_abc123
  = (set_page (render running_transcribe (page watching_abc123))
              watching_abc123, Val tt).
Proof.
  destruct (nonterminal_snapshot_only_repaints watching_abc123 0
              running_transcribe) as [Hpoll _].
  - reflexivity.
  - exact Hpoll.
Defined.

(** Input that carries no snapshot is dropped.  A poll request that is
    rejected, answered with a non-success status, or answered with a body
    that does not decode or decodes to [null] leaves the state exactly as it
    was, so the timer keeps ticking.  A push message that does not decode,
    or decodes to [null], resets the counter of its activation and nothing
    else, so the source stays open.  Neither callback throws. *)
Theorem input_without_snapshot_is_dropped (s : State) (c : nat) :
  (forall r,
      (r = FetchRejects \/ (exists body, r = Response false body) \/
       r = Response true Malformed \/ r = Response true (Decoded JsonNull)) ->
      poll_callback r s = (s, Val tt)) /\
  (forall event_data,
      (event_data = Malformed \/ event_data = Decoded JsonNull) ->
      onmessage c event_data s
      = (set_closures
           (alter (fun cl => mkClosure (c_jobId cl) 0) c (closures s)) s,
         Val tt)).
Proof.
  split.
  - intros r [-> | [[body ->] | [-> | ->]]]; reflexivity.
  - intros event_data [-> | ->]; reflexivity.
Qed.

Lemma input_without_snapshot_is_dropped_witness :
  poll_callback (Response true Malformed) watching_abc123
  = (watching_abc123, Val tt).
Proof.
  destruct (input_without_snapshot_is_dropped watching_abc123 0) as [Hpoll _].
  apply Hpoll. right. right. left. reflexivity.
Defined.

(** ** The teardown written in [onmessage] *)

(** [onmessage] is its first three statements: by the time its own
    teardown is reached, [updateProgress] has run [finishSuccess] or
    [finishError], which leave [eventSource] null, so the
    [eventSource.close()] of the teardown throws into the handler's own
    [catch]; and when the store faults, [updateProgress] has thrown
    already. *)
Lemma onmessage_eq c event_data s :
  onmessage c event_data s
  = try_catch
      (run set_retryCount c 0;
       do data <- JSON_parse event_data;
       updateProgress data)
      (fun _ => ret tt) s.
Proof.
  unfold onmessage, try_catch, bind, set_retryCount, modify, JSON_parse, prop.
  destruct event_data as [|[|d]]; [reflexivity | reflexivity |].
  cbn -[updateProgress is_terminal].
  rewrite !updateProgress_unfold. unfold is_terminal.
  destruct (strict_eq (status d) (JStr "complete")).
  - destruct (ls_faulty (localStorage s)) eqn:Hf.
    + rewrite !finishSuccess_faulty by exact Hf. reflexivity.
    + rewrite !finishSuccess_ok by exact Hf. reflexivity.
  - destruct (strict_eq (status d) (JStr "error")).
    + destruct (ls_faulty (localStorage s)) eqn:Hf.
      * rewrite !finishError_faulty by exact Hf. reflexivity.
      * rewrite !finishError_ok by exact Hf. reflexivity.
    + reflexivity.
Qed.

(** ** Invariants of the event loop *)

Lemma keeps_release (P : State -> Prop) :
  keeps P eventSource_close ->
  (forall s, P s -> P (set_eventSource None s)) ->
  keeps P close_eventSource_if_open.
Proof.
  intros Hclose Hnull. unfold close_eventSource_if_open.
  apply keeps_get_bind. intros s Hs.
  destruct (bool_decide (is_Some (eventSource s))); [|exact Hs].
  refine (keeps_bind P _ _ Hclose _ s Hs).
  intros _. apply keeps_modify. exact Hnull.
Qed.

(** A property kept by the few places that write the channel state is
    kept by every callback, hence by every turn of the event loop. *)
Section Loop_invariant.
Context (P : State -> Prop).
Hypothesis P_page : forall s x, P s -> P (set_page x s).
Hypothesis P_store : forall s x, P s -> P (set_localStorage x s).
Hypothesis P_job : forall s x, P s -> P (set_currentJobId x s).
Hypothesis P_inflight : forall s n, P s -> P (set_inflight n s).
Hypothesis P_release : keeps P close_eventSource_if_open.
Hypothesis P_stop : keeps P stopPolling.
Hypothesis P_retry : forall c n, keeps P (set_retryCount c n).
Hypothesis P_startSSE : forall jobId, keeps P (startSSE jobId).
Hypothesis P_onerror :
  forall s src e,
    P s -> sources s !! src = Some e -> es_open e = true ->
    P (exec (onerror (es_closure e)) s).
Hypothesis P_timer :
  forall s k t,
    P s -> timeouts s !! k = Some t ->
    P (exec (connect (to_closure t)) (set_timeouts (delete k (timeouts s)) s)).

Ltac inv_step :=
  lazymatch goal with
  | |- keeps _ (bind _ _) => apply keeps_bind; [|intros ?]
  | |- keeps _ (try_catch _ _) => apply keeps_try_catch; [|intros ?]
  | |- keeps _ (ret _) => apply keeps_ret
  | |- keeps _ (throw _) => apply keeps_throw
  | |- keeps _ get => apply keeps_get
  | |- keeps _ (modify_page _) =>
      apply keeps_modify; intros ? ?; apply P_page; assumption
  | |- keeps _ (modify (set_localStorage _)) =>
      apply keeps_modify; intros ? ?; apply P_store; assumption
  | |- keeps _ (modify (set_currentJobId _)) =>
      apply keeps_modify; intros ? ?; apply P_job; assumption
  | |- keeps _ (if ?b then _ else _) => destruct b
  | |- keeps _ (match ?x with _ => _ end) => destruct x
  | |- keeps _ _ => solve [eauto 4]
  end.

Ltac inv_auto := repeat inv_step.

Lemma inv_getItem : keeps P localStorage_getItem.
Proof. unfold localStorage_getItem. inv_auto. Qed.

Lemma inv_setItem v : keeps P (localStorage_setItem v).
Proof. unfold localStorage_setItem. inv_auto. Qed.

Lemma inv_removeItem : keeps P localStorage_removeItem.
Proof. unfold localStorage_removeItem. inv_auto. Qed.

Lemma inv_resetSubmitBtn : keeps P resetSubmitBtn.
Proof. unfold resetSubmitBtn. inv_auto. Qed.

Lemma inv_prop f data : keeps P (prop f data).
Proof. unfold prop. inv_auto. Qed.

Lemma inv_showProgress jobId : keeps P (showProgress jobId).
Proof. unfold showProgress. inv_auto. Qed.

Lemma inv_showError msg : keeps P (showError msg).
Proof. unfold showError. inv_auto. Qed.

Lemma inv_finishSuccess data : keeps P (finishSuccess data).
Proof.
  pose proof inv_removeItem. pose proof inv_prop.
  pose proof inv_resetSubmitBtn.
  unfold finishSuccess. inv_auto.
Qed.

Lemma inv_finishError data : keeps P (finishError data).
Proof.
  pose proof inv_removeItem. pose proof inv_prop.
  pose proof inv_resetSubmitBtn.
  unfold finishError. inv_auto.
Qed.

Lemma inv_updateProgress data : keeps P (updateProgress data).
Proof.
  pose proof inv_finishSuccess. pose proof inv_finishError.
  pose proof inv_prop.
  unfold updateProgress. inv_auto.
Qed.

Lemma inv_resetForm : keeps P resetForm.
Proof.
  pose proof inv_removeItem. pose proof inv_resetSubmitBtn.
  unfold resetForm. inv_auto.
Qed.

Lemma inv_poll_callback r : keeps P (poll_callback r).
Proof.
  pose proof inv_updateProgress. pose proof inv_prop.
  unfold poll_callback, await_fetch, JSON_parse. inv_auto.
Qed.

Lemma inv_onmessage c event_data : keeps P (onmessage c event_data).
Proof.
  pose proof inv_updateProgress.
  assert (Hbody : keeps P (try_catch
                             (run set_retryCount c 0;
                              do data <- JSON_parse event_data;
                              updateProgress data)
                             (fun _ => ret tt)))
    by (unfold JSON_parse; inv_auto).
  intros s Hs. rewrite onmessage_eq. exact (Hbody s Hs).
Qed.

(** Each part of an [async] handler keeps the property on its own, so it
    holds whatever runs between a request and its reply. *)
Lemma inv_handleSubmit_reply r : keeps P (handleSubmit_reply r).
Proof.
  pose proof inv_showError. pose proof inv_showProgress.
  pose proof inv_resetSubmitBtn. pose proof inv_setItem. pose proof inv_prop.
  unfold handleSubmit_reply, await_fetch, JSON_parse. inv_auto.
Qed.

Lemma inv_handleSubmit valid r : keeps P (handleSubmit valid r).
Proof.
  pose proof inv_handleSubmit_reply.
  unfold handleSubmit. inv_auto.
Qed.

Lemma inv_resumeActiveJob_reply savedJobId r :
  keeps P (resumeActiveJob_reply savedJobId r).
Proof.
  pose proof inv_showProgress. pose proof inv_removeItem.
  pose proof inv_updateProgress. pose proof inv_finishSuccess.
  pose proof inv_finishError. pose proof inv_prop.
  unfold resumeActiveJob_reply, await_fetch, JSON_parse. inv_auto.
Qed.

Lemma inv_resumeActiveJob r : keeps P (resumeActiveJob r).
Proof.
  pose proof inv_getItem. pose proof inv_resumeActiveJob_reply.
  unfold resumeActiveJob. inv_auto.
Qed.

Lemma inv_step ev s s' : P s -> step ev s = Some s' -> P s'.
Proof.
  intros Hs Hstep.
  destruct ev as [src event_data | src | k | i | r | valid r | r | ];
    cbn [step] in Hstep.
  - destruct (sources s !! src) as [e|]; [|discriminate].
    destruct (es_open e); [|discriminate].
    injection Hstep as <-. apply inv_onmessage, Hs.
  - destruct (sources s !! src) as [e|] eqn:He; [|discriminate].
    destruct (es_open e) eqn:Hopen; [|discriminate].
    injection Hstep as <-. exact (P_onerror _ _ _ Hs He Hopen).
  - destruct (timeouts s !! k) as [t|] eqn:Ht; [|discriminate].
    injection Hstep as <-. exact (P_timer _ _ _ Hs Ht).
  - destruct (intervals s !! i) as [v|]; [|discriminate].
    destruct (iv_active v); [|discriminate].
    injection Hstep as <-. apply P_inflight, Hs.
  - destruct (inflight s) as [|n]; [discriminate|].
    injection Hstep as <-.
    apply (inv_poll_callback r (set_inflight n s)), P_inflight, Hs.
  - injection Hstep as <-. apply inv_handleSubmit, Hs.
  - injection Hstep as <-. apply inv_resumeActiveJob, Hs.
  - injection Hstep as <-. apply inv_resetForm, Hs.
Qed.

Lemma inv_run_events evs s s' : P s -> run_events evs s = Some s' -> P s'.
Proof.
  revert s. induction evs as [|ev evs IH]; intros s Hs Hrun; cbn in Hrun.
  - injection Hrun as <-. exact Hs.
  - destruct (step ev s) as [s1|] eqn:Hstep; [|discriminate].
    exact (IH s1 (inv_step _ _ _ Hs Hstep) Hrun).
Qed.
End Loop_invariant.

(** *** What the channel writes amount to *)

Lemma eventSource_close_cases s :
  (eventSource s = None /\ eventSource_close s = (s, Throw TypeError)) \/
  (exists i, eventSource s = Some i /\
             eventSource_close s
             = (set_sources (close_source i (sources s)) s, Val tt)).
Proof.
  unfold eventSource_close, bind, get.
  destruct (eventSource s) as [i|]; [right; exists i | left]; auto.
Qed.

Lemma stopPolling_eq s :
  stopPolling s
  = (set_pollTimer None (set_intervals (intervals_after_stop s) s), Val tt).
Proof.
  unfold stopPolling, clearInterval, intervals_after_stop, bind, get, modify.
  destruct s as [ls cj es pt cls srcs tos ivs inf pg]. cbn.
  destruct pt; reflexivity.
Qed.

(** [onerror] either throws at once, on a null [eventSource], and leaves
    the state as it is, or closes the source the variable holds, nulls the
    variable, counts the failure and may schedule a reconnection. *)
Lemma onerror_cases c s :
  (eventSource s = None /\ exec (onerror c) s = s) \/
  (exists i delay,
      eventSource s = Some i /\
      exec (onerror c) s
      = set_timeouts (timeouts s ++ delay)
          (set_closures
             (alter (fun cl0 => mkClosure (c_jobId cl0) (retryCount_of c s + 1))
                    c (closures s))
             (set_eventSource None
                (set_sources (close_source i (sources s)) s))) /\
      (delay = [] \/ delay = [mkTimeout c 2000])).
Proof.
  unfold exec, onerror, eventSource_close, get_retryCount, set_retryCount,
    setTimeout_connect, retryCount_of, bind, get, ret, modify.
  destruct (eventSource s) as [i|]; [right | left; auto].
  cbn.
  match goal with |- context [if ?b then _ else _] => destruct b end; cbn.
  - exists i, [mkTimeout c 2000]. auto.
  - exists i, []. rewrite app_nil_r. auto.
Qed.

(** *** References never dangle *)

Lemma well_formed_page_load store : well_formed (page_load store).
Proof.
  unfold well_formed. cbn.
  repeat split; try apply Forall_nil_2; intros i [=].
Qed.

Lemma well_formed_close s i :
  well_formed s -> well_formed (set_sources (close_source i (sources s)) s).
Proof.
  unfold well_formed, close_source. cbn. intros (Hsrc & Hto & Hes & Hpt).
  rewrite length_alter. repeat split; auto.
  apply Forall_alter; [exact Hsrc|]. intros e _ He. exact He.
Qed.

Lemma well_formed_retry s c n :
  well_formed s ->
  well_formed
    (set_closures (alter (fun cl => mkClosure (c_jobId cl) n) c (closures s)) s).
Proof.
  unfold well_formed. cbn. rewrite length_alter. exact id.
Qed.

Lemma well_formed_connect s c :
  (c < length (closures s))%nat ->
  well_formed s -> well_formed (exec (connect c) s).
Proof.
  intros Hc (Hsrc & Hto & Hes & Hpt). unfold exec. rewrite connect_eq.
  unfold well_formed. cbn. rewrite length_app. cbn.
  repeat split; auto.
  - apply Forall_app. split; [exact Hsrc|]. apply Forall_singleton. exact Hc.
  - intros i [= <-]. lia.
Qed.

Lemma well_formed_startSSE jobId : keeps well_formed (startSSE jobId).
Proof.
  intros s (Hsrc & Hto & Hes & Hpt). rewrite startSSE_eq.
  unfold well_formed. cbn. rewrite !length_app. cbn.
  repeat split.
  - apply Forall_app. split.
    + apply (sources_after_close_owner
               (fun c => (c < length (closures s) + 1)%nat)).
      eapply Forall_impl; [exact Hsrc|]. cbn. intros; lia.
    + apply Forall_singleton. cbn. lia.
  - eapply Forall_impl; [exact Hto|]. cbn. intros; lia.
  - intros i [= <-]. lia.
  - intros i [= <-]. lia.
Qed.

Theorem well_formed_step (ev : Event) (s s' : State) :
  well_formed s -> step ev s = Some s' -> well_formed s'.
Proof.
  apply (inv_step well_formed).
  - intros s0 x H. exact H.
  - intros s0 x H. exact H.
  - intros s0 x H. exact H.
  - intros s0 n H. exact H.
  - apply keeps_release.
    + intros s0 H.
      destruct (eventSource_close_cases s0) as [[_ ->] | (i & _ & ->)];
        [exact H | apply well_formed_close, H].
    + intros s0 (Hsrc & Hto & Hes & Hpt). unfold well_formed. cbn.
      repeat split; auto. intros i [=].
  - intros s0 (Hsrc & Hto & Hes & Hpt). rewrite stopPolling_eq.
    unfold well_formed. cbn. repeat split; auto. intros i [=].
  - intros c n s0 H. apply well_formed_retry, H.
  - apply well_formed_startSSE.
  - intros s0 src e H He _.
    assert (Hc : (es_closure e < length (closures s0))%nat)
      by exact (Forall_lookup_1 _ _ _ _ (proj1 H) He).
    destruct (onerror_cases (es_closure e) s0)
      as [[_ ->] | (i & delay & _ & -> & Hdelay)]; [exact H|].
    pose proof (well_formed_retry _ (es_closure e)
                  (retryCount_of (es_closure e) s0 + 1)
                  (well_formed_close _ i H)) as (Hsrc & Hto & Hes & Hpt).
    unfold well_formed in *. cbn in *.
    repeat split; auto; [|intros j [=]].
    apply Forall_app. split; [exact Hto|].
    destruct Hdelay as [-> | ->]; [apply Forall_nil_2|].
    apply Forall_singleton. cbn. rewrite length_alter. exact Hc.
  - intros s0 k t H Ht.
    assert (Hc : (to_closure t < length (closures s0))%nat)
      by exact (Forall_lookup_1 _ _ _ _ (proj1 (proj2 H)) Ht).
    apply well_formed_connect; [exact Hc|].
    destruct H as (Hsrc & Hto & Hes & Hpt). unfold well_formed. cbn.
    repeat split; auto. apply Forall_delete, Hto.
Qed.

(** Every state the page can reach is well formed. *)
Theorem reachable_well_formed (s : State) : reachable s -> well_formed s.
Proof.
  intros (store & evs & Hrun). revert Hrun.
  generalize (well_formed_page_load store). generalize (page_load store).
  induction evs as [|ev evs IH]; intros s0 H0 Hrun; cbn in Hrun.
  - injection Hrun as <-. exact H0.
  - destruct (step ev s0) as [s1|] eqn:Hstep; [|discriminate].
    exact (IH s1 (well_formed_step _ _ _ H0 Hstep) Hrun).
Qed.

Lemma reachable_well_formed_witness : well_formed watching_abc123.
Proof.
  apply reachable_well_formed.
  exists (mkStorage false None), [Submit true abc123_created].
  vm_compute. reflexivity.
Defined.

(** *** One poll loop at a time *)

Lemma single_poll_frame s s' :
  intervals s' = intervals s -> pollTimer s' = pollTimer s ->
  single_poll s -> single_poll s'.
Proof. unfold single_poll. intros -> ->. exact id. Qed.

(** Under the invariant, what [stopPolling] leaves behind has no active
    registration at all. *)
Lemma intervals_after_stop_inactive s :
  single_poll s ->
  Forall (fun v => iv_active v = false) (intervals_after_stop s).
Proof.
  intros Hinv. apply Forall_lookup. intros j v Hj.
  destruct (iv_active v) eqn:Hact; [exfalso|reflexivity].
  unfold intervals_after_stop in Hj.
  destruct (pollTimer s) as [i|] eqn:Hpt.
  - destruct (decide (i = j)) as [<- | Hne].
    + rewrite list_lookup_alter_eq in Hj.
      destruct (intervals s !! i); cbn in Hj; [|discriminate].
      injection Hj as <-. discriminate.
    + rewrite list_lookup_alter_ne in Hj by exact Hne.
      specialize (Hinv _ _ Hj Hact). congruence.
  - specialize (Hinv _ _ Hj Hact). congruence.
Qed.

Lemma single_poll_of_inactive s :
  Forall (fun v => iv_active v = false) (intervals s) -> single_poll s.
Proof.
  intros Hall i v Hi Hact.
  pose proof (Forall_lookup_1 _ _ _ _ Hall Hi) as Hoff. cbn in Hoff. congruence.
Qed.

Lemma single_poll_stopPolling : keeps single_poll stopPolling.
Proof.
  intros s Hinv. rewrite stopPolling_eq. cbn [fst].
  apply single_poll_of_inactive. cbn.
  apply intervals_after_stop_inactive, Hinv.
Qed.

Lemma single_poll_startSSE jobId : keeps single_poll (startSSE jobId).
Proof.
  intros s Hinv. rewrite startSSE_eq. unfold single_poll. cbn.
  intros i v Hi Hact.
  apply lookup_app_Some in Hi as [Hi | [Hge Hi]].
  - pose proof (Forall_lookup_1 _ _ _ _
                  (intervals_after_stop_inactive s Hinv) Hi) as Hoff.
    cbn in Hoff. congruence.
  - pose proof (lookup_lt_Some _ _ _ Hi) as Hlt. cbn in Hlt.
    f_equal. lia.
Qed.

Theorem single_poll_step (ev : Event) (s s' : State) :
  single_poll s -> step ev s = Some s' -> single_poll s'.
Proof.
  apply (inv_step single_poll).
  - intros s0 x H. exact H.
  - intros s0 x H. exact H.
  - intros s0 x H. exact H.
  - intros s0 n H. exact H.
  - apply keeps_release.
    + intros s0 H.
      destruct (eventSource_close_cases s0) as [[_ ->] | (i & _ & ->)]; exact H.
    + intros s0 H. exact H.
  - apply single_poll_stopPolling.
  - intros c n s0 H. exact H.
  - apply single_poll_startSSE.
  - intros s0 src e H _ _.
    destruct (onerror_cases (es_closure e) s0)
      as [[_ ->] | (i & delay & _ & -> & _)]; exact H.
  - intros s0 k t H _. exact H.
Qed.

Lemma single_poll_of_reachable (s : State) : reachable s -> single_poll s.
Proof.
  intros (store & evs & Hrun). revert Hrun.
  assert (H0 : single_poll (page_load store)) by (intros i v [=]).
  revert H0. generalize (page_load store).
  induction evs as [|ev evs IH]; intros s0 H0 Hrun; cbn in Hrun.
  - injection Hrun as <-. exact H0.
  - destruct (step ev s0) as [s1|] eqn:Hstep; [|discriminate].
    exact (IH s1 (single_poll_step _ _ _ H0 Hstep) Hrun).
Qed.

(** In every state the page can reach, at most one poll loop is running,
    and [pollTimer] holds it: no [setInterval] registration is ever left
    behind without a handle. *)
Theorem reachable_single_poll (s : State) : reachable s -> single_poll s.
Proof. apply single_poll_of_reachable. Qed.

Lemma reachable_single_poll_witness : single_poll watching_abc123.
Proof.
  apply reachable_single_poll.
  exists (mkStorage false None), [Submit true abc123_created].
  vm_compute. reflexivity.
Defined.

(** In a reachable state [stopPolling] stops all polling, and so does the
    delivery of a [complete] snapshot on a working store: afterwards no
    timer is held and no registration is active. *)
Theorem reachable_stopPolling_stops (s : State) (d : Snapshot) :
  reachable s ->
  poll_stopped (exec stopPolling s) /\
  (ls_faulty (localStorage s) = false -> status d = JStr "complete" ->
   poll_stopped (deliver s d)).
Proof.
  intros Hinv%single_poll_of_reachable.
  pose proof (intervals_after_stop_inactive s Hinv) as Hoff.
  rewrite Forall_forall in Hoff. split.
  - unfold exec. rewrite stopPolling_eq. split; [reflexivity|]. exact Hoff.
  - intros Hok Hst. unfold deliver, exec.
    rewrite (updateProgress_complete _ _ Hst Hok).
    split; [reflexivity|]. exact Hoff.
Qed.

Lemma reachable_stopPolling_stops_witness :
  poll_stopped (deliver watching_abc123 complete_snapshot).
Proof.
  destruct (reachable_stopPolling_stops watching_abc123 complete_snapshot)
    as [_ Hdone].
  - exists (mkStorage false None), [Submit true abc123_created].
    vm_compute. reflexivity.
  - apply Hdone; reflexivity.
Defined.

(** *** Closing is final *)

Lemma grown_from_refl s : grown_from s s.
Proof. split; intros i x Hx; exists x; auto. Qed.

Lemma grown_from_trans s1 s2 s3 :
  grown_from s1 s2 -> grown_from s2 s3 -> grown_from s1 s3.
Proof.
  intros [Hs12 Hi12] [Hs23 Hi23]. split.
  - intros i e He. destruct (Hs12 _ _ He) as (e2 & He2 & Hu2 & Hc2 & Ho2).
    destruct (Hs23 _ _ He2) as (e3 & He3 & Hu3 & Hc3 & Ho3).
    exists e3. repeat split; [exact He3 | congruence | congruence | auto].
  - intros i v Hv. destruct (Hi12 _ _ Hv) as (v2 & Hv2 & Hj2 & Hp2 & Ha2).
    destruct (Hi23 _ _ Hv2) as (v3 & Hv3 & Hj3 & Hp3 & Ha3).
    exists v3. repeat split; [exact Hv3 | congruence | congruence | auto].
Qed.

Lemma grown_sources_close i (l : list EventSourceObj) j e :
  l !! j = Some e ->
  exists e', close_source i l !! j = Some e' /\
             es_url e' = es_url e /\ es_closure e' = es_closure e /\
             (es_open e' = true -> es_open e = true).
Proof.
  intros He. unfold close_source. destruct (decide (i = j)) as [-> | Hne].
  - rewrite list_lookup_alter_eq, He. cbn. eexists. split; [reflexivity|].
    cbn. repeat split. discriminate.
  - rewrite list_lookup_alter_ne by exact Hne. exists e. auto.
Qed.

Lemma grown_sources_after_close s j e :
  sources s !! j = Some e ->
  exists e', sources_after_close s !! j = Some e' /\
             es_url e' = es_url e /\ es_closure e' = es_closure e /\
             (es_open e' = true -> es_open e = true).
Proof.
  intros He. unfold sources_after_close.
  destruct (eventSource s); [apply grown_sources_close, He | exists e; auto].
Qed.

Lemma grown_intervals_after_stop s j v :
  intervals s !! j = Some v ->
  exists v', intervals_after_stop s !! j = Some v' /\
             iv_jobId v' = iv_jobId v /\ iv_period v' = iv_period v /\
             (iv_active v' = true -> iv_active v = true).
Proof.
  intros Hv. unfold intervals_after_stop.
  destruct (pollTimer s) as [i|]; [|exists v; auto].
  destruct (decide (i = j)) as [-> | Hne].
  - rewrite list_lookup_alter_eq, Hv. cbn. eexists. split; [reflexivity|].
    cbn. repeat split. discriminate.
  - rewrite list_lookup_alter_ne by exact Hne. exists v. auto.
Qed.

Lemma grown_from_frame s s' :
  sources s' = sources s -> intervals s' = intervals s -> grown_from s s'.
Proof.
  intros Hs Hi. unfold grown_from. rewrite Hs, Hi. apply grown_from_refl.
Qed.

Lemma grown_from_kept s0 s s' :
  grown_from s s' -> grown_from s0 s -> grown_from s0 s'.
Proof. intros H1 H0. exact (grown_from_trans _ _ _ H0 H1). Qed.

(** No turn of the event loop removes, moves or reopens anything: every
    source and every interval registration stays at its place with its
    URL, owner, job and period, and one that is closed or cleared never
    becomes open or active again. *)
Theorem step_grows (ev : Event) (s s' : State) :
  step ev s = Some s' -> grown_from s s'.
Proof.
  intros Hstep.
  refine (inv_step (grown_from s) _ _ _ _ _ _ _ _ _ _ ev s s'
            (grown_from_refl s) Hstep).
  - intros s0 x. apply grown_from_kept, grown_from_frame; reflexivity.
  - intros s0 x. apply grown_from_kept, grown_from_frame; reflexivity.
  - intros s0 x. apply grown_from_kept, grown_from_frame; reflexivity.
  - intros s0 n. apply grown_from_kept, grown_from_frame; reflexivity.
  - apply keeps_release.
    + intros s0. apply grown_from_kept.
      destruct (eventSource_close_cases s0) as [[_ ->] | (i & _ & ->)];
        [apply grown_from_refl|].
      split; [|intros j v Hv; exists v; auto].
      intros j e He. apply grown_sources_close, He.
    + intros s0. apply grown_from_kept, grown_from_frame; reflexivity.
  - intros s0. apply grown_from_kept. rewrite stopPolling_eq.
    split; [intros j e He; exists e; auto|].
    intros j v Hv. apply grown_intervals_after_stop, Hv.
  - intros c n s0. apply grown_from_kept, grown_from_frame; reflexivity.
  - intros jobId s0. apply grown_from_kept. rewrite startSSE_eq. split; cbn.
    + intros j e He.
      destruct (grown_sources_after_close _ _ _ He) as (e' & He' & Hrest).
      exists e'. split; [apply lookup_app_l_Some, He' | exact Hrest].
    + intros j v Hv.
      destruct (grown_intervals_after_stop _ _ _ Hv) as (v' & Hv' & Hrest).
      exists v'. split; [apply lookup_app_l_Some, Hv' | exact Hrest].
  - intros s0 src e H0 _ _. revert H0. apply grown_from_kept.
    destruct (onerror_cases (es_closure e) s0)
      as [[_ ->] | (i & delay & _ & -> & _)]; [apply grown_from_refl|].
    split; [|intros j v Hv; exists v; auto].
    intros j e0 He0. apply grown_sources_close, He0.
  - intros s0 k t H0 _. revert H0. apply grown_from_kept.
    unfold exec. rewrite connect_eq. split; cbn.
    + intros j e He. exists e. split; [apply lookup_app_l_Some, He | auto].
    + intros j v Hv. exists v. auto.
Qed.

(** However many turns the event loop takes, the sources and the interval
    registrations only grow: each one stays at its place with its URL,
    owner, job and period, and a source that was closed or a registration
    that was cleared is never open or active again. *)
Theorem run_events_grows (evs : list Event) (s s' : State) :
  run_events evs s = Some s' -> grown_from s s'.
Proof.
  revert s. induction evs as [|ev evs IH]; intros s Hrun; cbn in Hrun.
  - injection Hrun as <-. apply grown_from_refl.
  - destruct (step ev s) as [s1|] eqn:Hstep; [|discriminate].
    exact (grown_from_trans _ _ _ (step_grows _ _ _ Hstep) (IH _ Hrun)).
Qed.

Lemma run_events_grows_witness :
  grown_from watching_abc123
    (exec (onerror 0) watching_abc123).
Proof.
  apply (run_events_grows [EsError 0]). reflexivity.
Defined.

(** ** URL validation *)

Lemma string_app_assoc (a b c : string) : (a +:+ b) +:+ c = a +:+ (b +:+ c).
Proof. induction a as [|x a IH]; [reflexivity | exact (f_equal (String x) IH)]. Qed.

Lemma strip_prefix_spec p s r : strip_prefix p s = Some r <-> s = p +:+ r.
Proof.
  revert s. induction p as [|a p IH]; intros s; cbn.
  - split; [intros [= ->] | intros ->]; reflexivity.
  - destruct s as [|b s]; [split; discriminate|].
    destruct (Ascii.eqb_spec a b) as [-> | Hne].
    + rewrite IH. split; [intros -> | intros [= ->]]; reflexivity.
    + split; [discriminate | intros [= -> _]; congruence].
Qed.

(** The matcher leaves [rest] exactly when the text in front of [rest] is
    one of the words of the expression. *)
Lemma rest_after_spec r s rest :
  rest ∈ rest_after r s <-> exists p, p ∈ words r /\ s = p +:+ rest.
Proof.
  revert s rest. induction r as [p | r1 IH1 r2 IH2 | r1 IH1 r2 IH2 | r1 IH1];
    intros s rest; cbn [rest_after words].
  - destruct (strip_prefix p s) as [s'|] eqn:Hp.
    + apply strip_prefix_spec in Hp. rewrite list_elem_of_singleton. split.
      * intros ->. exists p. split; [apply list_elem_of_singleton; reflexivity | exact Hp].
      * intros (q & ->%list_elem_of_singleton & Hq). subst s.
        apply strip_prefix_spec in Hq.
        rewrite (proj2 (strip_prefix_spec p (p +:+ s') s') eq_refl) in Hq.
        congruence.
    + split; [intros H; apply elem_of_nil in H as []|].
      intros (q & ->%list_elem_of_singleton & Hq).
      apply strip_prefix_spec in Hq. congruence.
  - rewrite list_elem_of_bind. split.
    + intros (s' & Hrest & Hs').
      apply IH1 in Hs' as (a & Ha & ->). apply IH2 in Hrest as (b & Hb & ->).
      exists (a +:+ b). split; [|symmetry; apply string_app_assoc].
      apply list_elem_of_bind. exists a. split; [|exact Ha].
      apply list_elem_of_fmap. exists b. auto.
    + intros (p & Hp & ->).
      apply list_elem_of_bind in Hp as (a & Hp & Ha).
      apply list_elem_of_fmap in Hp as (b & -> & Hb).
      exists (b +:+ rest). split.
      * apply IH2. exists b. auto.
      * apply IH1. exists a. split; [exact Ha | apply string_app_assoc].
  - rewrite elem_of_app, IH1, IH2. split.
    + intros [(p & Hp & ->) | (p & Hp & ->)]; exists p;
        (split; [apply elem_of_app; auto | reflexivity]).
    + intros (p & [Hp | Hp]%elem_of_app & ->); [left | right]; exists p; auto.
  - rewrite elem_of_app, IH1, list_elem_of_singleton. split.
    + intros [(p & Hp & ->) | ->].
      * exists p. split; [apply elem_of_app; auto | reflexivity].
      * exists "". split; [|reflexivity].
        apply elem_of_app. right. apply list_elem_of_singleton. reflexivity.
    + intros (p & [Hp | Hp%list_elem_of_singleton]%elem_of_app & ->).
      * left. exists p. auto.
      * subst p. right. reflexivity.
Qed.

Lemma regex_test_spec r s :
  regex_test r s = true <-> exists p rest, p ∈ words r /\ s = p +:+ rest.
Proof.
  unfold regex_test. split.
  - destruct (rest_after r s) as [|rest l] eqn:Hl; [discriminate|]. intros _.
    assert (Hin : rest ∈ rest_after r s) by (rewrite Hl; left).
    apply rest_after_spec in Hin as (p & Hp & ->). exists p, rest. auto.
  - intros (p & rest & Hp & ->).
    assert (Hin : rest ∈ rest_after r (p +:+ rest))
      by (apply rest_after_spec; exists p; auto).
    destruct (rest_after r (p +:+ rest)); [apply elem_of_nil in Hin as [] | reflexivity].
Qed.

(** Cuts a matched word into scheme, host prefix and path. *)
Ltac url_parts rest :=
  let mem := (apply (bool_decide_unpack _); vm_compute; exact I) in
  let go s w p :=
    (exists s, w, p, rest;
     split; [mem | split; [mem | split; [mem | reflexivity]]]) in
  let paths s w :=
    first [go s w "youtube.com/watch?v=" | go s w "youtube.com/shorts/"
          | go s w "youtu.be/"] in
  let hosts s := first [paths s "" | paths s "www."] in
  first [hosts "" | hosts "http://" | hosts "https://"].

(** [validateUrl] accepts the empty field and every text that begins with
    an optional [http://] or [https://], an optional [www.] and one of
    [youtube.com/watch?v=], [youtube.com/shorts/], [youtu.be/]; it rejects
    everything else.  Nothing is asked of what follows. *)
Theorem validateUrl_accepts (url hint : string) :
  snd (validateUrl url hint) = true <->
  url = "" \/
  exists scheme www path rest,
    scheme ∈ [""; "http://"; "https://"] /\
    www ∈ [""; "www."] /\
    path ∈ ["youtube.com/watch?v="; "youtube.com/shorts/"; "youtu.be/"] /\
    url = scheme +:+ www +:+ path +:+ rest.
Proof.
  unfold validateUrl.
  destruct (String.eqb_spec url "") as [-> | Hne]; [cbn; split; auto|].
  destruct (regex_test ytRegex url) eqn:Htest; cbn [negb snd].
  - split; [intros _; right | reflexivity].
    apply regex_test_spec in Htest as (p & rest & Hp & ->).
    let w := eval vm_compute in (words ytRegex) in
    change (words ytRegex) with w in Hp.
    repeat (apply elem_of_cons in Hp as [-> | Hp]; [url_parts rest|]).
    apply elem_of_nil in Hp as [].
  - split; [discriminate|]. intros [-> | (scheme & www & path & rest & H1 & H2 & H3 & ->)];
      [congruence|].
    exfalso. apply not_true_iff_false in Htest. apply Htest.
    apply regex_test_spec.
    exists (scheme +:+ www +:+ path), rest. split.
    + repeat (apply elem_of_cons in H1 as [-> | H1]);
        try (apply elem_of_nil in H1 as []);
        repeat (apply elem_of_cons in H2 as [-> | H2]);
        try (apply elem_of_nil in H2 as []);
        repeat (apply elem_of_cons in H3 as [-> | H3]);
        try (apply elem_of_nil in H3 as []);
        apply (bool_decide_unpack _); vm_compute; exact I.
    + rewrite !string_app_assoc. reflexivity.
Qed.

(** ** The language list *)

Lemma populateLanguageSelect_showing shown ui :
  populateLanguageSelect (Some shown) ui
  = (showing (allLanguages ui) shown, Val tt).
Proof.
  unfold populateLanguageSelect, showing, select_value. cbv zeta.
  rewrite <- list_fmap_compose. reflexivity.
Qed.

Section Language_search_facts.
Variable toLowerCase : string -> string.
Variable trim : string -> string.

Lemma filter_languages_named query all :
  Forall (fun l => exists native, lang_native_name l = JStr native) all ->
  filter_languages toLowerCase query all
  = Val (filter (fun l => lang_mentions toLowerCase query l) all).
Proof.
  induction all as [|l all IH]; intros Hall; [reflexivity|].
  apply Forall_cons in Hall as [[native Hn] Hall].
  cbn [filter_languages]. rewrite (IH Hall).
  unfold language_matches. rewrite Hn.
  assert (Hm : lang_mentions toLowerCase query l
               = includes (toLowerCase (lang_name l)) query
                 || includes (toLowerCase native) query
                 || includes (toLowerCase (lang_code l)) query)
    by (unfold lang_mentions; rewrite Hn; reflexivity).
  destruct (includes (toLowerCase (lang_name l)) query);
    [|destruct (includes (toLowerCase native) query)];
    [| |destruct (includes (toLowerCase (lang_code l)) query)];
    cbv beta iota;
    first [rewrite filter_cons_True by (rewrite Hm; exact I)
          |rewrite filter_cons_False by (rewrite Hm; exact id)];
    reflexivity.
Qed.

Lemma search_input_named value all ui :
  allLanguages ui = Some all ->
  Forall (fun l => exists native, lang_native_name l = JStr native) all ->
  trim (toLowerCase value) <> "" ->
  search_input toLowerCase trim value ui
  = (showing (Some all)
       (filter (fun l => lang_mentions toLowerCase (trim (toLowerCase value)) l)
               all), Val tt).
Proof.
  intros Hall Hnamed Hq. unfold search_input. cbv zeta.
  destruct (String.eqb_spec (trim (toLowerCase value)) "") as [H | _];
    [congruence|].
  rewrite Hall, (filter_languages_named _ _ Hnamed).
  rewrite populateLanguageSelect_showing, Hall. reflexivity.
Qed.

(** Searching shows the entries that mention the query, in the order of
    the full list and without touching the full list: the options are
    those of a sub-sequence of [allLanguages], the placeholder counts
    them, and Spanish is selected only if it is among them; otherwise the
    select is left with no selection and an empty value. *)
Theorem search_shows_matching_languages
    (value : string) (all : list Lang) (ui : LangUi) :
  allLanguages ui = Some all ->
  Forall (fun l => exists native, lang_native_name l = JStr native) all ->
  trim (toLowerCase value) <> "" ->
  let query := trim (toLowerCase value) in
  let shown := filter (fun l => lang_mentions toLowerCase query l) all in
  search_input toLowerCase trim value ui = (showing (Some all) shown, Val tt) /\
  shown `sublist_of` all /\
  (forall l, l ∈ shown <-> l ∈ all /\ lang_mentions toLowerCase query l = true).
Proof.
  intros Hall Hnamed Hq. cbv zeta. split; [|split].
  - exact (search_input_named _ _ _ Hall Hnamed Hq).
  - apply sublist_filter.
  - intros l. rewrite list_elem_of_filter.
    rewrite Is_true_true. tauto.
Qed.

Lemma filter_languages_unnamed query all l :
  l ∈ all ->
  includes (toLowerCase (lang_name l)) query = false ->
  (forall native, lang_native_name l <> JStr native) ->
  filter_languages toLowerCase query all = Throw TypeError.
Proof.
  intros Hin Hname Hnative.
  induction all as [|l0 all IH]; [apply elem_of_nil in Hin as []|].
  cbn [filter_languages].
  destruct (language_matches toLowerCase query l0) as [keep | e] eqn:Hm.
  - apply elem_of_cons in Hin as [-> | Hin].
    + exfalso. unfold language_matches in Hm. rewrite Hname in Hm.
      destruct (lang_native_name l0) eqn:Hn; try discriminate.
      exact (Hnative _ eq_refl).
    + rewrite (IH Hin). reflexivity.
  - unfold language_matches in Hm.
    destruct (includes (toLowerCase (lang_name l0)) query); [discriminate|].
    destruct (lang_native_name l0); try (injection Hm as <-; reflexivity).
    destruct (includes (toLowerCase s) query); discriminate.
Qed.

(** [populateLanguageSelect] accepts an entry without a native name, the
    search does not: as soon as the list holds an entry whose native name
    is no string and whose name does not contain the query, the listener
    throws a TypeError and the select keeps showing what it showed. *)
Theorem search_throws_without_native_name
    (value : string) (all : list Lang) (l : Lang) (ui : LangUi) :
  allLanguages ui = Some all ->
  trim (toLowerCase value) <> "" ->
  l ∈ all ->
  includes (toLowerCase (lang_name l)) (trim (toLowerCase value)) = false ->
  (forall native, lang_native_name l <> JStr native) ->
  search_input toLowerCase trim value ui = (ui, Throw TypeError).
Proof.
  intros Hall Hq Hin Hname Hnative. unfold search_input. cbv zeta.
  destruct (String.eqb_spec (trim (toLowerCase value)) "") as [H | _];
    [congruence|].
  rewrite Hall, (filter_languages_unnamed _ _ _ Hin Hname Hnative).
  reflexivity.
Qed.

(** Clearing the search field after a search brings back exactly what
    loading the list showed. *)
Theorem search_then_clear_restores
    (value cleared : string) (all : list Lang) (ui : LangUi) :
  allLanguages ui = Some all ->
  Forall (fun l => exists native, lang_native_name l = JStr native) all ->
  trim (toLowerCase cleared) = "" ->
  fst (search_input toLowerCase trim cleared
         (fst (search_input toLowerCase trim value ui)))
  = fst (loadLanguages (LangDecoded (LangObj (Some all))) ui).
Proof.
  intros Hall Hnamed Hclear.
  assert (Hfull : forall ui0,
             allLanguages ui0 = Some all ->
             search_input toLowerCase trim cleared ui0
             = (showing (Some all) all, Val tt)).
  { intros ui0 H0. unfold search_input. cbv zeta. rewrite Hclear. cbn.
    rewrite H0, populateLanguageSelect_showing, H0. reflexivity. }
  assert (Hload : loadLanguages (LangDecoded (LangObj (Some all))) ui
                  = (showing (Some all) all, Val tt)).
  { unfold loadLanguages. cbv zeta. rewrite populateLanguageSelect_showing.
    reflexivity. }
  rewrite Hload. cbn [fst].
  destruct (String.eqb_spec (trim (toLowerCase value)) "") as [Hv | Hv].
  - assert (Hfirst : search_input toLowerCase trim value ui
                     = (showing (Some all) all, Val tt)).
    { unfold search_input. cbv zeta. rewrite Hv. cbn.
      rewrite Hall, populateLanguageSelect_showing, Hall. reflexivity. }
    rewrite Hfirst, Hfull; reflexivity.
  - rewrite (search_input_named _ _ _ Hall Hnamed Hv), Hfull; reflexivity.
Qed.

(** When the list cannot be loaded (the [fetch] rejects, the body does not
    decode, or it decodes to [null]) the select is given the one option
    "Spanish (Fallback)", selected.  [allLanguages] stays the empty list
    the script starts with, so the first change of the search field,
    whatever is typed, empties the select: the fallback option is gone and
    no language is selected. *)
Theorem fallback_lost_on_search
    (r : LangFetch) (ui : LangUi) (value : string) :
  allLanguages ui = Some [] ->
  (r = LangFetchRejects \/ r = LangMalformed \/ r = LangDecoded LangNull) ->
  loadLanguages r ui
  = (mkLangUi (Some []) [mkOption "es" "Spanish (Fallback)"] "es"
              (langSearch_placeholder ui), Val tt) /\
  search_input toLowerCase trim value (fst (loadLanguages r ui))
  = (mkLangUi (Some []) [] "" "Search 0 languages...", Val tt).
Proof.
  intros Hall Hr.
  assert (Hload : loadLanguages r ui
                  = (mkLangUi (Some []) [mkOption "es" "Spanish (Fallback)"]
                              "es" (langSearch_placeholder ui), Val tt)).
  { destruct Hr as [-> | [-> | ->]]; cbn; rewrite Hall; reflexivity. }
  split; [exact Hload|]. rewrite Hload. cbn [fst].
  unfold search_input. cbv zeta.
  destruct (String.eqb (trim (toLowerCase value)) ""); reflexivity.
Qed.
End Language_search_facts.

Lemma search_shows_matching_languages_witness :
  search_input (fun s => s) (fun s => s) "Fre"
               (showing (Some named_languages) named_languages)
  = (showing (Some named_languages)
             [mkLang "fr" "French" (JStr "Français")], Val tt).
Proof.
  destruct (search_shows_matching_languages (fun s => s) (fun s => s) "Fre"
              named_languages (showing (Some named_languages) named_languages))
    as [Hshown _].
  - reflexivity.
  - apply Forall_cons. split; [eexists; reflexivity|].
    apply Forall_cons. split; [eexists; reflexivity|]. apply Forall_nil_2.
  - discriminate.
  - exact Hshown.
Defined.

Lemma search_throws_without_native_name_witness :
  search_input (fun s => s) (fun s => s) "Fre"
               (showing (Some three_languages) three_languages)
  = (showing (Some three_languages) three_languages, Throw TypeError).
Proof.
  apply (search_throws_without_native_name (fun s => s) (fun s => s) "Fre"
           three_languages (mkLang "tlh" "Klingon" JNull)).
  - reflexivity.
  - discriminate.
  - do 2 apply list_elem_of_further. apply list_elem_of_here.
  - reflexivity.
  - intros native. discriminate.
Defined.

Lemma search_then_clear_restores_witness :
  fst (search_input (fun s => s) (fun s => s) ""
         (fst (search_input (fun s => s) (fun s => s) "Fre"
                 (showing (Some named_languages) named_languages))))
  = fst (loadLanguages (LangDecoded (LangObj (Some named_languages)))
                       (showing (Some named_languages) named_languages)).
Proof.
  apply (search_then_clear_restores (fun s => s) (fun s => s) "Fre" ""
           named_languages).
  - reflexivity.
  - apply Forall_cons. split; [eexists; reflexivity|].
    apply Forall_cons. split; [eexists; reflexivity|]. apply Forall_nil_2.
  - reflexivity.
Defined.

Lemma fallback_lost_on_search_witness :
  search_input (fun s => s) (fun s => s) "s"
    (fst (loadLanguages LangFetchRejects (lang_ui_at_load [] "" "Search...")))
  = (mkLangUi (Some []) [] "" "Search 0 languages...", Val tt).
Proof.
  destruct (fallback_lost_on_search (fun s => s) (fun s => s) LangFetchRejects
              (lang_ui_at_load [] "" "Search...") "s") as [_ Hgone].
  - reflexivity.
  - left. reflexivity.
  - exact Hgone.
Defined.

(** ** The voice toggle *)

(** After a click on a button, that button and no other carries the class
    [active], and [selectedGender] is its [data-gender]; the buttons keep
    their place and their [data-gender]. *)
Theorem gender_click_selects_one (i : nat) (ui ui' : GenderUi) :
  gender_click i ui = Some ui' ->
  (exists btn, genderBtns ui !! i = Some btn /\
               selectedGender ui' = dataset_gender btn) /\
  length (genderBtns ui') = length (genderBtns ui) /\
  (forall j b',
      genderBtns ui' !! j = Some b' ->
      ("active" ∈ btn_classList b' <-> j = i) /\
      exists b, genderBtns ui !! j = Some b /\
                dataset_gender b' = dataset_gender b).
Proof.
  unfold gender_click. destruct (genderBtns ui !! i) as [btn|] eqn:Hi;
    [|discriminate].
  intros [= <-]. cbn. split; [eauto|].
  split; [rewrite length_alter, length_fmap; reflexivity|].
  intros j b' Hj. destruct (decide (i = j)) as [<- | Hne].
  - rewrite list_lookup_alter_eq, list_lookup_fmap, Hi in Hj. cbn in Hj.
    injection Hj as <-. cbn. split; [|eauto].
    split; [reflexivity|]. intros _. apply elem_of_classList_add. auto.
  - rewrite list_lookup_alter_ne, list_lookup_fmap in Hj by exact Hne.
    destruct (genderBtns ui !! j) as [b|]; [|discriminate].
    cbn in Hj. injection Hj as <-. cbn. split; [|eauto].
    split; [|congruence].
    intros H. apply elem_of_classList_remove in H as [H _]. congruence.
Qed.

Lemma gender_click_selects_one_witness :
  exists ui',
    gender_click 1
      (mkGenderUi "female"
         [mkGenderBtn "female" ["toggle-btn"; "active"];
          mkGenderBtn "male" ["toggle-btn"]]) = Some ui' /\
    selectedGender ui' = "male".
Proof.
  eexists. split; [reflexivity|].
  destruct (gender_click_selects_one 1
              (mkGenderUi "female"
                 [mkGenderBtn "female" ["toggle-btn"; "active"];
                  mkGenderBtn "male" ["toggle-btn"]])
              _ eq_refl) as [(btn & Hbtn & Hsel) _].
  rewrite Hsel. injection Hbtn as <-. reflexivity.
Defined.

Lemma validateUrl_accepts_witness :
  snd (validateUrl "https://youtu.be/" "") = true.
Proof.
  apply (validateUrl_accepts "https://youtu.be/" "").
  right. exists "https://", "", "youtu.be/", "".
  repeat split; apply (bool_decide_unpack _); vm_compute; exact I.
Defined.

(** ** The first snapshot of a session *)

(** [showProgress] followed by a snapshot that is not terminal, as a
    session start and a resume do it, gives a stage display that depends on
    the snapshot alone: whatever the stage elements carried before, a
    stage before the snapshot's is marked complete and labelled so, the
    snapshot's own stage is marked in progress if the status is [running],
    and every other stage carries neither class and the label "Waiting". *)
Theorem first_snapshot_display
    (s : State) (jobId : JsVal) (d : Snapshot) (i : nat) (el : StageEl) :
  is_terminal (status d) = false ->
  stages (page s) !! i = Some el ->
  exists el',
    stages (page (exec (updateProgress (JsonObj d))
                       (exec (showProgress jobId) s))) !! i = Some el' /\
    dataset_stage el' = dataset_stage el /\
    (indexOf STAGE_ORDER (dataset_stage el) < indexOf STAGE_ORDER (stage d) ->
     marked_complete el' /\ stage_status el' = "Complete ✓") /\
    (indexOf STAGE_ORDER (dataset_stage el) = indexOf STAGE_ORDER (stage d) ->
     status d = JStr "running" ->
     marked_in_progress el' /\ stage_status el' = "Processing...") /\
    (indexOf STAGE_ORDER (stage d) < indexOf STAGE_ORDER (dataset_stage el) \/
     (indexOf STAGE_ORDER (stage d) = indexOf STAGE_ORDER (dataset_stage el) /\
      status d <> JStr "running") ->
     marked_pending el' /\ stage_status el' = "Waiting").
Proof.
  intros Hnt Hel.
  assert (Hreset : stages (page (exec (showProgress jobId) s)) !! i
                   = Some (reset_stage el)).
  { unfold exec. rewrite showProgress_eq. cbn [fst]. rewrite page_set_page.
    change (stages (progress_page jobId (page s)))
      with (reset_stage <$> stages (page s)).
    rewrite list_lookup_fmap, Hel. reflexivity. }
  eexists. split; [apply (updateProgress_stage_lookup _ _ _ _ Hnt Hreset)|].
  rewrite update_stage_dataset.
  change (dataset_stage (reset_stage el)) with (dataset_stage el).
  split; [reflexivity|]. split; [|split].
  - intros Hlt. apply update_stage_before. exact Hlt.
  - intros Heq Hrun. rewrite Hrun. apply update_stage_current. exact Heq.
  - intros Hcase.
    destruct (update_stage_pending (indexOf STAGE_ORDER (stage d)) (status d)
                (reset_stage el) Hcase) as [Hp Hlabel].
    split; [exact Hp|]. rewrite Hlabel. reflexivity.
Qed.

Lemma first_snapshot_display_witness :
  exists el',
    stages (page (exec (updateProgress (JsonObj running_transcribe))
                       (exec (showProgress (JStr "abc123"))
                             (deliver watching_abc123 complete_snapshot))))
      !! 5%nat = Some el' /\
    marked_pending el' /\ stage_status el' = "Waiting".
Proof.
  destruct (first_snapshot_display
              (deliver watching_abc123 complete_snapshot) (JStr "abc123")
              running_transcribe 5
              (mkStageEl (JStr "render") ["stage"; "done"] "Complete ✓"))
    as (el' & Hel' & _ & _ & _ & Hpending).
  - reflexivity.
  - reflexivity.
  - exists el'. split; [exact Hel'|]. apply Hpending. left.
    vm_compute. reflexivity.
Defined.

(** *** Reconnections stay with their job *)

Lemma well_formed_onerror s src e :
  well_formed s -> sources s !! src = Some e ->
  well_formed (exec (onerror (es_closure e)) s).
Proof.
  intros H He.
  destruct (onerror_cases (es_closure e) s)
    as [[_ ->] | (i & delay & _ & -> & Hdelay)]; [exact H|].
  assert (Hc : (es_closure e < length (closures s))%nat)
    by exact (Forall_lookup_1 _ _ _ _ (proj1 H) He).
  pose proof (well_formed_retry _ (es_closure e)
                (retryCount_of (es_closure e) s + 1)
                (well_formed_close _ i H)) as (Hsrc & Hto & Hes & Hpt).
  unfold well_formed in *. cbn in *.
  repeat split; auto; [|intros j [=]].
  apply Forall_app. split; [exact Hto|].
  destruct Hdelay as [-> | ->]; [apply Forall_nil_2|].
  apply Forall_singleton. cbn. rewrite length_alter. exact Hc.
Qed.

Lemma closures_lookup_retry c n k (cls : list SseClosure) :
  from_option c_jobId JUndefined
    (alter (fun cl => mkClosure (c_jobId cl) n) c cls !! k)
  = from_option c_jobId JUndefined (cls !! k).
Proof.
  destruct (decide (c = k)) as [-> | Hne].
  - rewrite list_lookup_alter_eq. destruct (cls !! k); reflexivity.
  - rewrite list_lookup_alter_ne by exact Hne. reflexivity.
Qed.

Lemma follow_close s i :
  sources_follow_job s ->
  sources_follow_job (set_sources (close_source i (sources s)) s).
Proof.
  intros H j e' Hj. cbn in *. unfold close_source in Hj.
  destruct (decide (i = j)) as [-> | Hne].
  - rewrite list_lookup_alter_eq in Hj.
    destruct (sources s !! j) as [e|] eqn:He; [|discriminate].
    cbn in Hj. injection Hj as <-. cbn. exact (H _ _ He).
  - rewrite list_lookup_alter_ne in Hj by exact Hne. exact (H _ _ Hj).
Qed.

Lemma follow_retry s c n :
  sources_follow_job s ->
  sources_follow_job
    (set_closures (alter (fun cl => mkClosure (c_jobId cl) n) c (closures s)) s).
Proof.
  intros H j e Hj. cbn in *. rewrite closures_lookup_retry. exact (H _ _ Hj).
Qed.

Lemma follow_connect s c :
  sources_follow_job s -> sources_follow_job (exec (connect c) s).
Proof.
  intros H j e Hj. unfold exec in *. rewrite connect_eq in *. cbn in *.
  apply lookup_app_Some in Hj as [Hj | [_ Hj]]; [exact (H _ _ Hj)|].
  destruct (j - length (sources s))%nat; [|discriminate].
  injection Hj as <-. reflexivity.
Qed.

(** In every state the page can reach, each source, open or closed,
    carries the status URL of the job its own activation was started for:
    a reconnection never strays to another job. *)
Theorem reachable_sources_follow_job (s : State) :
  reachable s -> sources_follow_job s.
Proof.
  intros (store & evs & Hrun).
  cut (well_formed s /\ sources_follow_job s); [intros [_ H]; exact H|].
  refine (inv_run_events (fun s => well_formed s /\ sources_follow_job s)
            _ _ _ _ _ _ _ _ _ _ evs (page_load store) s _ Hrun).
  - intros s0 x H. exact H.
  - intros s0 x H. exact H.
  - intros s0 x H. exact H.
  - intros s0 n H. exact H.
  - apply keeps_release.
    + intros s0 [Hw Hf].
      destruct (eventSource_close_cases s0) as [[_ ->] | (i & _ & ->)];
        [auto | split; [apply well_formed_close, Hw | apply follow_close, Hf]].
    + intros s0 [(Hsrc & Hto & Hes & Hpt) Hf]. split; [|exact Hf].
      unfold well_formed. cbn. repeat split; auto. intros i [=].
  - intros s0 [(Hsrc & Hto & Hes & Hpt) Hf]. rewrite stopPolling_eq.
    split; [|exact Hf]. unfold well_formed. cbn. repeat split; auto.
    intros i [=].
  - intros c n s0 [Hw Hf].
    split; [apply well_formed_retry, Hw | apply follow_retry, Hf].
  - intros jobId s0 [Hw Hf]. split; [apply well_formed_startSSE, Hw|].
    rewrite startSSE_eq. intros j e Hj. cbn in *.
    apply lookup_app_Some in Hj as [Hj | [_ Hj]].
    + assert (Hc : (es_closure e < length (closures s0))%nat).
      { pose proof (sources_after_close_owner
                      (fun c => (c < length (closures s0))%nat) s0 (proj1 Hw))
          as Hall.
        exact (Forall_lookup_1 _ _ _ _ Hall Hj). }
      rewrite lookup_app_l by exact Hc.
      unfold sources_after_close in Hj.
      destruct (eventSource s0) as [i|]; [|exact (Hf _ _ Hj)].
      exact (follow_close s0 i Hf _ _ Hj).
    + destruct (j - length (sources_after_close s0))%nat; [|discriminate].
      injection Hj as <-. cbn.
      rewrite list_lookup_middle by reflexivity. reflexivity.
  - intros s0 src e [Hw Hf] He _.
    split; [exact (well_formed_onerror _ _ _ Hw He)|].
    destruct (onerror_cases (es_closure e) s0)
      as [[_ ->] | (i & delay & _ & -> & _)]; [exact Hf|].
    exact (follow_retry _ _ _ (follow_close _ i Hf)).
  - intros s0 k t [Hw Hf] Ht. split.
    + exact (well_formed_step (TimerFires k) s0 _ Hw
               ltac:(cbn [step]; rewrite Ht; reflexivity)).
    + apply follow_connect. exact Hf.
  - split; [apply well_formed_page_load|]. intros i e [=].
Qed.

Lemma reachable_sources_follow_job_witness :
  sources_follow_job watching_abc123.
Proof.
  apply reachable_sources_follow_job.
  exists (mkStorage false None), [Submit true abc123_created].
  vm_compute. reflexivity.
Defined.

(** *** The handle is live *)

Lemma close_eventSource_if_open_eq s :
  close_eventSource_if_open s
  = (set_eventSource None (set_sources (sources_after_close s) s), Val tt).
Proof.
  unfold close_eventSource_if_open, eventSource_close, sources_after_close,
    bind, get, modify, ret.
  destruct s as [ls cj es pt cls srcs tos ivs inf pg]. cbn.
  destruct es; reflexivity.
Qed.

Lemma handle_open_null s : eventSource s = None -> handle_open s.
Proof. intros H i Hi. congruence. Qed.

Lemma handle_open_fresh s (l : list EventSourceObj) e :
  sources s = (l ++ [e])%list -> eventSource s = Some (length l) ->
  es_open e = true -> handle_open s.
Proof.
  intros Hs He Ho i Hi. rewrite He in Hi. injection Hi as <-.
  exists e. rewrite Hs, list_lookup_middle by reflexivity. auto.
Qed.

Lemma handle_open_step (ev : Event) (s s' : State) :
  handle_open s -> step ev s = Some s' -> handle_open s'.
Proof.
  apply (inv_step handle_open).
  - intros s0 x H. exact H.
  - intros s0 x H. exact H.
  - intros s0 x H. exact H.
  - intros s0 n H. exact H.
  - intros s0 _. rewrite close_eventSource_if_open_eq.
    apply handle_open_null. reflexivity.
  - intros s0 H. rewrite stopPolling_eq. exact H.
  - intros c n s0 H. exact H.
  - intros jobId s0 _. rewrite startSSE_eq.
    eapply handle_open_fresh; reflexivity.
  - intros s0 src e H _ _.
    destruct (onerror_cases (es_closure e) s0)
      as [[_ ->] | (i & delay & _ & -> & _)]; [exact H|].
    apply handle_open_null. reflexivity.
  - intros s0 k t _ _. unfold exec. rewrite connect_eq.
    eapply handle_open_fresh; reflexivity.
Qed.

(** In every state the page can reach, [eventSource] is null or holds an
    open source: every place that closes the source it holds also nulls or
    replaces it within the same callback, so the page never keeps a handle
    on a connection that is closed. *)
Theorem reachable_handle_open (s : State) : reachable s -> handle_open s.
Proof.
  intros (store & evs & Hrun). revert Hrun.
  assert (H0 : handle_open (page_load store))
    by (apply handle_open_null; reflexivity).
  revert H0. generalize (page_load store).
  induction evs as [|ev evs IH]; intros s0 H0 Hrun; cbn in Hrun.
  - injection Hrun as <-. exact H0.
  - destruct (step ev s0) as [s1|] eqn:Hstep; [|discriminate].
    exact (IH s1 (handle_open_step _ _ _ H0 Hstep) Hrun).
Qed.

Lemma reachable_handle_open_witness :
  exists s, run_events five_failures watching_abc123 = Some s /\ handle_open s.
Proof.
  eexists. split; [vm_compute; reflexivity|].
  apply reachable_handle_open.
  exists (mkStorage false None), (Submit true abc123_created :: five_failures).
  vm_compute. reflexivity.
Defined.

(** *** A source that is let go of stays open *)

Lemma unreferenced_after_close i s :
  unreferenced_open i s ->
  exists e, sources_after_close s !! i = Some e /\ es_open e = true.
Proof.
  intros [(e & He & Ho) Hne]. exists e. split; [|exact Ho].
  unfold sources_after_close, close_source.
  destruct (eventSource s) as [j|]; [|exact He].
  rewrite list_lookup_alter_ne by congruence. exact He.
Qed.

Lemma unreferenced_appended i s (l : list EventSourceObj) e0 :
  (exists e, l !! i = Some e /\ es_open e = true) ->
  sources s = (l ++ [e0])%list -> eventSource s = Some (length l) ->
  unreferenced_open i s.
Proof.
  intros (e & He & Ho) Hs Hes. split.
  - exists e. rewrite Hs. split; [apply lookup_app_l_Some, He | exact Ho].
  - rewrite Hes. intros [= Hi]. apply lookup_lt_Some in He. lia.
Qed.

(** [connect] assigns [eventSource] without closing what it held, and
    every [close()] in the script goes through the variable.  So a source
    that is open while the variable holds something else can never be
    closed: whatever happens next, it stays open, and the variable never
    comes back to it. *)
Theorem unreferenced_source_stays_open
    (i : nat) (evs : list Event) (s s' : State) :
  unreferenced_open i s -> run_events evs s = Some s' ->
  unreferenced_open i s'.
Proof.
  apply (inv_run_events (unreferenced_open i)).
  - intros s0 x H. exact H.
  - intros s0 x H. exact H.
  - intros s0 x H. exact H.
  - intros s0 n H. exact H.
  - intros s0 H. rewrite close_eventSource_if_open_eq.
    split; [exact (unreferenced_after_close _ _ H) | discriminate].
  - intros s0 H. rewrite stopPolling_eq. exact H.
  - intros c n s0 H. exact H.
  - intros jobId s0 H. rewrite startSSE_eq.
    eapply unreferenced_appended;
      [exact (unreferenced_after_close _ _ H) | reflexivity | reflexivity].
  - intros s0 src e H _ _.
    destruct (onerror_cases (es_closure e) s0)
      as [[_ ->] | (j & delay & Hj & -> & _)]; [exact H|].
    split; [|discriminate].
    pose proof (unreferenced_after_close _ _ H) as Hkept.
    unfold sources_after_close in Hkept. rewrite Hj in Hkept. exact Hkept.
  - intros s0 k t [Hopen _] _. unfold exec. rewrite connect_eq.
    eapply unreferenced_appended; [exact Hopen | reflexivity | reflexivity].
Qed.

Lemma unreferenced_source_stays_open_witness :
  run_events stale_reconnection watching_abc123
  = Some after_stale_reconnection /\
  exists s',
    run_events
      [EsMessage 2 (Decoded (JsonObj (error_snapshot "disk full")));
       IntervalTick 1;
       PollSettles (Response true (Decoded (JsonObj complete_snapshot)))]
      after_stale_reconnection = Some s' /\
    sources s' !! 1%nat
    = Some (mkEventSource "/api/status/xyz789" 1 true) /\
    unreferenced_open 1 s'.
Proof.
  split; [vm_compute; reflexivity|].
  eexists. split; [vm_compute; reflexivity|].
  split; [vm_compute; reflexivity|].
  apply (unreferenced_source_stays_open 1
           [EsMessage 2 (Decoded (JsonObj (error_snapshot "disk full")));
            IntervalTick 1;
            PollSettles (Response true (Decoded (JsonObj complete_snapshot)))]
           after_stale_reconnection).
  - split; [eexists; split; vm_compute; reflexivity | vm_compute; discriminate].
  - vm_compute. reflexivity.
Defined.

(** *** What the teardown of [onmessage] amounts to *)

(** The teardown that [onmessage] spells out after [updateProgress]
    ([eventSource.close()], [eventSource = null], [stopPolling()]) never
    takes effect: the handler does what its first three statements do.
    So a message on the push source stops the poll loop only through
    [finishSuccess], that is, only when it says [complete]; after any
    other message, an [error] snapshot included, the poll timer and the
    registrations are as they were. *)
Theorem onmessage_teardown_never_runs
    (c : nat) (event_data : Parsed) (s : State) :
  onmessage c event_data s
  = try_catch
      (run set_retryCount c 0;
       do data <- JSON_parse event_data;
       updateProgress data)
      (fun _ => ret tt) s /\
  ((forall d, event_data = Decoded (JsonObj d) -> status d <> JStr "complete") ->
   pollTimer (exec (onmessage c event_data) s) = pollTimer s /\
   intervals (exec (onmessage c event_data) s) = intervals s).
Proof.
  split; [apply onmessage_eq|]. intros Hst.
  unfold exec. rewrite onmessage_eq.
  unfold try_catch, bind, set_retryCount, modify, JSON_parse.
  destruct event_data as [|[|d]]; [split; reflexivity | split; reflexivity |].
  cbn -[updateProgress].
  assert (Hc : strict_eq (status d) (JStr "complete") = false)
    by (apply bool_decide_eq_false_2, Hst; reflexivity).
  rewrite updateProgress_unfold, Hc.
  destruct (strict_eq (status d) (JStr "error")); [|split; reflexivity].
  destruct (ls_faulty (localStorage s)) eqn:Hf.
  - rewrite finishError_faulty by exact Hf. split; reflexivity.
  - rewrite finishError_ok by exact Hf. split; reflexivity.
Qed.

Lemma onmessage_teardown_never_runs_witness :
  pollTimer
    (exec (onmessage 0 (Decoded (JsonObj (error_snapshot "disk full"))))
          watching_abc123)
  = Some 0%nat.
Proof.
  destruct (onmessage_teardown_never_runs 0
              (Decoded (JsonObj (error_snapshot "disk full"))) watching_abc123)
    as [_ Hpoll].
  destruct Hpoll as [Hpt _].
  - intros d [= <-]. discriminate.
  - rewrite Hpt. vm_compute. reflexivity.
Defined.

(** *** A storage layer that faults *)

Lemma resetForm_faulty s :
  ls_faulty (localStorage s) = true -> resetForm s = (s, Throw StorageError).
Proof.
  intros Hf. unfold resetForm, localStorage_removeItem, bind, get, throw.
  rewrite Hf. reflexivity.
Qed.

Lemma handleSubmit_on_faulty_store valid r s :
  ls_faulty (localStorage s) = true ->
  exec (handleSubmit valid r) s = s \/
  exists text cj,
    exec (handleSubmit valid r) s
    = set_page (error_view text (page s)) (set_currentJobId cj s).
Proof.
  intros Hf. destruct valid; [right | left; reflexivity].
  destruct r as [|ok [|[|d]]].
  - eexists _, (currentJobId s). reflexivity.
  - eexists _, (currentJobId s). destruct ok; reflexivity.
  - eexists _, (currentJobId s). destruct ok; reflexivity.
  - destruct ok.
    + exists "Network error. Is the server running?", (job_id d).
      unfold exec. rewrite (handleSubmit_faulty _ _ Hf). reflexivity.
    + eexists _, (currentJobId s). reflexivity.
Qed.

Lemma faulty_store_step store ev s s' :
  ls_faulty store = true ->
  localStorage s = store /\ never_watched s /\
  (shown_outcome (page s) = None \/
   exists text, shown_outcome (page s) = Some (Failed text)) ->
  step ev s = Some s' ->
  localStorage s' = store /\ never_watched s' /\
  (shown_outcome (page s') = None \/
   exists text, shown_outcome (page s') = Some (Failed text)).
Proof.
  intros Hf (Hls & Hnone & Hout) Hstep.
  pose proof Hnone as (Hc & Hsrc & Hto & Hiv & Hes & Hpt & Hin).
  assert (Hfs : ls_faulty (localStorage s) = true) by (rewrite Hls; exact Hf).
  destruct ev as [src event_data | src | k | i | r | valid r | r | ];
    cbn [step] in Hstep.
  - rewrite Hsrc, lookup_nil in Hstep. discriminate.
  - rewrite Hsrc, lookup_nil in Hstep. discriminate.
  - rewrite Hto, lookup_nil in Hstep. discriminate.
  - rewrite Hiv, lookup_nil in Hstep. discriminate.
  - rewrite Hin in Hstep. discriminate.
  - injection Hstep as <-.
    destruct (handleSubmit_on_faulty_store valid r s Hfs)
      as [-> | (text & cj & ->)]; [auto|].
    split; [exact Hls|]. split; [exact Hnone|].
    right. exists text. reflexivity.
  - injection Hstep as <-. unfold exec.
    rewrite (resumeActiveJob_faulty _ _ Hfs). auto.
  - injection Hstep as <-. unfold exec.
    rewrite (resetForm_faulty _ Hfs). auto.
Qed.

(** On a storage layer that faults the page never watches a job.  However
    the service answers and whatever the user does, every turn of the
    event loop leaves the page without activation, source, timer or poll
    registration, and the store as it was; an accepted submission is
    reported like a failed one, and the page never shows a success. *)
Theorem faulty_store_never_watches
    (store : Storage) (evs : list Event) (s : State) :
  ls_faulty store = true ->
  run_events evs (page_load store) = Some s ->
  localStorage s = store /\ never_watched s /\
  (shown_outcome (page s) = None \/
   exists text, shown_outcome (page s) = Some (Failed text)).
Proof.
  intros Hf.
  assert (H0 : localStorage (page_load store) = store /\
               never_watched (page_load store) /\
               (shown_outcome (page (page_load store)) = None \/
                exists text,
                  shown_outcome (page (page_load store)) = Some (Failed text)))
    by (split; [reflexivity|]; split; [repeat split | left; reflexivity]).
  revert H0. generalize (page_load store).
  induction evs as [|ev evs IH]; intros s0 H0 Hrun; cbn in Hrun.
  - injection Hrun as <-. exact H0.
  - destruct (step ev s0) as [s1|] eqn:Hstep; [|discriminate].
    exact (IH s1 (faulty_store_step _ _ _ _ Hf H0 Hstep) Hrun).
Qed.

Lemma faulty_store_never_watches_witness :
  exists s,
    run_events [Submit true abc123_created; RetryClick; Resume FetchRejects]
               reload_on_faulty_store = Some s /\
    never_watched s /\
    shown_outcome (page s)
    = Some (Failed "Network error. Is the server running?").
Proof.
  eexists. split; [vm_compute; reflexivity|].
  split; [|vm_compute; reflexivity].
  apply (faulty_store_never_watches (mkStorage true (Some "abc123"))
           [Submit true abc123_created; RetryClick; Resume FetchRejects]).
  - reflexivity.
  - vm_compute. reflexivity.
Defined.

(** *** Snapshots are not matched against the job *)

(** No callback reads the [job_id] of a snapshot: a snapshot is applied in
    the same way whatever job it names, so one that belongs to another
    job is shown as the progress, or the outcome, of the current one. *)
Theorem snapshot_job_not_checked
    (s : State) (d : Snapshot) (id : JsVal) (c : nat) :
  let d' :=
    mkSnapshot id (progress d) (message d) (stage d) (status d) (error d) in
  updateProgress (JsonObj d') s = updateProgress (JsonObj d) s /\
  onmessage c (Decoded (JsonObj d')) s = onmessage c (Decoded (JsonObj d)) s /\
  poll_callback (Response true (Decoded (JsonObj d'))) s
  = poll_callback (Response true (Decoded (JsonObj d))) s.
Proof.
  cbv zeta.
  assert (Hup : forall s0,
             updateProgress
               (JsonObj (mkSnapshot id (progress d) (message d) (stage d)
                                    (status d) (error d))) s0
             = updateProgress (JsonObj d) s0).
  { intros s0. rewrite !updateProgress_unfold. cbn [status].
    replace (render (mkSnapshot id (progress d) (message d) (stage d)
                                (status d) (error d)) (page s0))
      with (render d (page s0)) by reflexivity.
    destruct (strict_eq (status d) (JStr "complete")); [reflexivity|].
    destruct (strict_eq (status d) (JStr "error")); reflexivity. }
  split; [apply Hup|]. split.
  - rewrite !onmessage_eq.
    unfold try_catch, bind, set_retryCount, modify, JSON_parse.
    cbn -[updateProgress]. rewrite Hup. reflexivity.
  - unfold poll_callback, try_catch, bind, await_fetch, JSON_parse, prop.
    cbn -[updateProgress is_terminal stopPolling close_eventSource_if_open].
    rewrite Hup. reflexivity.
Qed.

(** *** A terminal snapshot on the poll channel *)

Lemma is_terminal_true st :
  is_terminal st = true -> st = JStr "complete" \/ st = JStr "error".
Proof.
  unfold is_terminal, strict_eq. intros [H | H]%orb_true_iff;
    apply bool_decide_eq_true in H; auto.
Qed.

(** A terminal snapshot that the poll callback delivers on a working
    store, [error] as well as [complete], stops the poll loop and lets go
    of the push source: no poll timer is held and no registration is
    active, [eventSource] is null and the source it held is closed, and
    the resume store is empty.  (The same [error] snapshot on the push
    source leaves the poll loop running.)  A reconnection that is pending
    is not cancelled and the activations keep their counters.  So the push
    channel is stopped as well only when no reconnection is pending and no
    source is open besides the one that was held. *)
Theorem poll_terminal_snapshot_teardown (s : State) (d : Snapshot) :
  reachable s ->
  ls_faulty (localStorage s) = false ->
  is_terminal (status d) = true ->
  poll_stopped (exec (poll_callback (Response true (Decoded (JsonObj d)))) s) /\
  eventSource (exec (poll_callback (Response true (Decoded (JsonObj d)))) s)
  = None /\
  sources (exec (poll_callback (Response true (Decoded (JsonObj d)))) s)
  = sources_after_close s /\
  localStorage (exec (poll_callback (Response true (Decoded (JsonObj d)))) s)
  = mkStorage false None /\
  timeouts (exec (poll_callback (Response true (Decoded (JsonObj d)))) s)
  = timeouts s /\
  closures (exec (poll_callback (Response true (Decoded (JsonObj d)))) s)
  = closures s /\
  (timeouts s = [] ->
   (forall i e, sources s !! i = Some e -> es_open e = true ->
                eventSource s = Some i) ->
   push_stopped
     (exec (poll_callback (Response true (Decoded (JsonObj d)))) s)).
Proof.
  intros Hinv%single_poll_of_reachable Hok Ht.
  pose proof (intervals_after_stop_inactive s Hinv) as Hoff.
  rewrite Forall_forall in Hoff.
  assert (Hclosed : (forall i e, sources s !! i = Some e -> es_open e = true ->
                                 eventSource s = Some i) ->
                    forall e, e ∈ sources_after_close s -> es_open e = false).
  { intros Honly e [i Hi]%list_elem_of_lookup.
    destruct (es_open e) eqn:Hopen; [exfalso|reflexivity].
    unfold sources_after_close, close_source in Hi.
    destruct (eventSource s) as [j|] eqn:Hes.
    - destruct (decide (j = i)) as [-> | Hne].
      + rewrite list_lookup_alter_eq in Hi.
        destruct (sources s !! i); cbn in Hi; [|discriminate].
        injection Hi as <-. discriminate.
      + rewrite list_lookup_alter_ne in Hi by exact Hne.
        specialize (Honly _ _ Hi Hopen). congruence.
    - specialize (Honly _ _ Hi Hopen). congruence. }
  unfold exec, poll_callback, try_catch, await_fetch, bind, JSON_parse, prop.
  cbn -[updateProgress is_terminal stopPolling close_eventSource_if_open].
  rewrite Ht.
  destruct (is_terminal_true _ Ht) as [Hst | Hst].
  - rewrite (updateProgress_complete _ _ Hst Hok).
    rewrite stopPolling_eq, close_eventSource_if_open_eq.
    split; [split; [reflexivity | exact Hoff]|].
    do 5 (split; [reflexivity|]).
    intros Hto Honly. split; [reflexivity|]. split; [|exact Hto].
    exact (Hclosed Honly).
  - rewrite (updateProgress_error _ _ Hst Hok).
    rewrite stopPolling_eq, close_eventSource_if_open_eq.
    split; [split; [reflexivity | exact Hoff]|].
    do 5 (split; [reflexivity|]).
    intros Hto Honly. split; [reflexivity|]. split; [|exact Hto].
    exact (Hclosed Honly).
Qed.

Lemma poll_terminal_snapshot_teardown_witness :
  poll_stopped
    (exec (poll_callback
             (Response true (Decoded (JsonObj (error_snapshot "disk full")))))
          watching_abc123) /\
  push_stopped
    (exec (poll_callback
             (Response true (Decoded (JsonObj (error_snapshot "disk full")))))
          watching_abc123).
Proof.
  destruct (poll_terminal_snapshot_teardown watching_abc123
              (error_snapshot "disk full"))
    as (Hpoll & _ & _ & _ & _ & _ & Hpush).
  - exists (mkStorage false None), [Submit true abc123_created].
    vm_compute. reflexivity.
  - reflexivity.
  - reflexivity.
  - split; [exact Hpoll|]. apply Hpush; [reflexivity|].
    intros [|[|i]] e He Hopen; [reflexivity | discriminate He | discriminate He].
Defined.
